(** * Task collection, mode interpretation and watch-mode rerun resolution

    A shallow embedding of
      - packages/runner/src/utils/collect.ts   (interpretTaskModes, someTasksAreOnly,
        skipAllTasks, checkAllowOnly, getTaskFullName, generateHash,
        calculateSuiteHash, createFileTask),
      - packages/runner/src/collect.ts         (collectTests, mergeHooks),
      - packages/vitest/src/node/core.ts       (handleFileChanged, scheduleRerun,
        watchTests, getModuleProjects, the watcher callbacks onChange and
        onUnlink, ensureSpecCached, filterTestsBySource),
      - packages/vitest/src/node/cli/cli-api.ts (parseFilter, forEachSuite,
        processCollected, processJsonOutput, formatCollectedAsJSON,
        formatCollectedAsString),
    together with the properties of the specification that concern them, and
    with further properties of the code. *)

From Stdlib Require Import ZArith Ascii String DecimalString DecimalNat.
From Stdlib Require DecimalPos DecimalN.
From stdpp Require Import base list strings gmap.

Local Open Scope string_scope.
Local Open Scope list_scope.

#[local] Set Warnings "-clear-no-such-hyp".

(** ** Data model: the task tree *)

(** [RunMode]: 'run' | 'skip' | 'only' | 'todo'. *)
Inductive RunMode : Type := run | skip | only | todo.

Definition mode_eqb (a b : RunMode) : bool :=
  match a, b with
  | run, run | skip, skip | only, only | todo, todo => true
  | _, _ => false
  end.

(** [TaskState]: the 'state' of a result, of which collection only writes 'fail'. *)
Inductive TaskState : Type := state_pass | state_fail | state_skip.

(** Task types that appear in a collected tree: a suite owns [tasks], the
    other two are leaves. *)
Inductive LeafType : Type := test | custom.

(** A regular expression is used through [String.prototype.match] only: it
    is represented by the predicate "the subject has a match". *)
Definition RegExp : Type := string -> bool.

(** What the runner takes from the host and from package @vitest/utils:
    the values that can be thrown, with [newError msg] for [new Error(msg)];
    [processError], which makes a serialisable error of a thrown value;
    [compileRegExp src] for [new RegExp(src)], which [String.prototype.match]
    applies to a pattern given as a string. *)
Class Host (Thrown TestError : Type) : Type := {
  newError : string -> Thrown;
  processError : Thrown -> TestError;
  compileRegExp : string -> RegExp
}.

Section Runner.

Context {Thrown TestError : Type} `{!Host Thrown TestError}.

(** [namePattern?: string | RegExp]. *)
Inductive NamePattern : Type :=
| PatString (source : string)
| PatRegExp (re : RegExp).

Record TaskResult : Type := mkResult {
  state : TaskState;
  errors : list TestError
}.

(** The fields of [TaskBase] that collection reads or writes. The [suite]
    back-reference is not stored: it is only followed to read the names of
    the enclosing suites, and that chain of names is passed down by the
    traversal (see [getTaskFullName]). *)
Record TaskBase : Type := mkBase {
  task_id : string;
  name : string;
  mode : RunMode;
  result : option TaskResult
}.

Definition set_mode (m : RunMode) (b : TaskBase) : TaskBase :=
  {| task_id := task_id b; name := name b; mode := m; result := result b |}.

Definition set_result (r : option TaskResult) (b : TaskBase) : TaskBase :=
  {| task_id := task_id b; name := name b; mode := mode b; result := r |}.

Definition set_id (i : string) (b : TaskBase) : TaskBase :=
  {| task_id := i; name := name b; mode := mode b; result := result b |}.

Local Unset Elimination Schemes.

Inductive Task : Type :=
| Leaf (type : LeafType) (b : TaskBase)
| SuiteTask (b : TaskBase) (tasks : list Task).

Local Set Elimination Schemes.

Definition base (t : Task) : TaskBase :=
  match t with Leaf _ b => b | SuiteTask b _ => b end.

Definition tasks_of (t : Task) : list Task :=
  match t with Leaf _ _ => [] | SuiteTask _ ts => ts end.

Definition is_suite (t : Task) : bool :=
  match t with Leaf _ _ => false | SuiteTask _ _ => true end.

Definition is_test (t : Task) : bool :=
  match t with Leaf test _ => true | _ => false end.

(** Induction on the tree, with the children of a suite under [Forall]. *)
Section Task_ind.
Variable P : Task -> Prop.
Hypothesis P_leaf : forall ty b, P (Leaf ty b).
Hypothesis P_suite : forall b ts, Forall P ts -> P (SuiteTask b ts).

Fixpoint Task_ind (t : Task) : P t :=
  match t with
  | Leaf ty b => P_leaf ty b
  | SuiteTask b ts =>
      P_suite b ts
        ((fix children (l : list Task) : Forall P l :=
            match l with
            | [] => @List.Forall_nil _ P
            | c :: l' => @List.Forall_cons _ P c l' (Task_ind c) (children l')
            end) ts)
  end.
End Task_ind.

(** ** packages/runner/src/utils/collect.ts *)

(** [getTaskFullName(task)]:
    `${task.suite ? `${getTaskFullName(task.suite)} ` : ''}${task.name}`.
    [chain] is the [suite] chain of the task, nearest suite first; the empty
    chain is an undefined [task.suite]. *)
Fixpoint getTaskFullName (chain : list string) (nm : string) : string :=
  match chain with
  | [] => nm
  | parent :: up => getTaskFullName up parent +:+ " " +:+ nm
  end.

(** [someTasksAreOnly(suite)], on [suite.tasks]. *)
Fixpoint taskIsOrHasOnly (t : Task) : bool :=
  mode_eqb (mode (base t)) only ||
  match t with
  | Leaf _ _ => false
  | SuiteTask _ ts => existsb taskIsOrHasOnly ts
  end.

Definition someTasksAreOnly (ts : list Task) : bool :=
  existsb taskIsOrHasOnly ts.

(** Every task of the tree is in mode 'run'. *)
Fixpoint allRun (t : Task) : bool :=
  mode_eqb (mode (base t)) run &&
  match t with
  | Leaf _ _ => true
  | SuiteTask _ ts => forallb allRun ts
  end.

(** [skipAllTasks(suite)], on [suite.tasks]: a child in mode 'run' is
    switched to 'skip' and, when it is a suite, its own children follow;
    a child in any other mode is left as it is, with all below it. *)
Fixpoint skipTask (t : Task) : Task :=
  if mode_eqb (mode (base t)) run then
    match t with
    | Leaf ty b => Leaf ty (set_mode skip b)
    | SuiteTask b ts => SuiteTask (set_mode skip b) (map skipTask ts)
    end
  else t.

Definition skipAllTasks (ts : list Task) : list Task := map skipTask ts.

Definition onlyErrorMessage : string :=
  "[Vitest] Unexpected .only modifier. Remove it or pass --allowOnly argument to bypass this error".

(** [checkAllowOnly(task, allowOnly)]. *)
Definition checkAllowOnly (allowOnly : bool) (b : TaskBase) : TaskBase :=
  if allowOnly then b
  else set_result
         (Some {| state := state_fail;
                  errors := [processError (newError onlyErrorMessage)] |}) b.

(** [namePattern && !fullName.match(namePattern)]: an absent pattern and
    the empty string are falsy, a RegExp object never is. *)
Definition patternRejects (namePattern : option NamePattern) (fullName : string) : bool :=
  match namePattern with
  | None => false
  | Some (PatString "") => false
  | Some (PatString src) => negb (compileRegExp src fullName)
  | Some (PatRegExp re) => negb (re fullName)
  end.

Section Interpret.
Variable namePattern : option NamePattern.
Variable onlyMode : bool.
Variable allowOnly : bool.

(** Lines 22-37: the [if (onlyMode)] block of the loop body, as a
    function of the child's own fields; [hasOnly] is
    [someTasksAreOnly(t)] for a suite. *)
Definition onlyStep (includeTask isSuite hasOnly : bool) (b : TaskBase) : TaskBase :=
  if onlyMode then
    if isSuite && (includeTask || hasOnly) then
      if mode_eqb (mode b) only then set_mode run (checkAllowOnly allowOnly b) else b
    else if mode_eqb (mode b) run && negb includeTask then set_mode skip b
    else if mode_eqb (mode b) only then set_mode run (checkAllowOnly allowOnly b)
    else b
  else b.

(** Lines 53-58: a suite in mode 'run' with at least one child and no
    child in mode 'run' becomes 'skip'. *)
Definition collapse (b : TaskBase) (ts : list Task) : TaskBase :=
  if mode_eqb (mode b) run
     && negb (Nat.eqb (length ts) 0)
     && forallb (fun i => negb (mode_eqb (mode (base i)) run)) ts
  then set_mode skip b else b.

(** The body of [interpretTaskModes] for a suite with fields [b] and
    children [ts], given the function [each] that the loop applies to a
    child. [chain] is the [suite] chain of the children. *)
Definition interpretWith (each : bool -> list string -> Task -> Task)
    (parentIsOnly : bool) (chain : list string) (b : TaskBase) (ts : list Task) : Task :=
  let suiteIsOnly := parentIsOnly || mode_eqb (mode b) only in
  let ts' := map (each suiteIsOnly chain) ts in
  SuiteTask (collapse b ts') ts'.

(** The loop body (lines 19-51) for one child [t] of a suite. The
    recursive call of line 48 is on the child after its mode was
    rewritten, so the rewritten fields [b1] are passed beside the
    child's task list. *)
Fixpoint eachTask (suiteIsOnly : bool) (chain : list string) (t : Task) {struct t} : Task :=
  let includeTask := suiteIsOnly || mode_eqb (mode (base t)) only in
  match t with
  | Leaf ty b =>
      let b1 := onlyStep includeTask false false b in
      match ty with
      | test =>
          if patternRejects namePattern (getTaskFullName chain (name b1))
          then Leaf ty (set_mode skip b1)
          else Leaf ty b1
      | custom => Leaf ty b1
      end
  | SuiteTask b ts =>
      let b1 := onlyStep includeTask true (someTasksAreOnly ts) b in
      if mode_eqb (mode b1) skip then SuiteTask b1 (skipAllTasks ts)
      else interpretWith eachTask includeTask (name b1 :: chain) b1 ts
  end.

(** [interpretTaskModes(suite, namePattern, locationFilters, onlyMode,
    parentIsOnly, allowOnly)]; [locationFilters] is not read by the
    function. [chain] is the [suite] chain of [suite.tasks]: empty for a
    File, whose top-level tasks have no [suite]. A [Leaf] is not a
    [Suite]; the function leaves it alone. *)
Definition interpretTaskModes (parentIsOnly : bool) (chain : list string) (suite : Task) : Task :=
  match suite with
  | Leaf _ _ => suite
  | SuiteTask b ts => interpretWith eachTask parentIsOnly chain b ts
  end.

End Interpret.

(** *** generateHash *)

(** ToInt32: the signed 32-bit integer congruent to [x] modulo 2^32. *)
Definition toInt32 (x : Z) : Z := ((x + 2 ^ 31) mod 2 ^ 32 - 2 ^ 31)%Z.

(** [a << n] and [a & b] on numbers holding integers: both operands go
    through ToInt32, and so does the result. *)
Definition shl32 (a n : Z) : Z := toInt32 (Z.shiftl (toInt32 a) n).
Definition and32 (a b : Z) : Z := toInt32 (Z.land (toInt32 a) (toInt32 b)).

(** Template-literal conversion of an integral number: decimal digits,
    with a leading minus sign when negative. *)
Definition numberToString (z : Z) : string := NilZero.string_of_int (Z.to_int z).
Definition indexToString (n : nat) : string := NilZero.string_of_uint (Nat.to_uint n).

(** The code units of a string, as [charCodeAt] returns them. *)
Definition charCodes (s : string) : list Z :=
  map (fun c => Z.of_N (N_of_ascii c)) (list_ascii_of_string s).

(** One round of the loop, lines 103-105. The subtraction and the addition
    are on doubles and exact: the operands stay far below 2^53. *)
Definition hashRound (hash char : Z) : Z :=
  let hash1 := (shl32 hash 5 - hash + char)%Z in
  and32 hash1 hash1.

(** [generateHash], on the sequence of code units of its argument. *)
Definition generateHashOfCodes (codes : list Z) : string :=
  let hash := 0%Z in
  if Nat.eqb (length codes) 0 then numberToString hash
  else numberToString (fold_left hashRound codes hash).

Definition generateHash (str : string) : string :=
  generateHashOfCodes (charCodes str).

(** The hash as the specification words it: [hash = hash*31 + charCode],
    truncated to 32 bits at each step, then written in decimal. *)
Definition rollingHashSpec (codes : list Z) : string :=
  numberToString (fold_left (fun h c => toInt32 (h * 31 + c)%Z) codes 0%Z).

(** *** calculateSuiteHash *)

(** [array.forEach((t, idx) => ...)] with the elements rewritten in place:
    the element at position [i] becomes [f (start + i)] of it. *)
Definition forEachIndexed {A B : Type} (f : nat -> A -> B) : nat -> list A -> list B :=
  fix go (start : nat) (l : list A) : list B :=
    match l with
    | [] => []
    | x :: rest => f start x :: go (S start) rest
    end.

(** The loop body for the child at index [idx] of a parent with id
    [parentId]. *)
Fixpoint hashTask (parentId : string) (idx : nat) (t : Task) {struct t} : Task :=
  let newId := parentId +:+ "_" +:+ indexToString idx in
  match t with
  | Leaf ty b => Leaf ty (set_id newId b)
  | SuiteTask b ts => SuiteTask (set_id newId b) (forEachIndexed (hashTask newId) 0 ts)
  end.

Definition calculateSuiteHash (parent : Task) : Task :=
  match parent with
  | Leaf _ _ => parent
  | SuiteTask b ts => SuiteTask b (forEachIndexed (hashTask (task_id b)) 0 ts)
  end.

(** *** Positions in a tree

    A task is addressed by the indices that lead to it from the root, one
    per level; the empty path is the root. *)
Fixpoint taskAt (p : list nat) (t : Task) {struct p} : option Task :=
  match p with
  | [] => Some t
  | i :: q =>
      match tasks_of t !! i with
      | Some c => taskAt q c
      | None => None
      end
  end.

Definition idAt (p : list nat) (t : Task) : option string :=
  (fun c => task_id (base c)) <$> taskAt p t.

Definition modeAt (p : list nat) (t : Task) : option RunMode :=
  (fun c => mode (base c)) <$> taskAt p t.

(** The tasks strictly above position [p], from [t] itself downwards;
    [tail] of it leaves the root out. *)
Fixpoint ancestorsAlong (p : list nat) (t : Task) {struct p} : list Task :=
  match p with
  | [] => []
  | i :: q =>
      t :: match tasks_of t !! i with
           | Some c => ancestorsAlong q c
           | None => []
           end
  end.

(** With [onlyMode] set and outside 'only', the loop of
    [interpretTaskModes] does not enter the suite [a]: the suite is in
    mode 'skip' when its children would be interpreted, because it was in
    mode 'skip' (lines 44-45) or because it was in mode 'run' and holds no
    task marked 'only' (lines 30-31); its children are handed to
    [skipAllTasks] instead. *)
Definition skippedWhole (a : Task) : bool :=
  mode_eqb (mode (base a)) skip
  || (mode_eqb (mode (base a)) run && negb (taskIsOrHasOnly a)).

(** Of the suites [l], outermost first, those that come after the first
    one that is skipped as a whole, if there is one. *)
Fixpoint belowFirstSkipped (l : list Task) : option (list Task) :=
  match l with
  | [] => None
  | a :: rest => if skippedWhole a then Some rest else belowFirstSkipped rest
  end.

(** Lines 55-56 on a task as the call left it: it has children, and none
    of them is in mode 'run'. *)
Definition noChildRuns (t : Task) : bool :=
  negb (Nat.eqb (length (tasks_of t)) 0)
  && forallb (fun i => negb (mode_eqb (mode (base i)) run)) (tasks_of t).

Definition failedOnly : TaskResult :=
  {| state := state_fail; errors := [processError (newError onlyErrorMessage)] |}.

(** A regular expression made of literal characters matches the subjects
    that contain it. *)
Fixpoint includes (needle subject : string) {struct subject} : bool :=
  String.prefix needle subject ||
  match subject with
  | EmptyString => false
  | String _ rest => includes needle rest
  end.

Definition literalRegExp (text : string) : RegExp := includes text.

(** The id that the specification gives the task at path [p] under a root
    with id [rootId]: one [_index] per level. *)
Definition pathId (rootId : string) (p : list nat) : string :=
  fold_left (fun parentId idx => parentId +:+ "_" +:+ indexToString idx) p rootId.

Definition leafType_eqb (a b : LeafType) : bool :=
  match a, b with
  | test, test | custom, custom => true
  | _, _ => false
  end.

(** Two trees of the same structure: the same types of task in the same
    sibling order at every level, whatever the fields hold. *)
Fixpoint sameStructure (t1 t2 : Task) {struct t1} : bool :=
  match t1, t2 with
  | Leaf ty1 _, Leaf ty2 _ => leafType_eqb ty1 ty2
  | SuiteTask _ ts1, SuiteTask _ ts2 =>
      (fix children (l1 l2 : list Task) {struct l1} : bool :=
         match l1, l2 with
         | [], [] => true
         | c1 :: r1, c2 :: r2 => sameStructure c1 c2 && children r1 r2
         | _, _ => false
         end) ts1 ts2
  | _, _ => false
  end.

(** The children [ts] with those at positions [i] and [j] exchanged. *)
Definition swapSiblings (i j : nat) (ts : list Task) : list Task :=
  match ts !! i, ts !! j with
  | Some a, Some b => <[i := b]> (<[j := a]> ts)
  | _, _ => ts
  end.

(** ** packages/runner/src/collect.ts *)

Section Collect.

(** [World] is everything outside the File being built that collection
    reads or writes: the ambient collector context, the registered
    hooks, the module registry, the clock. [Hook] is a hook function. *)
Context {World Hook : Type}.

(** A call that may change the world and either throws or returns. *)
Definition Effect (A : Type) : Type := World -> World * (Thrown + A).

Record SuiteHooks : Type := mkHooks {
  beforeAll : list Hook;
  afterAll : list Hook;
  beforeEach : list Hook;
  afterEach : list Hook
}.

Definition createSuiteHooks : SuiteHooks := mkHooks [] [] [] [].

Definition mergeHooks (baseHooks hooks : SuiteHooks) : SuiteHooks :=
  mkHooks (beforeAll baseHooks ++ beforeAll hooks)
          (afterAll baseHooks ++ afterAll hooks)
          (beforeEach baseHooks ++ beforeEach hooks)
          (afterEach baseHooks ++ afterEach hooks).

(** A File is a suite (fields [file_base], [file_tasks]) with the
    fields of its own. *)
Record File : Type := mkFile {
  file_base : TaskBase;
  file_tasks : list Task;
  filepath : string;
  projectName : option string;
  pool : option string;
  setupDuration : option Z;
  collectDuration : option Z
}.

Definition fileSuite (f : File) : Task := SuiteTask (file_base f) (file_tasks f).

(** A function on suites applied to the File object. *)
Definition onSuite (g : Task -> Task) (f : File) : File :=
  let s := g (fileSuite f) in
  mkFile (base s) (tasks_of s) (filepath f) (projectName f) (pool f)
         (setupDuration f) (collectDuration f).

Definition pushTask (t : Task) (f : File) : File :=
  mkFile (file_base f) (file_tasks f ++ [t]) (filepath f) (projectName f) (pool f)
         (setupDuration f) (collectDuration f).

Definition setFileResult (r : option TaskResult) (f : File) : File :=
  mkFile (set_result r (file_base f)) (file_tasks f) (filepath f) (projectName f)
         (pool f) (setupDuration f) (collectDuration f).

Definition setSetupDuration (d : Z) (f : File) : File :=
  mkFile (file_base f) (file_tasks f) (filepath f) (projectName f) (pool f)
         (Some d) (collectDuration f).

Definition setCollectDuration (d : Z) (f : File) : File :=
  mkFile (file_base f) (file_tasks f) (filepath f) (projectName f) (pool f)
         (setupDuration f) (Some d).

(** What [collect(file)] of a suite collector resolves to: a suite,
    and the hooks that [getHooks] finds registered on it. *)
Record Collected : Type := mkCollected {
  collected_base : TaskBase;
  collected_tasks : list Task;
  collected_hooks : SuiteHooks
}.

(** An entry of [collectorContext.tasks]: a task, or a collector still
    to be resolved. *)
Inductive Registered : Type :=
| RegTask (t : Task)
| RegCollector (collect : File -> Effect Collected).

Record Config : Type := mkConfig {
  root : string;
  config_name : option string;
  setupFiles : list string;
  testNamePattern : option NamePattern;
  allowOnly : bool
}.

Record VitestRunner : Type := mkRunner {
  config : Config;
  runner_pool : option string;
  importFile : string -> Effect unit;
  onCollectStart : option (File -> Effect unit)
}.

(** The imports of collect.ts that are not in the sources at hand:
    [relative] (pathe), [Date.now], [clearCollectorContext],
    [getDefaultSuite().collect], [collectorContext.tasks] (suite.ts,
    context.ts), [runSetupFiles] (setup.ts), [setHooks] (map.ts). *)
Class Collaborators : Type := {
  relative : string -> string -> string;
  now : World -> Z;
  clearCollectorContext : string -> VitestRunner -> World -> World;
  runSetupFiles : Config -> list string -> VitestRunner -> Effect unit;
  defaultSuiteCollect : File -> Effect Collected;
  contextTasks : World -> list Registered;
  setHooks : File -> SuiteHooks -> World -> World
}.

Context `{!Collaborators}.

(** [createFileTask(filepath, root, projectName, pool)]. *)
Definition createFileTask (path_ root_ : string) (project : option string)
    (pool_ : option string) : File :=
  let path := relative root_ path_ in
  {| file_base :=
       {| task_id := generateHash (path +:+ default "" project);
          name := path; mode := run; result := None |};
     file_tasks := [];
     filepath := path_;
     projectName := project;
     pool := pool_;
     setupDuration := None;
     collectDuration := None |}.

(** The statements of the [try] block run on the File being built and
    the world; a throw leaves both as they are at that point. *)
Definition Collecting (A : Type) : Type := File -> World -> (File * World) * (Thrown + A).

Definition collecting_ret {A} (a : A) : Collecting A := fun f w => ((f, w), inr a).

Definition collecting_bind {A B} (c : Collecting A) (k : A -> Collecting B) : Collecting B :=
  fun f w =>
    match c f w with
    | (fw, inl e) => (fw, inl e)
    | ((f', w'), inr a) => k a f' w'
    end.

Definition perform {A} (e : Effect A) : Collecting A :=
  fun f w => let '(w', r) := e w in ((f, w'), r).
Definition theFile : Collecting File := fun f w => ((f, w), inr f).
Definition modifyFile (g : File -> File) : Collecting unit := fun f w => ((g f, w), inr tt).
Definition readWorld {A} (g : World -> A) : Collecting A := fun f w => ((f, w), inr (g w)).
Definition updateWorld (g : World -> World) : Collecting unit := fun f w => ((f, g w), inr tt).

Notation "x <~ c ; k" := (collecting_bind c (fun x => k))
  (at level 20, c at level 100, k at level 200, only parsing).
Notation "c ;; k" := (collecting_bind c (fun _ => k))
  (at level 100, k at level 200, right associativity, only parsing).

(** Lines 58-73: the loop over [[...defaultTasks.tasks, ...collectorContext.tasks]]. *)
Fixpoint pushCollected (items : list Registered) (fileHooks : SuiteHooks)
    : Collecting SuiteHooks :=
  match items with
  | [] => collecting_ret fileHooks
  | RegTask c :: rest =>
      modifyFile (pushTask c) ;; pushCollected rest fileHooks
  | RegCollector collect :: rest =>
      file <~ theFile ;
      suite <~ perform (collect file) ;
      if negb (String.eqb (name (collected_base suite)) "")
         || negb (Nat.eqb (length (collected_tasks suite)) 0)
      then
        modifyFile (pushTask (SuiteTask (collected_base suite) (collected_tasks suite))) ;;
        pushCollected rest (mergeHooks fileHooks (collected_hooks suite))
      else pushCollected rest fileHooks
  end.

(** Lines 38-76: the body of the [try] block. *)
Definition collectBody (runner : VitestRunner) (path_ : string) : Collecting unit :=
  let setupFiles_ := setupFiles (config runner) in
  (if negb (Nat.eqb (length setupFiles_) 0) then
     setupStart <~ readWorld now ;
     perform (runSetupFiles (config runner) setupFiles_ runner) ;;
     setupEnd <~ readWorld now ;
     modifyFile (setSetupDuration (setupEnd - setupStart))
   else modifyFile (setSetupDuration 0)) ;;
  collectStart <~ readWorld now ;
  perform (importFile runner path_) ;;
  file <~ theFile ;
  defaultTasks <~ perform (defaultSuiteCollect file) ;
  let fileHooks := mergeHooks createSuiteHooks (collected_hooks defaultTasks) in
  registered <~ readWorld contextTasks ;
  fileHooks <~ pushCollected (map RegTask (collected_tasks defaultTasks) ++ registered) fileHooks ;
  file <~ theFile ;
  updateWorld (setHooks file fileHooks) ;;
  collectEnd <~ readWorld now ;
  modifyFile (setCollectDuration (collectEnd - collectStart)).

(** Lines 78-84: the [catch] block. *)
Definition recordFailure (e : Thrown) (f : File) : File :=
  setFileResult (Some {| state := state_fail; errors := [processError e] |}) f.

(** Lines 86-104, after the [try] statement. Lines 88-94 delete a
    top-level task's [suite] when it is the default suite: the [suite]
    chain of the top-level tasks is empty. *)
Definition finishFile (cfg : Config) (f : File) : File :=
  let f := onSuite calculateSuiteHash f in
  let hasOnlyTasks := someTasksAreOnly (file_tasks f) in
  onSuite (interpretTaskModes (testNamePattern cfg) hasOnlyTasks (allowOnly cfg) false []) f.

(** One round of the loop over [paths], lines 31-106. [onCollectStart]
    and [clearCollectorContext] run outside the [try] statement. *)
Definition collectFile (runner : VitestRunner) (path_ : string) : Effect File :=
  fun w =>
    let cfg := config runner in
    let file := createFileTask path_ (root cfg) (config_name cfg) (runner_pool runner) in
    let '(w, started) :=
      match onCollectStart runner with
      | Some hook => hook file w
      | None => (w, inr tt)
      end in
    match started with
    | inl e => (w, inl e)
    | inr _ =>
        let w := clearCollectorContext path_ runner w in
        let '((file, w), outcome) := collectBody runner path_ file w in
        let file :=
          match outcome with
          | inl e => recordFailure e file
          | inr _ => file
          end in
        (w, inr (finishFile cfg file))
    end.

Fixpoint collectLoop (runner : VitestRunner) (paths : list string) (files : list File)
    : Effect (list File) :=
  fun w =>
    match paths with
    | [] => (w, inr files)
    | path_ :: rest =>
        match collectFile runner path_ w with
        | (w', inl e) => (w', inl e)
        | (w', inr file) => collectLoop runner rest (files ++ [file]) w'
        end
    end.

(** [collectTests(paths, runner)]. *)
Definition collectTests (paths : list string) (runner : VitestRunner) : Effect (list File) :=
  collectLoop runner paths [].

(** What the statements of the [try] block leave alone: the suite fields
    of the File (id, name, mode, result) and its path. *)
Definition sameHeader (f f' : File) : Prop :=
  file_base f' = file_base f /\ filepath f' = filepath f.

Definition keepsHeader {A : Type} (c : Collecting A) : Prop :=
  forall f w f' w' r, c f w = ((f', w'), r) -> sameHeader f f'.

(** One round of the loop, for a runner whose [onCollectStart] hook
    returns. *)
Definition hookReturns (runner : VitestRunner) : Prop :=
  forall hook file w, onCollectStart runner = Some hook ->
    exists w', hook file w = (w', inr tt).

(** *** One round, told by the calls that it makes

    The [try] statement calls the runner and the collaborators one after
    the other, each in the world that the call before it left: the setup
    files, the import of the file, the default suite, and the collectors
    that the import registered. *)

(** Line 31: the File that the round for [path_] creates. *)
Definition newFile (runner : VitestRunner) (path_ : string) : File :=
  createFileTask path_ (root (config runner)) (config_name (config runner))
    (runner_pool runner).

(** Lines 33-35: the world in which the [try] statement begins, when the
    round begins in world [w] and the [onCollectStart] hook returns. *)
Definition tryWorld (runner : VitestRunner) (path_ : string) (w : World) : World :=
  clearCollectorContext path_ runner
    match onCollectStart runner with
    | Some hook => (hook (newFile runner path_) w).1
    | None => w
    end.

(** The File of the round while it is built: the setup duration [d] is
    recorded and the tasks [ts] are pushed. *)
Definition underConstruction (runner : VitestRunner) (path_ : string) (d : Z)
    (ts : list Task) : File :=
  let f0 := newFile runner path_ in
  mkFile (file_base f0) ts (filepath f0) (projectName f0) (pool f0) (Some d) None.

(** Lines 38-47 when nothing is thrown: begun in world [w], the setup
    files leave world [w'] and the duration [d]. *)
Definition setupReturns (runner : VitestRunner) (w w' : World) (d : Z) : Prop :=
  let cfg := config runner in
  if Nat.eqb (length (setupFiles cfg)) 0 then w' = w /\ d = 0%Z
  else runSetupFiles cfg (setupFiles cfg) runner w = (w', inr tt)
       /\ d = (now w' - now w)%Z.

(** [suite.name || suite.tasks.length], line 64. *)
Definition namedOrFilled (suite : Collected) : bool :=
  negb (String.eqb (name (collected_base suite)) "")
  || negb (Nat.eqb (length (collected_tasks suite)) 0).

(** The loop of lines 58-73 over the registered entries. With the tasks
    [ts] pushed so far and in world [w], the entries leave the tasks
    [ts'] pushed and the world [w']; [thrown] is what a collector threw,
    which ends the loop. A task is pushed; a collector is called on the
    File as it stands, and the suite that it resolves to is pushed when
    it has a name or a task. *)
Inductive resolves (runner : VitestRunner) (path_ : string) (d : Z)
    : list Registered -> list Task -> World -> list Task -> World -> option Thrown -> Prop :=
| resolves_done ts w :
    resolves runner path_ d [] ts w ts w None
| resolves_task c rest ts w ts' w' thrown :
    resolves runner path_ d rest (ts ++ [c]) w ts' w' thrown ->
    resolves runner path_ d (RegTask c :: rest) ts w ts' w' thrown
| resolves_throw collect rest ts w w1 e :
    collect (underConstruction runner path_ d ts) w = (w1, inl e) ->
    resolves runner path_ d (RegCollector collect :: rest) ts w ts w1 (Some e)
| resolves_suite collect rest ts w w1 suite ts' w' thrown :
    collect (underConstruction runner path_ d ts) w = (w1, inr suite) ->
    resolves runner path_ d rest
      (ts ++ if namedOrFilled suite
             then [SuiteTask (collected_base suite) (collected_tasks suite)]
             else [])
      w1 ts' w' thrown ->
    resolves runner path_ d (RegCollector collect :: rest) ts w ts' w' thrown.

(** How the [try] statement of the round for [path_], begun in world
    [w0], ends: [ts] are the tasks that it pushed to the File, and
    [thrown] is the value that was thrown, if one was: by the setup files,
    by the import of the file, by the default suite, or by a registered
    collector. *)
Inductive tryEnds (runner : VitestRunner) (path_ : string) (w0 : World)
    : list Task -> option Thrown -> Prop :=
| setup_failure w1 e :
    setupFiles (config runner) <> [] ->
    runSetupFiles (config runner) (setupFiles (config runner)) runner w0 = (w1, inl e) ->
    tryEnds runner path_ w0 [] (Some e)
| import_error w1 d w2 e :
    setupReturns runner w0 w1 d ->
    importFile runner path_ w1 = (w2, inl e) ->
    tryEnds runner path_ w0 [] (Some e)
| default_suite_throws w1 d w2 w3 e :
    setupReturns runner w0 w1 d ->
    importFile runner path_ w1 = (w2, inr tt) ->
    defaultSuiteCollect (underConstruction runner path_ d []) w2 = (w3, inl e) ->
    tryEnds runner path_ w0 [] (Some e)
| registered_resolved w1 d w2 w3 defaultTasks ts w4 thrown :
    setupReturns runner w0 w1 d ->
    importFile runner path_ w1 = (w2, inr tt) ->
    defaultSuiteCollect (underConstruction runner path_ d []) w2 = (w3, inr defaultTasks) ->
    resolves runner path_ d
      (map RegTask (collected_tasks defaultTasks) ++ contextTasks w3) [] w3 ts w4 thrown ->
    tryEnds runner path_ w0 ts thrown.

(** Lines 79-83: the result that the [catch] block attaches for a thrown
    value. *)
Definition failureOf (e : Thrown) : TaskResult :=
  {| state := state_fail; errors := [processError e] |}.

End Collect.

End Runner.

(** ** packages/vitest/src/node/core.ts *)

(** A node of the dev server's module graph. Of a module the walk reads the
    set of its importers, and of an importer only its [file], which is
    absent on virtual modules. *)
Record ModuleNode : Type := mkModule {
  importers : list (option string)
}.

(** A workspace project: [modules] is its module graph indexed by file,
    read by [getModulesByFilepath]; [isTestFile] is its classification of
    test files. *)
Record WorkspaceProject : Type := mkProject {
  modules : gmap string (list ModuleNode);
  isTestFile : string -> bool
}.

Definition getModulesByFilepath (project : WorkspaceProject) (file : string) : list ModuleNode :=
  default [] (modules project !! file).

(** The armed rerun timer: the closure of the callback holds the restart
    count read by [scheduleRerun] and its [triggerId] argument. *)
Record RerunTimer : Type := mkTimer {
  currentCount : nat;
  triggerId : list string
}.

(** The fields of the Vitest instance that the watch-mode functions read
    or write. [filesMap] is the key set of [state.filesMap]. [walked] is a
    ghost field that no function reads: the paths whose importers
    [handleFileChanged] set out to visit, latest first. *)
Record Vitest : Type := mkVitest {
  projects : list WorkspaceProject;
  config_root : string;
  forceRerunTriggers : list string;
  filenamePattern : option string;
  filesMap : gset string;
  invalidates : gset string;
  changedTests : gset string;
  watchedTests : gset string;
  restartsCount : nat;
  isFirstRun : bool;
  rerunTimer : option RerunTimer;
  snapshotClears : nat;
  walked : list string
}.

Definition setInvalidates (s : gset string) (v : Vitest) : Vitest :=
  mkVitest (projects v) (config_root v) (forceRerunTriggers v) (filenamePattern v)
    (filesMap v) s (changedTests v) (watchedTests v) (restartsCount v) (isFirstRun v)
    (rerunTimer v) (snapshotClears v) (walked v).

Definition setChangedTests (s : gset string) (v : Vitest) : Vitest :=
  mkVitest (projects v) (config_root v) (forceRerunTriggers v) (filenamePattern v)
    (filesMap v) (invalidates v) s (watchedTests v) (restartsCount v) (isFirstRun v)
    (rerunTimer v) (snapshotClears v) (walked v).

Definition setWatchedTests (s : gset string) (v : Vitest) : Vitest :=
  mkVitest (projects v) (config_root v) (forceRerunTriggers v) (filenamePattern v)
    (filesMap v) (invalidates v) (changedTests v) s (restartsCount v) (isFirstRun v)
    (rerunTimer v) (snapshotClears v) (walked v).

Definition setIsFirstRun (b : bool) (v : Vitest) : Vitest :=
  mkVitest (projects v) (config_root v) (forceRerunTriggers v) (filenamePattern v)
    (filesMap v) (invalidates v) (changedTests v) (watchedTests v) (restartsCount v) b
    (rerunTimer v) (snapshotClears v) (walked v).

Definition setRerunTimer (t : option RerunTimer) (v : Vitest) : Vitest :=
  mkVitest (projects v) (config_root v) (forceRerunTriggers v) (filenamePattern v)
    (filesMap v) (invalidates v) (changedTests v) (watchedTests v) (restartsCount v)
    (isFirstRun v) t (snapshotClears v) (walked v).

Definition clearSnapshot (v : Vitest) : Vitest :=
  mkVitest (projects v) (config_root v) (forceRerunTriggers v) (filenamePattern v)
    (filesMap v) (invalidates v) (changedTests v) (watchedTests v) (restartsCount v)
    (isFirstRun v) (rerunTimer v) (S (snapshotClears v)) (walked v).

Definition noteWalked (file : string) (v : Vitest) : Vitest :=
  mkVitest (projects v) (config_root v) (forceRerunTriggers v) (filenamePattern v)
    (filesMap v) (invalidates v) (changedTests v) (watchedTests v) (restartsCount v)
    (isFirstRun v) (rerunTimer v) (snapshotClears v) (file :: walked v).

(** The imports of core.ts that are not in the sources at hand: [slash]
    (utils), [relative] (pathe), [mm.isMatch] (micromatch), and the file
    components of what [globTestFiles] resolves to. *)
Class NodeHost : Type := {
  slash : string -> string;
  pathRelative : string -> string -> string;
  isMatch : string -> list string -> bool;
  globTestFiles : list string -> list string
}.

Section Core.

Context `{!NodeHost}.

(** A string that may be absent, read as a condition: [undefined] and
    the empty string are falsy. *)
Definition truthy (s : option string) : option string :=
  match s with
  | Some "" => None
  | _ => s
  end.

(** [Array.from(new Set(array))]: a Set keeps each value once, in the
    order in which the values were first added. *)
Definition arrayFromSet (l : list string) : list string :=
  fold_left (fun seen x => if bool_decide (x ∈ seen) then seen else seen ++ [x]) l [].

(** [getModuleProjects(filepath)]. *)
Definition getModuleProjects (v : Vitest) (file : string) : list WorkspaceProject :=
  filter (fun project => length (getModulesByFilepath project file) <> 0) (projects v).

(** A loop whose body may fail to return threads its state through
    [option]. *)
Fixpoint forEachM {S A : Type} (body : S -> A -> option S) (s : S) (l : list A) : option S :=
  match l with
  | [] => Some s
  | x :: rest =>
      match body s x with
      | None => None
      | Some s' => forEachM body s' rest
      end
  end.

Section Walk.
(** The recursive call [this.handleFileChanged(i.file)]. *)
Variable recur : Vitest -> string -> option (Vitest * list string).

(** Lines 968-977, the callback of [mod.importers.forEach]: the state
    is the instance and the local [rerun]. A null, undefined or empty
    [file] is falsy. *)
Definition visitImporter (s : Vitest * bool) (i : option string) : option (Vitest * bool) :=
  let '(v, rerun) := s in
  match i with
  | None => Some (v, rerun)
  | Some "" => Some (v, rerun)
  | Some file =>
      match recur v file with
      | None => None
      | Some (v', heedsRerun) =>
          Some (v', if Nat.eqb (length heedsRerun) 0 then rerun else true)
      end
  end.

(** Lines 967-978: [for (const mod of mods)]. *)
Definition visitModule (s : Vitest * bool) (mod_ : ModuleNode) : option (Vitest * bool) :=
  forEachM visitImporter s (importers mod_).

(** Lines 951-983: the body of [for (const project of projects)]; the
    state is the instance and the local [files]. *)
Definition visitProject (file : string) (s : Vitest * list string)
    (project : WorkspaceProject) : option (Vitest * list string) :=
  let '(v, files) := s in
  let mods := getModulesByFilepath project file in
  if Nat.eqb (length mods) 0 then Some (v, files)
  else
    let v := setInvalidates ({[file]} ∪ invalidates v) v in
    if bool_decide (file ∈ filesMap v) || isTestFile project file then
      Some (setChangedTests ({[file]} ∪ changedTests v) v, files ++ [file])
    else
      match forEachM visitModule (v, false) mods with
      | None => None
      | Some (v', rerun) => Some (v', if rerun then files ++ [file] else files)
      end.
End Walk.

(** [handleFileChanged(filepath)]. The recursion follows the importer
    graph, which may have cycles: [fuel] bounds the depth of the calls,
    and [None] says that it ran out. *)
Fixpoint handleFileChanged (fuel : nat) (v : Vitest) (file : string)
    : option (Vitest * list string) :=
  match fuel with
  | O => None
  | S fuel' =>
      if bool_decide (file ∈ changedTests v) || bool_decide (file ∈ invalidates v) then
        Some (v, [])
      else if isMatch file (forceRerunTriggers v) then
        Some (setChangedTests (filesMap v ∪ changedTests v) v, [file])
      else
        let projects_ := getModuleProjects v file in
        if Nat.eqb (length projects_) 0 then
          if bool_decide (file ∈ filesMap v)
             || existsb (fun project => isTestFile project file) (projects v)
          then Some (setChangedTests ({[file]} ∪ changedTests v) v, [file])
          else Some (v, [])
        else
          match forEachM (visitProject (handleFileChanged fuel') file)
                  (noteWalked file v, []) projects_ with
          | None => None
          | Some (v', files) => Some (v', arrayFromSet files)
          end
  end.

(** The files that have modules in the graph of some project: on a path
    outside this set the walk visits no importer. *)
Definition graphFiles (v : Vitest) : gset string :=
  ⋃ (map (fun project => dom (modules project)) (projects v)).

(** Fuel that is enough for a call in state [v]: one more than the number
    of graph files not yet invalidated. *)
Definition enoughFuel (v : Vitest) : nat :=
  S (size (graphFiles v ∖ invalidates v)).

(** The ghost record of the walk is in order: no path occurs twice in it,
    and every path in it has been invalidated. *)
Definition walkedOnce (v : Vitest) : Prop :=
  NoDup (walked v) /\ forall x, x ∈ walked v -> x ∈ invalidates v.

(** One state of the instance comes after another in a walk: the graph
    and the known files are the same, the two pending sets have grown. *)
Definition grows (v v' : Vitest) : Prop :=
  projects v' = projects v
  /\ filesMap v' = filesMap v
  /\ forceRerunTriggers v' = forceRerunTriggers v
  /\ invalidates v ⊆ invalidates v'
  /\ changedTests v ⊆ changedTests v'.

(** A state in which the walk from [file0], begun in state [v0], calls
    itself: [file0] has been invalidated. *)
Definition readyFor (v0 : Vitest) (file0 : string) (v : Vitest) : Prop :=
  grows v0 v /\ file0 ∈ invalidates v.

(** The recursion [recur], refused in every state in which [file0] has not
    been invalidated. *)
Definition whenInvalidated (file0 : string)
    (recur : Vitest -> string -> option (Vitest * list string))
    : Vitest -> string -> option (Vitest * list string) :=
  fun v file => if bool_decide (file0 ∈ invalidates v) then recur v file else None.

(** The instance without its ghost record. *)
Definition forgetWalked (v : Vitest) : Vitest :=
  mkVitest (projects v) (config_root v) (forceRerunTriggers v) (filenamePattern v)
    (filesMap v) (invalidates v) (changedTests v) (watchedTests v) (restartsCount v)
    (isFirstRun v) (rerunTimer v) (snapshotClears v) [].

(** Two instances that differ in the ghost record at most. *)
Definition sameButWalked (v1 v2 : Vitest) : Prop := forgetWalked v1 = forgetWalked v2.

(** [watchTests(tests)]. *)
Definition watchTests (tests : list string) (v : Vitest) : Vitest :=
  setWatchedTests (list_to_set (map slash tests)) v.

(** What the timer callback hands to the reporters and to [runFiles]. *)
Record Rerun : Type := mkRerun {
  rerun_files : list string;
  triggerLabel : string
}.

Definition joinWith (sep : string) (l : list string) : string :=
  match l with
  | [] => ""
  | x :: rest => fold_left (fun acc y => acc +:+ sep +:+ y) rest x
  end.

(** Lines 783-827: the callback that [scheduleRerun] hands to
    [setTimeout], run when the timer fires; [timer] holds what the
    closure captured. The result is the instance and the rerun that the
    callback starts, if it starts one. [Array.from(this.changedTests)] is
    [elements]: the order of the files is not modelled. The test of
    [this.filenamePattern] at line 808 is one of truthiness, and the
    trigger ids go through a Set, which keeps the first occurrence of
    each. *)
Definition rerunTimerFired (timer : RerunTimer) (v : Vitest) : Vitest * option Rerun :=
  let v :=
    if Nat.eqb (size (watchedTests v)) 0 then v
    else setChangedTests (filter (fun test => test ∈ watchedTests v) (changedTests v)) v in
  if Nat.eqb (size (changedTests v)) 0 then (setInvalidates ∅ v, None)
  else if negb (Nat.eqb (restartsCount v) (currentCount timer)) then (v, None)
  else
    let v := clearSnapshot (setIsFirstRun false v) in
    let files := elements (changedTests v) in
    let filtered :=
      match truthy (filenamePattern v) with
      | Some pattern =>
          let filteredFiles := globTestFiles [pattern] in
          Some (filter (fun file => file ∈ filteredFiles) files)
      | None => None
      end in
    match filtered with
    | Some [] => (v, None)
    | _ =>
        let files := default files filtered in
        let v := setChangedTests ∅ v in
        let triggerIds := arrayFromSet (map (pathRelative (config_root v)) (triggerId timer)) in
        (v, Some {| rerun_files := files; triggerLabel := joinWith ", " triggerIds |})
    end.

(** [scheduleRerun(triggerId)] up to its [await]: the restart count is
    read and the pending timer cleared. *)
Definition scheduleRerunBegin (v : Vitest) : Vitest * nat :=
  (setRerunTimer None v, restartsCount v).

(** [scheduleRerun(triggerId)] from its [await] on, lines 776-827: the
    timer is cleared again and, unless the server restarted meanwhile,
    armed with the callback. *)
Definition scheduleRerunResume (count : nat) (trigger : list string) (v : Vitest) : Vitest :=
  let v := setRerunTimer None v in
  if negb (Nat.eqb (restartsCount v) count) then v
  else setRerunTimer (Some {| currentCount := count; triggerId := trigger |}) v.

End Core.

(** ** Worked examples

    Concrete trees and a concrete host, on which the definitions above are
    evaluated. *)
Module Examples.

(** Errors are their messages; a string pattern is taken literally. *)
#[export] Instance exampleHost : Host string string := {|
  newError := fun msg => msg;
  processError := fun e => e;
  compileRegExp := literalRegExp
|}.

Definition aTest {E : Type} (nm : string) (m : RunMode) : @Task E :=
  Leaf test (mkBase "" nm m None).

Definition aSuite {E : Type} (nm : string) (m : RunMode) (ts : list (@Task E)) : @Task E :=
  SuiteTask (mkBase "" nm m None) ts.

(** The scenario of the specification: S1 holds t1 and an 'only' test
    t2, S2 holds t3. *)
Definition scenario {E : Type} : @Task E :=
  aSuite "root" run
    [ aSuite "S1" run [aTest "t1" run; aTest "t2" only];
      aSuite "S2" run [aTest "t3" run] ].

(** A skipped suite that holds a 'todo' test. *)
Definition skippedWithTodo {E : Type} : @Task E :=
  aSuite "root" run [ aSuite "A" skip [aTest "x" todo]; aTest "y" run ].

(** A single 'only' test. *)
Definition loneOnly {E : Type} : @Task E :=
  aSuite "root" run [ aTest "t" only ].

(** A suite marked 'only' that holds nothing but a skipped test. *)
Definition onlySuiteOfSkipped {E : Type} : @Task E :=
  aSuite "root" run [ aSuite "S" only [aTest "x" skip] ].

(** Suite A holding test B. *)
Definition suiteAB {E : Type} : @Task E :=
  aSuite "root" run [ aSuite "A" run [aTest "B" run] ].

(** A skipped suite that holds a skipped suite with a test in mode 'run'. *)
Definition skippedNest {E : Type} : @Task E :=
  aSuite "root" run
    [ aSuite "A" skip [ aSuite "B" skip [aTest "t" run] ]; aTest "o" only ].

(** A suite in mode 'run' without any 'only' task, which holds a 'todo'
    suite with a test in mode 'run'; an 'only' test beside it. *)
Definition todoNest {E : Type} : @Task E :=
  aSuite "root" run
    [ aSuite "A" run [ aSuite "B" todo [aTest "t" run] ]; aTest "o" only ].

(** A skipped suite that holds a test in mode 'run'; an 'only' test
    beside it. *)
Definition skippedFirst {E : Type} : @Task E :=
  aSuite "root" run [ aSuite "A" skip [aTest "t" run]; aTest "o" only ].

(** A collection in which importing "bad.test.ts" throws and
    "good.test.ts" registers one test. The world holds nothing. *)
#[export] Instance exampleCollaborators : @Collaborators string string unit unit := {|
  relative := fun _ path_ => path_;
  now := fun _ => 0%Z;
  clearCollectorContext := fun _ _ w => w;
  runSetupFiles := fun _ _ _ w => (w, inr tt);
  defaultSuiteCollect := fun file w =>
    (w, inr {| collected_base := mkBase "" "" run None;
               collected_tasks :=
                 if String.eqb (filepath file) "good.test.ts"
                 then [aTest "works" run] else [];
               collected_hooks := createSuiteHooks |});
  contextTasks := fun _ => [];
  setHooks := fun _ _ w => w
|}.

Definition exampleRunner : @VitestRunner string string unit := {|
  config := {| root := "/"; config_name := None; setupFiles := [];
               testNamePattern := None; allowOnly := true |};
  runner_pool := None;
  importFile := fun path_ w =>
    if String.eqb path_ "bad.test.ts" then (w, inl "boom") else (w, inr tt);
  onCollectStart := None
|}.

#[export] Instance exampleNodeHost : NodeHost := {|
  slash := fun path_ => path_;
  pathRelative := fun _ path_ => path_;
  isMatch := fun _ _ => false;
  globTestFiles := fun _ => []
|}.

(** A project whose graph has an import cycle: a.ts and b.ts import each
    other, a.test.ts imports b.ts, and a.ts is also imported by a virtual
    module without a file. *)
Definition cyclicProject : WorkspaceProject := {|
  modules :=
    {[ "a.ts" := [mkModule [Some "b.ts"; None]];
       "b.ts" := [mkModule [Some "a.ts"; Some "a.test.ts"]];
       "a.test.ts" := [mkModule []] ]};
  isTestFile := fun file => String.eqb file "a.test.ts"
|}.

Definition idleVitest : Vitest := {|
  projects := [cyclicProject];
  config_root := "/";
  forceRerunTriggers := [];
  filenamePattern := None;
  filesMap := ∅;
  invalidates := ∅;
  changedTests := ∅;
  watchedTests := ∅;
  restartsCount := 0;
  isFirstRun := false;
  rerunTimer := None;
  snapshotClears := 0;
  walked := []
|}.

(** Only a.test.ts is watched; b.test.ts changed, and two modules are
    pending invalidation. *)
Definition restrictedVitest : Vitest :=
  setInvalidates {[ "b.test.ts"; "util.ts" ]}
    (setChangedTests {[ "b.test.ts" ]}
       (watchTests ["a.test.ts"] idleVitest)).

(** Only a.test.ts is watched; a.test.ts and b.test.ts changed. *)
Definition overlappingVitest : Vitest :=
  setChangedTests {[ "a.test.ts"; "b.test.ts" ]} (watchTests ["a.test.ts"] idleVitest).

End Examples.

(** ** More about positions *)

Section RunnerMore.
Context {TestError : Type}.

(** The name and the result of the task at a position. *)
Definition nameAt (p : list nat) (t : @Task TestError) : option string :=
  (fun c => name (base c)) <$> taskAt p t.

Definition resultAt (p : list nat) (t : @Task TestError) : option (option TaskResult) :=
  (fun c => result (base c)) <$> taskAt p t.

End RunnerMore.

(** ** What the statements of the [try] block leave behind *)

Section CollectMore.
Context {Thrown TestError World : Type}.

(** A statement of the [try] block, begun on a File of which [P] holds:
    when it returns [a] it leaves a File of which [Q a] holds, and when it
    throws, one of which [E] holds. *)
Definition leaves {A : Type} (P : @File TestError -> Prop)
    (c : @Collecting Thrown TestError World A)
    (Q : A -> @File TestError -> Prop) (E : @File TestError -> Prop) : Prop :=
  forall f w f' w' r, c f w = ((f', w'), r) -> P f ->
    match r with inl _ => E f' | inr a => Q a f' end.

End CollectMore.

(** ** More of packages/vitest/src/node/core.ts *)

(** The instance after [state.filesMap] has got the key set [s]. *)
Definition setFilesMap (s : gset string) (v : Vitest) : Vitest :=
  mkVitest (projects v) (config_root v) (forceRerunTriggers v) (filenamePattern v)
    s (invalidates v) (changedTests v) (watchedTests v) (restartsCount v) (isFirstRun v)
    (rerunTimer v) (snapshotClears v) (walked v).

Section CoreMore.
Context `{!NodeHost}.

(** What a call of [handleFileChanged] in state [v] may have made of the
    instance: nothing but the two pending sets (and the ghost record) is
    written; the invalidated set has gained files of the module graphs
    only, the changed-tests set known test files and files that some
    project classifies as test files only. *)
Definition resolvedFrom (v v' : Vitest) : Prop :=
  setInvalidates (invalidates v) (setChangedTests (changedTests v) (forgetWalked v'))
  = forgetWalked v
  /\ invalidates v ⊆ invalidates v'
  /\ invalidates v' ⊆ invalidates v ∪ graphFiles v
  /\ changedTests v ⊆ changedTests v'
  /\ forall x, x ∈ changedTests v' ->
       x ∈ changedTests v \/ x ∈ filesMap v
       \/ existsb (fun project => isTestFile project x) (projects v) = true.

(** The [onChange] callback of [registerWatcher], lines 861-869, up to
    the [await] of the [scheduleRerun] that it calls: the result holds,
    when a rerun is scheduled, the restart count that the call has read
    and the trigger paths. [logger.clearHighlightCache] and
    [updateLastChanged], which invalidates the transform results of the
    dev server's modules, write nothing that the watch-mode functions
    read. *)
Definition onChange (fuel : nat) (id : string) (v : Vitest)
    : option (Vitest * option (nat * list string)) :=
  let id := slash id in
  match handleFileChanged fuel v id with
  | None => None
  | Some (v, needsRerun) =>
      if negb (Nat.eqb (length needsRerun) 0) then
        let '(v, count) := scheduleRerunBegin v in Some (v, Some (count, needsRerun))
      else Some (v, None)
  end.

(** The [onUnlink] callback, lines 870-882. The second component is the
    path that is removed from the result and stats caches and reported
    with 'onTestRemoved', if any. *)
Definition onUnlink (id : string) (v : Vitest) : Vitest * option string :=
  let id := slash id in
  let v := setInvalidates ({[id]} ∪ invalidates v) v in
  if bool_decide (id ∈ filesMap v) then
    let v := setFilesMap (filesMap v ∖ {[id]}) v in
    let v := setChangedTests (changedTests v ∖ {[id]}) v in
    (v, Some id)
  else (v, None).

End CoreMore.

(** *** The importer graph *)

Section Reach.
Context `{!NodeHost}.

(** [g] imports [x], as the walk of [handleFileChanged] sees it: a module
    of [x] in the graph of some project has the importer [g], and the
    walk follows it, which it does when [x] is not a known test file and
    the project does not take it for a test file. *)
Definition importEdge (v : Vitest) (x g : string) : Prop :=
  exists project mod_,
    project ∈ projects v
    /\ mod_ ∈ getModulesByFilepath project x
    /\ (x ∉ filesMap v)
    /\ isTestFile project x = false
    /\ Some g ∈ importers mod_
    /\ g <> "".

(** [test] depends on [file]: a chain of such imports leads from [file]
    to it. *)
Definition importedBy (v : Vitest) : string -> string -> Prop := rtc (importEdge v).

(** A path that the walk has nothing to do with: no project has modules
    for it, and it is no test file. *)
Definition deadEnd (v : Vitest) (g : string) : Prop :=
  getModuleProjects v g = []
  /\ (g ∉ filesMap v)
  /\ existsb (fun project => isTestFile project g) (projects v) = false.

(** The walk is done with [g] in state [s]: [g] is pending, or a dead
    end, or a force-rerun trigger has scheduled every known test. *)
Definition reached (v0 s : Vitest) (g : string) : Prop :=
  g ∈ invalidates s \/ g ∈ changedTests s \/ deadEnd v0 g \/ filesMap v0 ⊆ changedTests s.

(** State [b] comes after state [a] in a walk on the graph of [v0], and
    the walk is complete but for the paths in [open]: every path
    invalidated since [a] has all its importers reached and, if it is a
    known test file, is among the changed tests; and a path scheduled
    since [a] is a known test file, or invalidated, or in no graph. *)
Definition walkedWell (v0 a b : Vitest) (open : gset string) : Prop :=
  grows v0 a /\ grows a b
  /\ (forall x, x ∈ invalidates b -> x ∉ invalidates a -> x ∉ open ->
        (forall g, importEdge v0 x g -> reached v0 b g)
        /\ (x ∈ filesMap v0 -> x ∈ changedTests b))
  /\ (forall x, x ∈ changedTests b -> x ∉ changedTests a ->
        x ∈ filesMap v0 \/ x ∈ invalidates b \/ getModuleProjects v0 x = []).

End Reach.

(** *** The specs of a file *)

Section Specs.
(** Projects are compared as objects: [Project] stands for their
    identities. [Payload] is what else a spec holds. *)
Context {Project Payload : Type} `{!EqDecision Project}.

(** A [WorkspaceSpec]: the tuple [[project, file, { pool }]]. *)
Record WorkspaceSpec : Type := mkSpec {
  spec_project : Project;
  moduleId : string;
  spec_pool : string;
  spec_payload : Payload
}.

(** [specs.some(_s => _s[0] === spec[0] && _s[2].pool === spec[2].pool)]. *)
Definition specIncluded (spec : WorkspaceSpec) (specs : list WorkspaceSpec) : bool :=
  existsb (fun s_ => bool_decide (spec_project s_ = spec_project spec)
                     && String.eqb (spec_pool s_) (spec_pool spec)) specs.

(** [ensureSpecCached(spec)], on the map [_cachedSpecs]. *)
Definition ensureSpecCached (spec : WorkspaceSpec)
    (cachedSpecs : gmap string (list WorkspaceSpec)) : gmap string (list WorkspaceSpec) :=
  let file := moduleId spec in
  let specs := default [] (cachedSpecs !! file) in
  let included := specIncluded spec specs in
  if negb included then <[file := specs ++ [spec]]> cachedSpecs else cachedSpecs.

(** The cache is in order: under a file are specs of that file, at least
    one, and no two of the same project and pool. *)
Definition specsInOrder (cachedSpecs : gmap string (list WorkspaceSpec)) : Prop :=
  forall file specs, cachedSpecs !! file = Some specs ->
    specs <> []
    /\ Forall (fun spec => moduleId spec = file) specs
    /\ NoDup (map (fun spec => (spec_project spec, spec_pool spec)) specs).

(** What [filterTestsBySource] takes from outside: [mm] (micromatch) on a
    list of paths, and the set that [getTestDependencies(spec)] resolves
    to, which is gathered from the modules as the dev server transforms
    them. *)
Class SourceHost : Type := {
  mm : list string -> list string -> list string;
  getTestDependencies : WorkspaceSpec -> gset string
}.

Context `{!SourceHost}.

(** [filterTestsBySource(specs)] from line 489 on: [related] is
    [config.related] as it stands after the lookup of the changed files
    in git, if there was one; [watch] and [forceRerunTriggers_] are the
    fields of the config. *)
Definition filterTestsBySource (related : option (list string)) (watch : bool)
    (forceRerunTriggers_ : list string) (specs : list WorkspaceSpec) : list WorkspaceSpec :=
  match related with
  | None => specs
  | Some related =>
      if negb (Nat.eqb (length forceRerunTriggers_) 0)
         && negb (Nat.eqb (length (mm related forceRerunTriggers_)) 0)
      then specs
      else if negb watch && Nat.eqb (length related) 0 then []
      else
        filter (fun spec =>
                  existsb (fun path_ => String.eqb path_ (moduleId spec)
                                        || bool_decide (path_ ∈ getTestDependencies spec))
                    related = true) specs
  end.

End Specs.

(** ** packages/vitest/src/node/cli/cli-api.ts *)

(** [s.indexOf(c)] for a one-character [c]: the index of its first
    occurrence, [None] for -1. *)
Fixpoint indexOf (c : ascii) (s : string) : option nat :=
  match s with
  | EmptyString => None
  | String a rest => if Ascii.eqb a c then Some 0 else S <$> indexOf c rest
  end.

(** [s.substring(0, stop)] and [s.substring(start)]. *)
Definition substringTo (stop : nat) (s : string) : string := String.substring 0 stop s.
Definition substringFrom (start : nat) (s : string) : string :=
  String.substring start (String.length s - start) s.

(** [\d]. *)
Definition isDigit (c : ascii) : bool :=
  (48 <=? nat_of_ascii c)%nat && (nat_of_ascii c <=? 57)%nat.

(** [s.match(/^\d+$/)], as a truth value. *)
Definition allDigits (s : string) : bool :=
  negb (String.eqb s "") && forallb isDigit (list_ascii_of_string s).

(** The integer that a string of decimal digits denotes. *)
Definition digitsValue (s : string) : N :=
  fold_left (fun acc c => (10 * acc + (N_of_ascii c - 48))%N) (list_ascii_of_string s) 0%N.

(** Numbers are IEEE doubles: [numberValue n] is the Number that
    [Number.parseInt] returns for digits that denote [n]. Up to 2^53 it is
    [n] itself. *)
Class Numbers : Type := {
  numberValue : N -> N;
  numberValue_safe : forall n : N, (n <= 2 ^ 53)%N -> numberValue n = n
}.

(** [interface Filter]: a file name, with a line number or without. *)
Record Filter : Type := mkFilter {
  filename : string;
  lineNumber : option N
}.

Section Cli.
Context {Thrown TestError : Type} `{!Host Thrown TestError} `{!Numbers}.

(** [parseFilter(f)]. *)
Definition parseFilter (f : string) : Thrown + Filter :=
  match indexOf ":" f with
  | None => inr {| filename := f; lineNumber := None |}
  | Some colonIndex =>
      let parsedFilename := substringTo colonIndex f in
      let lineNumber_ := substringFrom (colonIndex + 1) f in
      if allDigits lineNumber_ then
        inr {| filename := parsedFilename;
               lineNumber := Some (numberValue (digitsValue lineNumber_)) |}
      else if includes "-" lineNumber_ then
        inl (newError "Range line numbers are not allowed")
      else inr {| filename := f; lineNumber := None |}
  end.

End Cli.

(** *** The list command *)

Section ListCommand.
Context {TestError Location : Type}.

(** A test as [getTests] and [getNames] of the utils package present it:
    its mode, the names from the File down to the test, and its location
    if locations were collected. *)
Record ListedTest : Type := mkListed {
  listed_mode : RunMode;
  listed_names : list string;
  listed_location : option Location
}.

(** The imports of cli-api.ts that are not in the sources at hand:
    [getTests] with [getNames] (utils), and [resolve] (pathe) with
    [process.cwd()], as applied to [options.root] and [options.json]. *)
Class CliHost : Type := {
  getTests : @File TestError -> list ListedTest;
  resolveJsonPath : option string -> string -> string
}.

Context `{!CliHost}.

(** [options.json] is undefined, a boolean, or the path of a file. *)
Record CliOptions : Type := mkCliOptions {
  cli_root : option string;
  json : option (bool + string)
}.

(** [forEachSuite(tasks, callback)], for a callback that updates a
    state: on one task, and on a list of tasks. *)
Fixpoint forEachSuiteTask {S : Type} (callback : @Task TestError -> S -> S)
    (task : @Task TestError) (s : S) {struct task} : S :=
  match task with
  | Leaf _ _ => s
  | SuiteTask _ ts =>
      fold_left (fun s c => forEachSuiteTask callback c s) ts (callback task s)
  end.

Definition forEachSuite {S : Type} (callback : @Task TestError -> S -> S)
    (tasks : list (@Task TestError)) (s : S) : S :=
  fold_left (fun s c => forEachSuiteTask callback c s) tasks s.

(** A call of [ctx.logger.printError(error, { project })]: the project is
    the one that [getProjectByName] finds for the project name of the
    File. *)
Record PrintedError : Type := mkPrinted {
  printed_error : TestError;
  printed_projectName : option string
}.

(** Lines 171-179: the callback, on the flag [errorsPrinted] and the log
    of the logger. [suite.file] of a suite is the File that holds it:
    the callback is given it beside the suite. *)
Definition printSuiteErrors (file : @File TestError) (suite : @Task TestError)
    (s : bool * list PrintedError) : bool * list PrintedError :=
  let errors_ := match result (base suite) with Some r => errors r | None => [] end in
  fold_left (fun s error => (true, s.2 ++ [mkPrinted error (projectName file)])) errors_ s.

(** An entry of [formatCollectedAsJSON]. *)
Record JsonEntry : Type := mkEntry {
  entry_name : string;
  entry_file : string;
  entry_projectName : option string;
  entry_location : option Location
}.

(** [test.mode === 'run' || test.mode === 'only']. *)
Definition listed (test : ListedTest) : bool :=
  mode_eqb (listed_mode test) run || mode_eqb (listed_mode test) only.

(** A defined and non-empty project name is truthy. *)
Definition truthyName (nm : option string) : option string :=
  match nm with
  | Some "" => None
  | other => other
  end.

(** [formatCollectedAsJSON(files)]. *)
Definition formatCollectedAsJSON (files : list (@File TestError)) : list JsonEntry :=
  concat (map (fun file =>
    let tests := filter (fun test => listed test = true) (getTests file) in
    map (fun test =>
           {| entry_name := joinWith " > " (drop 1 (listed_names test));
              entry_file := filepath file;
              entry_projectName := truthyName (projectName file);
              entry_location := listed_location test |}) tests) files).

(** [formatCollectedAsString(files)]. *)
Definition formatCollectedAsString (files : list (@File TestError)) : list string :=
  concat (map (fun file =>
    let tests := filter (fun test => listed test = true) (getTests file) in
    map (fun test =>
           let name_ := joinWith " > " (listed_names test) in
           match truthyName (projectName file) with
           | Some project => "[" +:+ project +:+ "] " +:+ name_
           | None => name_
           end) tests) files).

(** What [processCollected] writes besides the errors: the JSON on the
    console or in a file, or one line per test on the console. *)
Inductive Listing : Type :=
| PrintJson (entries : list JsonEntry)
| WriteJson (jsonPath : string) (entries : list JsonEntry)
| PrintLines (lines : list string).

(** [processJsonOutput(files, options)], for a defined [options.json]. *)
Definition processJsonOutput (files : list (@File TestError)) (options : CliOptions)
    (json_ : bool + string) : Listing :=
  match json_ with
  | inl _ => PrintJson (formatCollectedAsJSON files)
  | inr path_ =>
      WriteJson (resolveJsonPath (cli_root options) path_) (formatCollectedAsJSON files)
  end.

(** [processCollected(ctx, files, options)]: the errors printed, and the
    listing if there is one. A File is a suite: [forEachSuite(files, ...)]
    walks the Files as suites, here one File at a time, with the callback
    for the suites of that File. *)
Definition processCollected (files : list (@File TestError)) (options : CliOptions)
    : list PrintedError * option Listing :=
  let '(errorsPrinted, log) :=
    fold_left (fun s file => forEachSuite (printSuiteErrors file) [fileSuite file] s)
      files (false, []) in
  if errorsPrinted then (log, None)
  else
    match json options with
    | Some json_ => (log, Some (processJsonOutput files options json_))
    | None => (log, Some (PrintLines (formatCollectedAsString files)))
    end.

(** The errors attached to the suites of a tree, in the order in which a
    walk from the root meets them; the errors attached to tests and
    custom tasks are not among them. *)
Fixpoint suiteErrors (task : @Task TestError) : list TestError :=
  match task with
  | Leaf _ _ => []
  | SuiteTask b ts =>
      match result b with Some r => errors r | None => [] end
      ++ concat (map suiteErrors ts)
  end.

End ListCommand.

(** ** More worked examples *)
Module MoreExamples.
Import Examples.

(** Numbers that hold every integer, which is enough for line numbers. *)
#[export] Instance exampleNumbers : Numbers := {|
  numberValue := fun n => n;
  numberValue_safe := fun n _ => eq_refl
|}.

(** No test is listed, and a path is resolved to itself. *)
#[export] Instance exampleCliHost : @CliHost string unit := {|
  getTests := fun _ => [];
  resolveJsonPath := fun _ path_ => path_
|}.

(** The cyclic project after a.test.ts has run. *)
Definition knownVitest : Vitest := setFilesMap {[ "a.test.ts" ]} idleVitest.

(** a.test.ts has run, and it is pending together with b.test.ts. *)
Definition pendingVitest : Vitest :=
  setChangedTests {[ "a.test.ts"; "b.test.ts" ]} knownVitest.

(** a.test.ts is pending, and the filename pattern is the empty string. *)
Definition emptyPatternVitest : Vitest := {|
  projects := [cyclicProject];
  config_root := "/";
  forceRerunTriggers := [];
  filenamePattern := Some "";
  filesMap := {[ "a.test.ts" ]};
  invalidates := ∅;
  changedTests := {[ "a.test.ts" ]};
  watchedTests := ∅;
  restartsCount := 0;
  isFirstRun := false;
  rerunTimer := None;
  snapshotClears := 0;
  walked := []
|}.

End MoreExamples.

(** * Properties *)

Lemma mode_eqb_eq a b : mode_eqb a b = true <-> a = b.
Proof. destruct a, b; simpl; split; congruence. Qed.

Lemma mode_eqb_neq a b : mode_eqb a b = false <-> a <> b.
Proof. destruct a, b; simpl; split; congruence. Qed.

(** ** generateHash *)

Section HashArithmetic.
Local Open Scope Z_scope.

Lemma toInt32_shift x k : toInt32 (x + 2 ^ 32 * k) = toInt32 x.
Proof.
  unfold toInt32. f_equal.
  replace (x + 2 ^ 32 * k + 2 ^ 31) with (x + 2 ^ 31 + k * 2 ^ 32) by ring.
  apply Z_mod_plus_full.
Qed.

Lemma toInt32_offset x : exists k, toInt32 x = x + 2 ^ 32 * k.
Proof.
  exists (- ((x + 2 ^ 31) / 2 ^ 32)). unfold toInt32.
  rewrite Z.mod_eq by lia. ring.
Qed.

Lemma toInt32_range x : - 2 ^ 31 <= toInt32 x < 2 ^ 31.
Proof.
  unfold toInt32.
  pose proof (Z.mod_pos_bound (x + 2 ^ 31) (2 ^ 32) ltac:(lia)). lia.
Qed.

Lemma toInt32_idem x : toInt32 (toInt32 x) = toInt32 x.
Proof.
  destruct (toInt32_offset x) as [k Hk].
  rewrite Hk at 1. apply toInt32_shift.
Qed.

Lemma and32_diag x : and32 x x = toInt32 x.
Proof. unfold and32. rewrite Z.land_diag. apply toInt32_idem. Qed.

Lemma shl32_5 x : exists k, shl32 x 5 = x * 32 + 2 ^ 32 * k.
Proof.
  unfold shl32. rewrite Z.shiftl_mul_pow2 by lia.
  destruct (toInt32_offset x) as [k1 H1].
  destruct (toInt32_offset (toInt32 x * 2 ^ 5)) as [k2 H2].
  exists (32 * k1 + k2). rewrite H2, H1. ring.
Qed.

(** One round of the loop is the rolling-hash step, for every value of
    the accumulator and every code unit. *)
Lemma hashRound_rolling (hash char : Z) :
  hashRound hash char = toInt32 (hash * 31 + char).
Proof.
  unfold hashRound. rewrite and32_diag.
  destruct (shl32_5 hash) as [k Hk]. rewrite Hk.
  replace (hash * 32 + 2 ^ 32 * k - hash + char)
    with (hash * 31 + char + 2 ^ 32 * k) by ring.
  apply toInt32_shift.
Qed.

Lemma fold_left_pointwise {A B : Type} (f g : A -> B -> A) (l : list B) (a : A) :
  (forall x y, f x y = g x y) -> fold_left f l a = fold_left g l a.
Proof.
  intros Hfg. revert a. induction l as [|y l IH]; intros a; [reflexivity|].
  cbn [fold_left]. rewrite Hfg. apply IH.
Qed.

Lemma fold_hashRound (codes : list Z) (h : Z) :
  fold_left hashRound codes h = fold_left (fun h c => toInt32 (h * 31 + c)) codes h.
Proof. apply fold_left_pointwise, hashRound_rolling. Qed.
End HashArithmetic.

(** C7. [generateHash] computes the 32-bit rolling hash of the
    specification, [hash = hash*31 + charCode] truncated to a signed 32-bit
    integer at each step and written in decimal, on every sequence of code
    units; every intermediate value is a signed 32-bit integer; and the hash
    of the empty string is "0". The result is a function of the code units
    of the string alone (no state is read), so that calls with the same
    string return the same result. *)
Theorem generateHash_is_rolling_hash :
  (forall codes : list Z, generateHashOfCodes codes = rollingHashSpec codes)
  /\ (forall str : string, generateHash str = rollingHashSpec (charCodes str))
  /\ (forall (hash char : Z),
        hashRound hash char = toInt32 (hash * 31 + char)
        /\ (- 2 ^ 31 <= hashRound hash char < 2 ^ 31)%Z)
  /\ generateHash "" = "0".
Proof.
  assert (Hcodes : forall codes, generateHashOfCodes codes = rollingHashSpec codes).
  { intros codes. unfold generateHashOfCodes, rollingHashSpec.
    destruct codes as [|c codes]; [done|].
    cbn [length Nat.eqb]. by rewrite fold_hashRound. }
  split; [exact Hcodes|].
  split; [intros str; apply Hcodes|].
  split.
  { intros hash char. rewrite hashRound_rolling. split; [done|apply toInt32_range]. }
  reflexivity.
Qed.

(** ** calculateSuiteHash *)

Section HashIds.
Context {TestError : Type}.
Implicit Types (t parent : @Task TestError) (ts : list (@Task TestError)).

Lemma forEachIndexed_lookup {A B : Type} (f : nat -> A -> B) (l : list A) (start i : nat) :
  forEachIndexed f start l !! i = f (start + i) <$> l !! i.
Proof.
  revert start i. induction l as [|x l IH]; intros start i; [done|].
  destruct i as [|i]; simpl.
  - by rewrite Nat.add_0_r.
  - rewrite IH. by rewrite Nat.add_succ_r.
Qed.

Lemma forEachIndexed_length {A B : Type} (f : nat -> A -> B) (l : list A) (start : nat) :
  length (forEachIndexed f start l) = length l.
Proof. revert start. induction l as [|x l IH]; intros start; simpl; [done|]. by rewrite IH. Qed.

Lemma forEachIndexed_ext {A B : Type} (f g : nat -> A -> B) (l : list A) (start : nat) :
  Forall (fun x => forall i, f i x = g i x) l ->
  forEachIndexed f start l = forEachIndexed g start l.
Proof.
  intros Hl. revert start. induction Hl as [|x l Hx _ IH]; intros start; simpl; [done|].
  by rewrite Hx, IH.
Qed.

Lemma forEachIndexed_compose {A B C : Type} (f : nat -> B -> C) (g : nat -> A -> B)
    (l : list A) (start : nat) :
  forEachIndexed f start (forEachIndexed g start l)
  = forEachIndexed (fun i x => f i (g i x)) start l.
Proof. revert start. induction l as [|x l IH]; intros start; simpl; [done|]. by rewrite IH. Qed.

Lemma base_hashTask parentId idx t :
  task_id (base (hashTask parentId idx t)) = parentId +:+ "_" +:+ indexToString idx.
Proof. by destruct t. Qed.

(** The id written at a path below a hashed child. *)
Lemma idAt_hashTask t : forall parentId idx p,
  idAt p (hashTask parentId idx t)
  = (fun _ => pathId parentId (idx :: p)) <$> taskAt p t.
Proof.
  induction t as [ty b|b ts IH] using Task_ind; intros parentId idx p.
  - by destruct p as [|[|i] q].
  - destruct p as [|i q]; [done|].
    unfold idAt. cbn [hashTask taskAt tasks_of].
    rewrite forEachIndexed_lookup. cbn [Nat.add].
    destruct (ts !! i) as [c|] eqn:Hc; [|done]. cbn [fmap option_fmap option_map].
    rewrite Forall_lookup in IH. specialize (IH i c Hc).
    unfold idAt in IH. by rewrite IH.
Qed.

Lemma idAt_calculateSuiteHash parent p :
  idAt p (calculateSuiteHash parent)
  = (fun _ => pathId (task_id (base parent)) p) <$> taskAt p parent.
Proof.
  destruct parent as [ty b|b ts].
  - by destruct p as [|[|i] q].
  - destruct p as [|i q]; [done|].
    unfold idAt. cbn [calculateSuiteHash taskAt tasks_of].
    rewrite forEachIndexed_lookup. cbn [Nat.add].
    destruct (ts !! i) as [c|] eqn:Hc; [|done]. cbn [fmap option_fmap option_map].
    apply (idAt_hashTask c).
Qed.

(** Hashing overwrites every id below the root: what the ids were before
    does not matter. *)
Lemma hashTask_overwrites t : forall parentId idx parentId' idx',
  hashTask parentId idx (hashTask parentId' idx' t) = hashTask parentId idx t.
Proof.
  induction t as [ty b|b ts IH] using Task_ind; intros parentId idx parentId' idx'; [done|].
  cbn [hashTask set_id task_id name mode result]. f_equal.
  rewrite forEachIndexed_compose. apply forEachIndexed_ext.
  eapply Forall_impl; [exact IH|]. intros c Hc i. apply Hc.
Qed.

Lemma calculateSuiteHash_idempotent parent :
  calculateSuiteHash (calculateSuiteHash parent) = calculateSuiteHash parent.
Proof.
  destruct parent as [ty b|b ts]; [done|].
  cbn [calculateSuiteHash]. f_equal.
  rewrite forEachIndexed_compose. apply forEachIndexed_ext.
  apply Forall_forall. intros c _ i. apply hashTask_overwrites.
Qed.

Lemma sameStructure_positions t1 : forall t2 p,
  sameStructure t1 t2 = true ->
  is_Some (taskAt p t1) <-> is_Some (taskAt p t2).
Proof.
  induction t1 as [ty1 b1|b1 ts1 IH] using Task_ind; intros [ty2 b2|b2 ts2] p Hs;
    try discriminate.
  - by destruct p as [|[|i] q].
  - destruct p as [|i q]; [by split; eauto|].
    cbn [taskAt tasks_of]. cbn [sameStructure] in Hs.
    revert ts2 i Hs. induction IH as [|c1 r1 Hc1 _ IHr]; intros [|c2 r2] i Hs;
      try discriminate; [by rewrite !lookup_nil|].
    apply andb_true_iff in Hs as [Hc Hr].
    destruct i as [|i]; simpl.
    + by apply Hc1.
    + by apply IHr.
Qed.

Lemma forallb_forEachIndexed {A : Type} (P : A -> bool) (f : nat -> A -> A) (l : list A) :
  Forall (fun x => forall i, P (f i x) = P x) l ->
  forall start, forallb P (forEachIndexed f start l) = forallb P l.
Proof.
  induction 1 as [|x l Hx _ IH]; intros start; cbn [forEachIndexed forallb]; [done|].
  by rewrite Hx, IH.
Qed.

(** Hashing leaves the modes alone. *)
Lemma allRun_hashTask t : forall parentId idx, allRun (hashTask parentId idx t) = allRun t.
Proof.
  induction t as [ty b|b ts IH] using Task_ind; intros parentId idx; [done|].
  cbn [hashTask allRun base set_id mode]. f_equal.
  apply forallb_forEachIndexed. eapply Forall_impl; [exact IH|].
  intros c Hc i. apply Hc.
Qed.

Lemma append_inj_r (s a b : string) : s +:+ a = s +:+ b -> a = b.
Proof. induction s as [|c s IH]; simpl; [done|]. intros [= H]. by apply IH. Qed.

Lemma to_uint_not_Nil n : Nat.to_uint n <> Decimal.Nil.
Proof.
  intros H. pose proof (Unsigned.of_to n) as Hn. rewrite H in Hn.
  cbn in Hn. subst n. discriminate.
Qed.

Lemma indexToString_inj i j : indexToString i = indexToString j -> i = j.
Proof.
  unfold indexToString. intros H.
  apply Unsigned.to_uint_inj.
  pose proof (NilZero.usu _ (to_uint_not_Nil i)) as Hi.
  pose proof (NilZero.usu _ (to_uint_not_Nil j)) as Hj.
  rewrite H in Hi. congruence.
Qed.

Lemma sibling_ids_differ parentId i j :
  i <> j ->
  parentId +:+ "_" +:+ indexToString i <> parentId +:+ "_" +:+ indexToString j.
Proof.
  intros Hij H. apply Hij, indexToString_inj.
  by apply append_inj_r in H; apply (append_inj_r "_") in H.
Qed.

Lemma swapSiblings_lookup ts i j a b :
  ts !! i = Some a -> ts !! j = Some b ->
  swapSiblings i j ts !! i = Some b /\ swapSiblings i j ts !! j = Some a.
Proof.
  intros Hi Hj. unfold swapSiblings. rewrite Hi, Hj.
  pose proof (lookup_lt_Some _ _ _ Hi). pose proof (lookup_lt_Some _ _ _ Hj).
  split.
  - apply list_lookup_insert_eq. by rewrite length_insert.
  - destruct (decide (i = j)) as [->|Hne].
    + rewrite list_lookup_insert_eq by (by rewrite length_insert). congruence.
    + rewrite list_lookup_insert_ne by done. by apply list_lookup_insert_eq.
Qed.
End HashIds.

(** C6. [calculateSuiteHash] gives the task at every path below the root the
    id made of the root's id and one [_index] per level, that is the new id
    of its parent followed by [_] and its index among its siblings, the
    parent's id being written before its children are numbered; a second
    invocation changes nothing; two trees of the same structure under roots
    with the same id receive the same id at every position; and when two
    siblings are exchanged, each of the two receives an id different from
    the one it received in its former position. *)
Theorem calculateSuiteHash_positional_ids {TestError : Type} :
  (forall (parent : @Task TestError) (p : list nat),
      idAt p (calculateSuiteHash parent)
      = (fun _ => pathId (task_id (base parent)) p) <$> taskAt p parent)
  /\ (forall (rootId : string) (p : list nat) (idx : nat),
      pathId rootId (p ++ [idx]) = pathId rootId p +:+ "_" +:+ indexToString idx)
  /\ (forall parent : @Task TestError,
      calculateSuiteHash (calculateSuiteHash parent) = calculateSuiteHash parent)
  /\ (forall (t1 t2 : @Task TestError) (p : list nat),
      sameStructure t1 t2 = true ->
      task_id (base t1) = task_id (base t2) ->
      idAt p (calculateSuiteHash t1) = idAt p (calculateSuiteHash t2))
  /\ (forall (b : @TaskBase TestError) (ts : list Task) (i j : nat) (ti tj : Task),
      i <> j -> ts !! i = Some ti -> ts !! j = Some tj ->
      let before := tasks_of (calculateSuiteHash (SuiteTask b ts)) in
      let after := tasks_of (calculateSuiteHash (SuiteTask b (swapSiblings i j ts))) in
      before !! i = Some (hashTask (task_id b) i ti)
      /\ after !! j = Some (hashTask (task_id b) j ti)
      /\ before !! j = Some (hashTask (task_id b) j tj)
      /\ after !! i = Some (hashTask (task_id b) i tj)
      /\ task_id (base (hashTask (task_id b) i ti)) <> task_id (base (hashTask (task_id b) j ti))
      /\ task_id (base (hashTask (task_id b) j tj)) <> task_id (base (hashTask (task_id b) i tj))).
Proof.
  split; [apply idAt_calculateSuiteHash|].
  split; [intros rootId p idx; unfold pathId; by rewrite fold_left_app|].
  split; [apply calculateSuiteHash_idempotent|].
  split.
  - intros t1 t2 p Hs Hid. rewrite !idAt_calculateSuiteHash, Hid.
    pose proof (sameStructure_positions t1 t2 p Hs) as [H12 H21].
    destruct (taskAt p t1) as [c1|], (taskAt p t2) as [c2|]; try done.
    + destruct H12 as [? [=]]; eauto.
    + destruct H21 as [? [=]]; eauto.
  - intros b ts i j ti tj Hij Hi Hj before after. subst before after.
    destruct (swapSiblings_lookup ts i j ti tj Hi Hj) as [Hsi Hsj].
    cbn [calculateSuiteHash tasks_of]. rewrite !forEachIndexed_lookup. cbn [Nat.add].
    rewrite Hi, Hj, Hsi, Hsj. rewrite !base_hashTask.
    repeat split; try done.
    + by apply sibling_ids_differ.
    + apply sibling_ids_differ. congruence.
Qed.

(** ** interpretTaskModes *)

Section InterpretProperties.
Context {Thrown TestError : Type} `{!Host Thrown TestError}.
Implicit Types (t c root suite : @Task TestError) (ts : list (@Task TestError)).
Implicit Types (b : @TaskBase TestError) (p q : list nat) (chain : list string).
Implicit Types (namePattern : option NamePattern).

(** The loop body on a suite calls [interpretTaskModes] on it, unless the
    suite is in mode 'skip' when its turn comes. *)
Lemma eachTask_suite namePattern onlyMode allowOnly suiteIsOnly chain b ts :
  eachTask namePattern onlyMode allowOnly suiteIsOnly chain (SuiteTask b ts)
  = let includeTask := suiteIsOnly || mode_eqb (mode b) only in
    let b1 := onlyStep onlyMode allowOnly includeTask true (someTasksAreOnly ts) b in
    if mode_eqb (mode b1) skip then SuiteTask b1 (skipAllTasks ts)
    else interpretTaskModes namePattern onlyMode allowOnly includeTask
           (name b1 :: chain) (SuiteTask b1 ts).
Proof. reflexivity. Qed.

Lemma interpretTaskModes_tasks namePattern onlyMode allowOnly parentIsOnly chain b ts i :
  tasks_of (interpretTaskModes namePattern onlyMode allowOnly parentIsOnly chain
              (SuiteTask b ts)) !! i
  = eachTask namePattern onlyMode allowOnly (parentIsOnly || mode_eqb (mode b) only) chain
      <$> ts !! i.
Proof. cbn [interpretTaskModes interpretWith tasks_of]. apply list_lookup_fmap. Qed.

Lemma modeAt_cons i q t :
  modeAt (i :: q) t = match tasks_of t !! i with Some c => modeAt q c | None => None end.
Proof. unfold modeAt. cbn [taskAt]. by destruct (tasks_of t !! i). Qed.

Lemma taskAt_cons i q t :
  taskAt (i :: q) t = match tasks_of t !! i with Some c => taskAt q c | None => None end.
Proof. reflexivity. Qed.

(** *** skipAllTasks *)

Lemma skipTask_not_run t : mode (base (skipTask t)) <> run.
Proof.
  destruct t as [ty b|b ts]; cbn [skipTask base];
    destruct (mode_eqb (mode b) run) eqn:Hm; cbn [base set_mode mode]; try done;
    by apply mode_eqb_neq.
Qed.

(** The mode that [skipAllTasks] leaves at a position. *)
Lemma skipTask_modes q : forall c d,
  taskAt q c = Some d ->
  modeAt q (skipTask c)
  = Some (if forallb (fun a => mode_eqb (mode (base a)) run) (ancestorsAlong q c ++ [d])
          then skip else mode (base d)).
Proof.
  induction q as [|i q IH]; intros c d Hd.
  - injection Hd as <-. cbn [ancestorsAlong app forallb]. rewrite andb_true_r.
    unfold modeAt. cbn [taskAt fmap option_fmap option_map].
    destruct c as [ty b|b ts]; cbn [skipTask base];
      by destruct (mode_eqb (mode b) run).
  - destruct c as [ty b|b ts]; [by destruct i|].
    cbn [taskAt tasks_of] in Hd. cbn [ancestorsAlong tasks_of].
    destruct (ts !! i) as [c'|] eqn:Hi; [|done].
    cbn [app forallb base skipTask].
    destruct (mode_eqb (mode b) run); cbn [andb].
    + rewrite modeAt_cons. cbn [tasks_of]. rewrite list_lookup_fmap, Hi.
      cbn [fmap option_fmap option_map]. by apply IH.
    + rewrite modeAt_cons. cbn [tasks_of]. rewrite Hi. unfold modeAt. by rewrite Hd.
Qed.

(** *** The [if (onlyMode)] block *)

Lemma onlyStep_only onlyMode allowOnly includeTask isSuite hasOnly b :
  mode b = only ->
  onlyStep onlyMode allowOnly includeTask isSuite hasOnly b
  = if onlyMode then set_mode run (checkAllowOnly allowOnly b) else b.
Proof.
  intros Hm. unfold onlyStep. rewrite Hm. cbn [mode_eqb andb].
  destruct onlyMode; [|done]. by destruct (isSuite && (includeTask || hasOnly)).
Qed.

Lemma onlyStep_run_excluded allowOnly isSuite b :
  mode b = run ->
  onlyStep true allowOnly false isSuite false b = set_mode skip b.
Proof.
  intros Hm. unfold onlyStep. rewrite Hm. cbn [mode_eqb andb orb negb].
  by rewrite andb_false_r.
Qed.

Lemma onlyStep_run_kept allowOnly b :
  mode b = run ->
  onlyStep true allowOnly false true true b = b.
Proof. intros Hm. unfold onlyStep. by rewrite Hm. Qed.

Lemma onlyStep_name onlyMode allowOnly includeTask isSuite hasOnly b :
  name (onlyStep onlyMode allowOnly includeTask isSuite hasOnly b) = name b.
Proof.
  unfold onlyStep, checkAllowOnly.
  repeat (match goal with |- context [if ?x then _ else _] => destruct x end); done.
Qed.

Lemma result_checkAllowOnly allowOnly b :
  result (checkAllowOnly allowOnly b) = if allowOnly then result b else Some failedOnly.
Proof. by destruct allowOnly. Qed.

Lemma collapse_result b ts : result (collapse b ts) = result b.
Proof. unfold collapse. by destruct (_ && _). Qed.

Lemma collapse_skip b ts :
  mode b <> skip -> mode (collapse b ts) = skip ->
  Forall (fun c => mode (base c) <> run) ts.
Proof.
  unfold collapse. intros Hb.
  destruct (mode_eqb (mode b) run && negb (Nat.eqb (length ts) 0)
            && forallb (fun i => negb (mode_eqb (mode (base i)) run)) ts) eqn:Hc; [|done].
  intros _. apply andb_true_iff in Hc as [_ Hall].
  apply Forall_forall. intros c Hin Hrun.
  rewrite forallb_forall in Hall. apply list_elem_of_In in Hin.
  specialize (Hall c Hin). by rewrite Hrun in Hall.
Qed.

(** *** Only-propagation *)

Lemma taskIsOrHasOnly_suite b ts :
  taskIsOrHasOnly (SuiteTask b ts) = false ->
  mode b <> only /\ someTasksAreOnly ts = false.
Proof.
  cbn [taskIsOrHasOnly base]. intros H. apply orb_false_iff in H as [Hm Hs].
  split; [by apply mode_eqb_neq|done].
Qed.

Lemma eachTask_excluded_target namePattern allowOnly chain t :
  mode (base t) = run ->
  taskIsOrHasOnly t = false ->
  mode (base (eachTask namePattern true allowOnly false chain t)) = skip.
Proof.
  intros Hrun Hno. destruct t as [ty b|b ts]; cbn [base] in Hrun.
  - cbn [eachTask base]. rewrite Hrun. cbn [mode_eqb orb].
    rewrite onlyStep_run_excluded by done.
    destruct ty; [|done]. by destruct (patternRejects _ _).
  - apply taskIsOrHasOnly_suite in Hno as [_ Hno].
    rewrite eachTask_suite. cbn zeta. rewrite Hrun, Hno. cbn [mode_eqb orb].
    by rewrite onlyStep_run_excluded.
Qed.

(** *** A tree all in mode 'run' *)

Lemma allRun_mode t : allRun t = true -> mode (base t) = run.
Proof.
  destruct t; cbn [allRun base]; intros H; apply andb_true_iff in H as [H _];
    by apply mode_eqb_eq.
Qed.

Lemma allRun_no_only t : allRun t = true -> taskIsOrHasOnly t = false.
Proof.
  induction t as [ty b|b ts IH] using Task_ind; intros H;
    pose proof (allRun_mode _ H) as Hm; cbn [base] in Hm;
    cbn [taskIsOrHasOnly base]; rewrite Hm; cbn [mode_eqb orb]; [done|].
  cbn [allRun] in H. apply andb_true_iff in H as [_ H].
  apply not_true_is_false. intros Hex. apply existsb_exists in Hex as (c & Hin & Hc).
  rewrite forallb_forall in H. rewrite Forall_forall in IH.
  apply list_elem_of_In in Hin as Hin'. rewrite (IH c Hin' (H c Hin)) in Hc. done.
Qed.

(** Without a name pattern and without 'only' tasks, the loop body leaves a
    tree all in mode 'run' as it is. *)
Lemma eachTask_allRun allowOnly t : forall suiteIsOnly chain,
  allRun t = true ->
  eachTask None false allowOnly suiteIsOnly chain t = t.
Proof.
  induction t as [ty b|b ts IH] using Task_ind; intros suiteIsOnly chain Hall.
  - cbn [eachTask onlyStep patternRejects]. by destruct ty.
  - pose proof (allRun_mode _ Hall) as Hm. cbn [base] in Hm.
    rewrite eachTask_suite. cbn zeta. cbn [onlyStep]. rewrite Hm. cbn [mode_eqb].
    cbn [allRun] in Hall. apply andb_true_iff in Hall as [_ Hall].
    cbn [interpretTaskModes]. unfold interpretWith.
    assert (Hts : forall sio, map (eachTask None false allowOnly sio (name b :: chain)) ts = ts).
    { intros sio. rewrite <- (map_id ts) at 2. apply map_ext_in. intros c Hin.
      rewrite Forall_forall in IH. rewrite forallb_forall in Hall.
      apply IH; [by apply list_elem_of_In|by apply Hall]. }
    rewrite Hts. f_equal. unfold collapse. rewrite Hm. cbn [mode_eqb andb].
    destruct ts as [|c ts']; [done|].
    cbn [length Nat.eqb negb andb forallb] in *.
    apply andb_true_iff in Hall as [Hc _]. by rewrite (allRun_mode _ Hc).
Qed.

Lemma interpretTaskModes_allRun allowOnly parentIsOnly chain b ts :
  mode b = run ->
  forallb allRun ts = true ->
  interpretTaskModes None false allowOnly parentIsOnly chain (SuiteTask b ts) = SuiteTask b ts.
Proof.
  intros Hm Hall.
  assert (Hsuite : allRun (SuiteTask b ts) = true).
  { cbn [allRun base]. by rewrite Hm, Hall. }
  clear Hsuite. cbn [interpretTaskModes]. unfold interpretWith.
  assert (Hmap : forall sio, map (eachTask None false allowOnly sio chain) ts = ts).
  { intros sio. rewrite <- (map_id ts) at 2. apply map_ext_in. intros c Hin.
    rewrite forallb_forall in Hall. by apply eachTask_allRun, Hall. }
  rewrite Hmap. f_equal. unfold collapse. rewrite Hm. cbn [mode_eqb andb].
  destruct ts as [|c ts']; [done|].
  cbn [length Nat.eqb negb andb forallb] in *.
  apply andb_true_iff in Hall as [Hc _]. by rewrite (allRun_mode _ Hc).
Qed.

Lemma someTasksAreOnly_allRun ts : forallb allRun ts = true -> someTasksAreOnly ts = false.
Proof.
  intros Hall. apply not_true_is_false. intros Hex.
  apply existsb_exists in Hex as (c & Hin & Hc).
  rewrite forallb_forall in Hall. by rewrite (allRun_no_only c (Hall c Hin)) in Hc.
Qed.

(** *** Skip-propagation *)

Lemma eachTask_leaf namePattern onlyMode allowOnly suiteIsOnly chain ty b :
  exists b', eachTask namePattern onlyMode allowOnly suiteIsOnly chain (Leaf ty b) = Leaf ty b'.
Proof.
  cbn [eachTask]. destruct ty; [|by eexists].
  destruct (patternRejects _ _); by eexists.
Qed.

(** [skipAllTasks] leaves nothing in mode 'run' along suites in mode 'run'. *)
Lemma skipTask_below q : forall c d,
  Forall (fun a => mode (base a) = run) (ancestorsAlong q c) ->
  taskAt q (skipTask c) = Some d ->
  mode (base d) <> run.
Proof.
  induction q as [|i q IH]; intros c d Hanc Hd.
  - injection Hd as <-. apply skipTask_not_run.
  - cbn [ancestorsAlong] in Hanc. apply Forall_cons in Hanc as [Hc Hanc].
    destruct c as [ty b|b ts]; cbn [skipTask base tasks_of] in *;
      rewrite Hc in Hd; cbn [mode_eqb] in Hd.
    + by destruct i.
    + rewrite taskAt_cons in Hd. cbn [tasks_of] in Hd.
      rewrite list_lookup_fmap in Hd.
      destruct (ts !! i) as [c'|]; [|done].
      cbn [fmap option_fmap option_map] in Hd. by eapply IH.
Qed.

Lemma onlyStep_run_modes onlyMode allowOnly includeTask isSuite hasOnly b :
  mode b = run ->
  let b1 := onlyStep onlyMode allowOnly includeTask isSuite hasOnly b in
  mode b1 = run \/ mode b1 = skip.
Proof.
  intros Hm. unfold onlyStep. rewrite Hm. cbn [mode_eqb andb].
  destruct onlyMode; [|by left].
  destruct (isSuite && (includeTask || hasOnly)); [by left|].
  destruct (negb includeTask); [by right|by left].
Qed.

Lemma collapse_modes b ts : mode (collapse b ts) = mode b \/ mode (collapse b ts) = skip.
Proof. unfold collapse. destruct (_ && _); [by right|by left]. Qed.

(** A task in mode 'run' leaves the loop body in mode 'run' or 'skip'. *)
Lemma eachTask_run_modes namePattern onlyMode allowOnly suiteIsOnly chain c :
  mode (base c) = run ->
  let out := eachTask namePattern onlyMode allowOnly suiteIsOnly chain c in
  mode (base out) = run \/ mode (base out) = skip.
Proof.
  intros Hm. destruct c as [ty b|b ts]; cbn [base] in Hm.
  - cbn [eachTask base].
    pose proof (onlyStep_run_modes onlyMode allowOnly
                  (suiteIsOnly || mode_eqb (mode b) only) false false b Hm) as Hb1.
    destruct ty; [|exact Hb1]. destruct (patternRejects _ _); [by right|exact Hb1].
  - rewrite eachTask_suite. cbn zeta.
    pose proof (onlyStep_run_modes onlyMode allowOnly
                  (suiteIsOnly || mode_eqb (mode b) only) true (someTasksAreOnly ts) b Hm)
      as Hb1.
    set (b1 := onlyStep _ _ _ _ _ _) in *. cbn zeta in Hb1.
    destruct (mode_eqb (mode b1) skip) eqn:Hskip.
    + right. by apply mode_eqb_eq.
    + cbn [interpretTaskModes interpretWith base].
      destruct (collapse_modes b1 (map (eachTask namePattern onlyMode allowOnly
                  (suiteIsOnly || mode_eqb (mode b) only || mode_eqb (mode b1) only)
                  (name b1 :: chain)) ts)) as [-> | ->]; [exact Hb1|by right].
Qed.

Section BelowSkipped.
Variables (namePattern : option NamePattern) (onlyMode allowOnly : bool).

(** A suite that [interpretTaskModes] turns to 'skip', given what is to be
    shown for the path [q] below a child of the loop that ends in mode
    'skip'. *)
Lemma collapsed_below i q b ts parentIsOnly chain d :
  (forall c suiteIsOnly' chain' d',
      q <> [] ->
      mode (base (eachTask namePattern onlyMode allowOnly suiteIsOnly' chain' c)) = skip ->
      Forall (fun a => mode (base a) = run) (tail (ancestorsAlong q c)) ->
      taskAt q (eachTask namePattern onlyMode allowOnly suiteIsOnly' chain' c) = Some d' ->
      mode (base d') <> run) ->
  mode b <> skip ->
  let out := interpretTaskModes namePattern onlyMode allowOnly parentIsOnly chain
               (SuiteTask b ts) in
  mode (base out) = skip ->
  Forall (fun a => mode (base a) = run) (tail (ancestorsAlong (i :: q) (SuiteTask b ts))) ->
  taskAt (i :: q) out = Some d ->
  mode (base d) <> run.
Proof.
  intros Hbelow Hb out Hskip Hanc Hd. subst out.
  rewrite taskAt_cons, interpretTaskModes_tasks in Hd.
  cbn [ancestorsAlong tail tasks_of] in Hanc.
  destruct (ts !! i) as [c|] eqn:Hi; [|done].
  cbn [fmap option_fmap option_map] in Hd.
  cbn [interpretTaskModes interpretWith base] in Hskip.
  apply collapse_skip in Hskip; [|done].
  rewrite Forall_lookup in Hskip.
  set (sio := parentIsOnly || mode_eqb (mode b) only) in *.
  assert (Hout : mode (base (eachTask namePattern onlyMode allowOnly sio chain c)) <> run).
  { apply (Hskip i). by rewrite list_lookup_fmap, Hi. }
  destruct q as [|j q].
  - by injection Hd as <-.
  - cbn [ancestorsAlong] in Hanc. pose proof (Forall_inv Hanc) as Hc.
    destruct (eachTask_run_modes namePattern onlyMode allowOnly sio chain c Hc)
      as [Hrun|Hskipped]; [done|].
    eapply Hbelow; [done|exact Hskipped| |exact Hd].
    cbn [ancestorsAlong tail]. by eapply Forall_inv_tail.
Qed.

Lemma eachTask_below_skipped q : forall c suiteIsOnly chain d,
  q <> [] ->
  mode (base (eachTask namePattern onlyMode allowOnly suiteIsOnly chain c)) = skip ->
  Forall (fun a => mode (base a) = run) (tail (ancestorsAlong q c)) ->
  taskAt q (eachTask namePattern onlyMode allowOnly suiteIsOnly chain c) = Some d ->
  mode (base d) <> run.
Proof.
  induction q as [|i q IH]; intros c suiteIsOnly chain d Hq Hskip Hanc Hd; [done|].
  destruct c as [ty b|b ts].
  - destruct (eachTask_leaf namePattern onlyMode allowOnly suiteIsOnly chain ty b)
      as [b' Hb']. rewrite Hb' in Hd. by destruct i.
  - rewrite eachTask_suite in Hskip, Hd. cbn zeta in Hskip, Hd.
    set (b1 := onlyStep _ _ _ _ _ _) in *.
    destruct (mode_eqb (mode b1) skip) eqn:Hb1.
    + rewrite taskAt_cons in Hd. cbn [tasks_of] in Hd. unfold skipAllTasks in Hd.
      rewrite list_lookup_fmap in Hd. cbn [ancestorsAlong tail tasks_of] in Hanc.
      destruct (ts !! i) as [c|]; [|done].
      cbn [fmap option_fmap option_map] in Hd. by eapply skipTask_below.
    + eapply (collapsed_below i q b1 ts); [exact IH|by apply mode_eqb_neq|exact Hskip|
                                           exact Hanc|exact Hd].
Qed.

(** A position with no suite in mode 'skip' above it is one that the loop
    has met. *)
Lemma eachTask_visited p : forall c suiteIsOnly chain S,
  taskAt p (eachTask namePattern onlyMode allowOnly suiteIsOnly chain c) = Some S ->
  Forall (fun a => mode (base a) <> skip)
    (ancestorsAlong p (eachTask namePattern onlyMode allowOnly suiteIsOnly chain c)) ->
  exists suiteIsOnly' chain' S_in,
    taskAt p c = Some S_in
    /\ S = eachTask namePattern onlyMode allowOnly suiteIsOnly' chain' S_in.
Proof.
  induction p as [|i q IH]; intros c suiteIsOnly chain S HS Hanc.
  - injection HS as <-. by exists suiteIsOnly, chain, c.
  - cbn [ancestorsAlong] in Hanc. apply Forall_cons in Hanc as [Hout Hanc].
    destruct c as [ty b|b ts].
    + destruct (eachTask_leaf namePattern onlyMode allowOnly suiteIsOnly chain ty b)
        as [b' Hb']. rewrite Hb' in HS. by destruct i.
    + rewrite eachTask_suite in *. cbn zeta in *.
      set (b1 := onlyStep _ _ _ _ _ _) in *.
      destruct (mode_eqb (mode b1) skip) eqn:Hb1.
      * cbn [base] in Hout. by apply mode_eqb_eq in Hb1.
      * rewrite taskAt_cons, interpretTaskModes_tasks in HS.
        rewrite interpretTaskModes_tasks in Hanc.
        rewrite taskAt_cons. cbn [tasks_of].
        destruct (ts !! i) as [c'|]; [|done].
        cbn [fmap option_fmap option_map] in *.
        by eapply IH.
Qed.
End BelowSkipped.

(** *** Tests and the name pattern *)

Lemma eachTask_test namePattern onlyMode allowOnly suiteIsOnly chain b :
  eachTask namePattern onlyMode allowOnly suiteIsOnly chain (Leaf test b)
  = let b1 := onlyStep onlyMode allowOnly (suiteIsOnly || mode_eqb (mode b) only)
                false false b in
    if patternRejects namePattern (getTaskFullName chain (name b))
    then Leaf test (set_mode skip b1) else Leaf test b1.
Proof. cbn [eachTask base]. by rewrite onlyStep_name. Qed.

Lemma getTaskFullName_joined chain nm :
  getTaskFullName chain nm = joinWith " " (rev chain ++ [nm]).
Proof.
  assert (Hjoin : forall (l : list string) (x y : string),
             joinWith " " ((x :: l) ++ [y]) = joinWith " " (x :: l) +:+ " " +:+ y).
  { intros l x y. unfold joinWith. cbn [app]. by rewrite fold_left_app. }
  revert nm. induction chain as [|parent up IH]; intros nm; [done|].
  cbn [getTaskFullName rev]. rewrite IH.
  destruct (rev up ++ [parent]) as [|x l] eqn:Hl.
  - by destruct (rev up).
  - by rewrite Hjoin.
Qed.

End InterpretProperties.

Section ModeClaims.
Context {Thrown TestError : Type} `{!Host Thrown TestError}.
Implicit Types (t c root suite : @Task TestError) (ts : list (@Task TestError)).
Implicit Types (b : @TaskBase TestError) (p q : list nat) (chain : list string).
Implicit Types (namePattern : option NamePattern).

Lemma onlyStep_idle onlyMode allowOnly includeTask isSuite hasOnly b :
  mode b <> run -> mode b <> only ->
  onlyStep onlyMode allowOnly includeTask isSuite hasOnly b = b.
Proof.
  intros Hrun Honly. apply mode_eqb_neq in Hrun, Honly.
  unfold onlyStep. rewrite Hrun, Honly. cbn [andb].
  by repeat (match goal with |- context [if ?x then _ else _] => destruct x end).
Qed.

(** A task in mode 'run' whose suite is handed to [skipAllTasks]. *)
Lemma skipTask_run_target q c t :
  taskAt q c = Some t -> mode (base t) = run ->
  exists t', taskAt q (skipTask c) = Some t'
    /\ mode (base t')
       = if forallb (fun a => mode_eqb (mode (base a)) run) (ancestorsAlong q c)
         then skip else run.
Proof.
  intros Ht Hrun. pose proof (skipTask_modes q c t Ht) as Hm.
  unfold modeAt in Hm. destruct (taskAt q (skipTask c)) as [t'|]; [|done].
  exists t'. split; [done|]. injection Hm as ->.
  rewrite forallb_app. cbn [forallb]. rewrite Hrun. cbn [mode_eqb].
  by rewrite !andb_true_r.
Qed.

(** A suite in mode 'run' that holds an 'only' task is entered, and is
    collapsed afterwards when it has children none of which is left in
    mode 'run'. *)
Lemma eachTask_kept_suite namePattern allowOnly chain b ts :
  mode b = run -> someTasksAreOnly ts = true ->
  let out := eachTask namePattern true allowOnly false chain (SuiteTask b ts) in
  mode (base out) = if noChildRuns out then skip else run.
Proof.
  intros Hrun Hsome. cbn zeta. rewrite eachTask_suite. cbn zeta.
  rewrite Hrun, Hsome. cbn [mode_eqb orb].
  rewrite onlyStep_run_kept by done. rewrite Hrun. cbn [mode_eqb].
  cbn [interpretTaskModes]. unfold interpretWith, noChildRuns. cbn [base tasks_of].
  unfold collapse. rewrite Hrun. cbn [mode_eqb andb].
  by destruct (_ && _).
Qed.

Lemma eachTask_only_modes namePattern allowOnly q : forall c chain t,
  taskAt q c = Some t ->
  mode (base t) = run ->
  Forall (fun a => mode (base a) <> only) (ancestorsAlong q c) ->
  exists t',
    taskAt q (eachTask namePattern true allowOnly false chain c) = Some t'
    /\ mode (base t')
       = match belowFirstSkipped (ancestorsAlong q c) with
         | Some below =>
             if forallb (fun a => mode_eqb (mode (base a)) run) below then skip else run
         | None =>
             if taskIsOrHasOnly t then (if noChildRuns t' then skip else run) else skip
         end.
Proof.
  induction q as [|i q IH]; intros c chain t Ht Hrun Hanc.
  - injection Ht as ->. eexists. split; [reflexivity|].
    cbn [ancestorsAlong belowFirstSkipped].
    destruct (taskIsOrHasOnly t) eqn:Honly.
    + destruct t as [ty b|b ts]; cbn [base] in Hrun.
      { cbn [taskIsOrHasOnly base] in Honly. by rewrite Hrun in Honly. }
      cbn [taskIsOrHasOnly base] in Honly. rewrite Hrun in Honly.
      by apply eachTask_kept_suite.
    + by apply eachTask_excluded_target.
  - cbn [ancestorsAlong] in Hanc |- *. apply Forall_cons in Hanc as [Hc Hanc].
    destruct c as [ty b|b ts]; [by destruct i|].
    cbn [taskAt tasks_of] in Ht. cbn [tasks_of base] in Hanc, Hc |- *.
    destruct (ts !! i) as [c'|] eqn:Hi; [|done].
    cbn [belowFirstSkipped]. unfold skippedWhole. cbn [base taskIsOrHasOnly].
    apply mode_eqb_neq in Hc as Hc'. rewrite Hc'. cbn [orb].
    rewrite eachTask_suite. cbn zeta. rewrite Hc'. cbn [orb].
    assert (Hskipped : forall b1,
      exists t', taskAt (i :: q) (SuiteTask b1 (skipAllTasks ts)) = Some t'
        /\ mode (base t')
           = if forallb (fun a => mode_eqb (mode (base a)) run) (ancestorsAlong q c')
             then skip else run).
    { intros b1. rewrite taskAt_cons. cbn [tasks_of]. unfold skipAllTasks.
      rewrite list_lookup_fmap, Hi. cbn [fmap option_fmap option_map].
      by apply (skipTask_run_target q c' t). }
    destruct (mode (base (SuiteTask b ts))) eqn:Hm; cbn [base] in Hm; [| | done |].
    + (* 'run' *)
      rewrite Hm. cbn [mode_eqb orb andb].
      destruct (someTasksAreOnly ts) eqn:Hsome; cbn [existsb negb].
      * change (existsb taskIsOrHasOnly ts) with (someTasksAreOnly ts).
        rewrite Hsome. cbn [negb].
        rewrite onlyStep_run_kept by done. rewrite Hm. cbn [mode_eqb].
        rewrite taskAt_cons, interpretTaskModes_tasks, Hi, Hm.
        cbn [mode_eqb orb fmap option_fmap option_map]. by apply IH.
      * change (existsb taskIsOrHasOnly ts) with (someTasksAreOnly ts).
        rewrite Hsome. cbn [negb].
        rewrite onlyStep_run_excluded by done. cbn [set_mode mode mode_eqb].
        apply Hskipped.
    + (* 'skip' *)
      rewrite Hm. cbn [mode_eqb orb].
      rewrite onlyStep_idle by (rewrite Hm; done). rewrite Hm. cbn [mode_eqb].
      apply Hskipped.
    + (* 'todo' *)
      rewrite Hm. cbn [mode_eqb orb andb].
      rewrite onlyStep_idle by (rewrite Hm; done). rewrite Hm. cbn [mode_eqb].
      rewrite taskAt_cons, interpretTaskModes_tasks, Hi, Hm.
      cbn [mode_eqb orb fmap option_fmap option_map]. by apply IH.
Qed.

(** C1, as amended. [interpretTaskModes] runs with [onlyMode] set on a
    suite that is not under 'only'; take a task below it that was in mode
    'run' and has no suite in mode 'only' above it. A suite above the task
    and below the root is skipped as a whole when it was in mode 'skip',
    or in mode 'run' with no task marked 'only' below it. The task ends in
    mode 'skip', with two exceptions. When no suite above it is skipped as
    a whole and the task is a suite that holds a task marked 'only', it
    stays in mode 'run', unless it has children none of which is left in
    mode 'run', which collapses it to 'skip'. When some suite above it is
    skipped as a whole and a suite between the outermost such suite and
    the task was not in mode 'run', the task stays in mode 'run'. *)
Theorem only_propagation namePattern allowOnly chain root p t :
  mode (base root) <> only ->
  p <> [] ->
  taskAt p root = Some t ->
  mode (base t) = run ->
  Forall (fun a => mode (base a) <> only) (tail (ancestorsAlong p root)) ->
  exists t',
    taskAt p (interpretTaskModes namePattern true allowOnly false chain root) = Some t'
    /\ mode (base t')
       = match belowFirstSkipped (tail (ancestorsAlong p root)) with
         | Some below =>
             if forallb (fun a => mode_eqb (mode (base a)) run) below then skip else run
         | None =>
             if taskIsOrHasOnly t then (if noChildRuns t' then skip else run) else skip
         end.
Proof.
  intros Hroot Hp Ht Hrun Hanc.
  destruct p as [|i q]; [done|].
  destruct root as [ty b|b ts]; [by destruct i|].
  cbn [ancestorsAlong tail tasks_of] in Hanc |- *. cbn [taskAt tasks_of] in Ht.
  rewrite taskAt_cons, interpretTaskModes_tasks.
  destruct (ts !! i) as [c|]; [|done].
  cbn [base] in Hroot. apply mode_eqb_neq in Hroot. rewrite Hroot.
  cbn [orb fmap option_fmap option_map].
  by apply eachTask_only_modes.
Qed.

(** C2, as amended. After [interpretTaskModes], take a suite in mode 'skip'
    that has no suite in mode 'skip' above it (the root apart, which must
    not have been 'skip' on entry when it is the suite in question). No
    task below it is in mode 'run', as far as the suites between the two
    were in mode 'run' before the call; in particular none of its children
    is in mode 'run'. *)
Theorem skip_propagation namePattern onlyMode allowOnly parentIsOnly chain root p q S_in S d :
  let out := interpretTaskModes namePattern onlyMode allowOnly parentIsOnly chain root in
  taskAt p root = Some S_in ->
  taskAt p out = Some S ->
  mode (base S) = skip ->
  (p = [] -> mode (base root) <> skip) ->
  Forall (fun a => mode (base a) <> skip) (tail (ancestorsAlong p out)) ->
  q <> [] ->
  Forall (fun a => mode (base a) = run) (tail (ancestorsAlong q S_in)) ->
  taskAt q S = Some d ->
  mode (base d) <> run.
Proof.
  intros out Hin HS Hskip Hroot Htop Hq Hbetween Hd. subst out.
  destruct q as [|j q]; [done|].
  destruct root as [ty b|b ts].
  { destruct p as [|i p]; [|by destruct i].
    injection HS as <-. by destruct j. }
  destruct p as [|i p].
  - injection HS as <-. injection Hin as <-.
    eapply (collapsed_below namePattern onlyMode allowOnly j q b ts);
      [apply eachTask_below_skipped|by apply Hroot|exact Hskip|exact Hbetween|exact Hd].
  - cbn [ancestorsAlong tail] in Htop.
    rewrite taskAt_cons, interpretTaskModes_tasks in HS.
    rewrite interpretTaskModes_tasks in Htop.
    rewrite taskAt_cons in Hin. cbn [tasks_of] in Hin.
    destruct (ts !! i) as [c|]; [|done].
    cbn [fmap option_fmap option_map] in *.
    destruct (eachTask_visited namePattern onlyMode allowOnly p c _ _ S HS Htop)
      as (sio' & chain' & S_in' & Hin' & ->).
    assert (S_in' = S_in) as -> by congruence.
    by eapply (eachTask_below_skipped namePattern onlyMode allowOnly (j :: q)).
Qed.

(** C4, as amended. A child in mode 'only' that the loop of
    [interpretTaskModes] meets with [onlyMode] set is promoted without an
    exception: with [allowOnly] unset its result becomes a failure holding
    exactly the one error about the [.only] modifier, with [allowOnly] set
    its result is left as it was. Its mode ends as 'run', except that a
    test whose full name the name pattern rejects, and a suite left with
    children none of which is in mode 'run', end as 'skip'. *)
Theorem allow_only_gate namePattern allowOnly parentIsOnly chain b ts i t :
  ts !! i = Some t ->
  mode (base t) = only ->
  exists t',
    tasks_of (interpretTaskModes namePattern true allowOnly parentIsOnly chain
                (SuiteTask b ts)) !! i = Some t'
    /\ result (base t') = (if allowOnly then result (base t) else Some failedOnly)
    /\ mode (base t')
       = if (is_test t && patternRejects namePattern (getTaskFullName chain (name (base t))))
            || (is_suite t && negb (Nat.eqb (length (tasks_of t')) 0)
                && forallb (fun c => negb (mode_eqb (mode (base c)) run)) (tasks_of t'))
         then skip else run.
Proof.
  intros Hi Honly. rewrite interpretTaskModes_tasks, Hi.
  eexists. split; [reflexivity|].
  set (sio := parentIsOnly || mode_eqb (mode b) only).
  destruct t as [ty tb|tb cs]; cbn [base] in Honly.
  - cbn [is_test is_suite andb orb].
    destruct ty.
    + rewrite eachTask_test. cbn zeta.
      rewrite onlyStep_only by done.
      rewrite orb_false_r. cbn [base].
      destruct (patternRejects _ _); cbn [base set_mode mode result];
        by rewrite result_checkAllowOnly.
    + cbn [eachTask base]. rewrite onlyStep_only by done.
      cbn [base set_mode mode result]. by rewrite result_checkAllowOnly.
  - cbn [is_test is_suite andb orb].
    rewrite eachTask_suite. cbn zeta.
    rewrite onlyStep_only by done. cbn [set_mode mode mode_eqb name].
    cbn [interpretTaskModes interpretWith base tasks_of].
    rewrite collapse_result. cbn [result set_mode].
    split; [by rewrite result_checkAllowOnly|].
    unfold collapse. cbn [mode mode_eqb andb].
    by destruct (_ && _).
Qed.

(** C5. A test that the loop of [interpretTaskModes] meets ends in mode
    'skip' when a name pattern is supplied and does not match its full
    name, whatever [onlyMode], [allowOnly] and the 'only' state of the
    enclosing suites are; the full name is the names of the enclosing
    suites and of the test, outermost first, joined by single spaces; and
    for a suite A holding a test B in mode 'run', the pattern /A B/ leaves
    B in mode 'run' while /A C/ leaves it in mode 'skip'. *)
Theorem name_filter :
  (forall namePattern onlyMode allowOnly parentIsOnly chain b ts i tb,
      ts !! i = Some (Leaf test tb) ->
      patternRejects namePattern (getTaskFullName chain (name tb)) = true ->
      modeAt [i] (interpretTaskModes namePattern onlyMode allowOnly parentIsOnly chain
                    (SuiteTask b ts)) = Some skip)
  /\ (forall (re : RegExp) (fullName : string),
      patternRejects (Some (PatRegExp re)) fullName = negb (re fullName))
  /\ (forall chain nm, getTaskFullName chain nm = joinWith " " (rev chain ++ [nm]))
  /\ modeAt [0; 0]
       (interpretTaskModes (Some (PatRegExp (literalRegExp "A B"))) false true false []
          Examples.suiteAB) = Some run
  /\ modeAt [0; 0]
       (interpretTaskModes (Some (PatRegExp (literalRegExp "A C"))) false true false []
          Examples.suiteAB) = Some skip.
Proof.
  split; [|split; [done|split; [apply getTaskFullName_joined|split; reflexivity]]].
  intros namePattern onlyMode allowOnly parentIsOnly chain b ts i tb Hi Hrej.
  rewrite modeAt_cons, interpretTaskModes_tasks, Hi.
  cbn [fmap option_fmap option_map]. rewrite eachTask_test. cbn zeta.
  by rewrite Hrej.
Qed.

(** C10. A test in mode 'only' that the loop of [interpretTaskModes]
    meets with [onlyMode] and [allowOnly] set ends in mode 'skip' when the
    name pattern rejects its full name: the pattern is checked after the
    promotion and overrides it. With a pattern that does not reject the
    name, the same test ends in mode 'run'. *)
Theorem name_pattern_overrides_only namePattern parentIsOnly chain b ts i tb :
  ts !! i = Some (Leaf test tb) ->
  mode tb = only ->
  modeAt [i] (interpretTaskModes namePattern true true parentIsOnly chain (SuiteTask b ts))
  = Some (if patternRejects namePattern (getTaskFullName chain (name tb))
          then skip else run).
Proof.
  intros Hi Honly.
  rewrite modeAt_cons, interpretTaskModes_tasks, Hi.
  cbn [fmap option_fmap option_map]. rewrite eachTask_test. cbn zeta.
  rewrite onlyStep_only by done.
  by destruct (patternRejects _ _).
Qed.

End ModeClaims.

(** ** collectTests *)

Section CollectProperties.
Context {Thrown TestError : Type} `{!Host Thrown TestError}.
Context {World Hook : Type} `{!@Collaborators Thrown TestError World Hook}.
Implicit Types (f file built : @File TestError) (w : World).
Implicit Types (runner : @VitestRunner Thrown TestError World).
Implicit Types (fileHooks : @SuiteHooks Hook).
Implicit Types (items : list (@Registered Thrown TestError World Hook)).
Local Abbreviation Collecting := (@Collecting Thrown TestError World).
Local Abbreviation Effect := (@Effect Thrown World).
Local Abbreviation File := (@File TestError).
Local Abbreviation keepsHeader :=
  (keepsHeader (Thrown:=Thrown) (TestError:=TestError) (World:=World)).
Local Abbreviation collecting_ret :=
  (collecting_ret (Thrown:=Thrown) (TestError:=TestError) (World:=World)).
Local Abbreviation theFile := (@theFile Thrown TestError World).
Local Abbreviation readWorld :=
  (readWorld (Thrown:=Thrown) (TestError:=TestError) (World:=World)).
Local Abbreviation updateWorld := (@updateWorld Thrown TestError World).
Local Abbreviation modifyFile := (@modifyFile Thrown TestError World).
Local Abbreviation perform :=
  (perform (Thrown:=Thrown) (TestError:=TestError) (World:=World)).

Lemma sameHeader_refl f : sameHeader f f.
Proof. by split. Qed.

Lemma sameHeader_trans f1 f2 f3 : sameHeader f1 f2 -> sameHeader f2 f3 -> sameHeader f1 f3.
Proof. intros [? ?] [? ?]. split; congruence. Qed.

Lemma keepsHeader_bind {A B : Type} (c : Collecting A) (k : A -> Collecting B) :
  keepsHeader c -> (forall a, keepsHeader (k a)) -> keepsHeader (collecting_bind c k).
Proof.
  intros Hc Hk f w f' w' r. unfold collecting_bind.
  destruct (c f w) as [[f1 w1] [e|a]] eqn:Hcf.
  - intros [= <- <- <-]. by eapply Hc.
  - intros Hka. eapply sameHeader_trans; [by eapply Hc|by eapply Hk].
Qed.

Lemma keepsHeader_ret {A : Type} (a : A) : keepsHeader (collecting_ret a).
Proof. intros f w f' w' r [= <- <- <-]. apply sameHeader_refl. Qed.

Lemma keepsHeader_perform {A : Type} (e : Effect A) : keepsHeader (perform e).
Proof.
  intros f w f' w' r. unfold perform. destruct (e w) as [w1 r1].
  intros [= <- <- <-]. apply sameHeader_refl.
Qed.

Lemma keepsHeader_theFile : keepsHeader theFile.
Proof. intros f w f' w' r [= <- <- <-]. apply sameHeader_refl. Qed.

Lemma keepsHeader_readWorld {A : Type} (g : World -> A) : keepsHeader (readWorld g).
Proof. intros f w f' w' r [= <- <- <-]. apply sameHeader_refl. Qed.

Lemma keepsHeader_updateWorld (g : World -> World) : keepsHeader (updateWorld g).
Proof. intros f w f' w' r [= <- <- <-]. apply sameHeader_refl. Qed.

Lemma keepsHeader_modifyFile (g : File -> File) :
  (forall f, sameHeader f (g f)) -> keepsHeader (modifyFile g).
Proof. intros Hg f w f' w' r [= <- <- <-]. apply Hg. Qed.

Lemma keepsHeader_pushCollected items : forall fileHooks,
  keepsHeader (pushCollected items fileHooks).
Proof.
  induction items as [|[c|collect] rest IH]; intros fileHooks; cbn [pushCollected].
  - apply keepsHeader_ret.
  - apply keepsHeader_bind; [by apply keepsHeader_modifyFile|done].
  - apply keepsHeader_bind; [apply keepsHeader_theFile|]. intros file.
    apply keepsHeader_bind; [apply keepsHeader_perform|]. intros suite.
    destruct (_ || _); [|done].
    apply keepsHeader_bind; [by apply keepsHeader_modifyFile|done].
Qed.

Lemma keepsHeader_collectBody runner path_ : keepsHeader (collectBody runner path_).
Proof.
  unfold collectBody.
  repeat first
    [ apply keepsHeader_pushCollected
    | apply keepsHeader_perform
    | apply keepsHeader_readWorld
    | apply keepsHeader_updateWorld
    | apply keepsHeader_theFile
    | by apply keepsHeader_modifyFile
    | apply keepsHeader_bind; [|intros ?]
    | match goal with |- keepsHeader (if ?c then _ else _) => destruct c end ].
Qed.

(** What [finishFile] does to the header of a File in mode 'run'. *)
Lemma finishFile_header cfg f :
  mode (file_base f) = run ->
  let f' := finishFile cfg f in
  filepath f' = filepath f
  /\ result (file_base f') = result (file_base f)
  /\ length (file_tasks f') = length (file_tasks f)
  /\ mode (file_base f')
     = if negb (Nat.eqb (length (file_tasks f')) 0)
          && forallb (fun c => negb (mode_eqb (mode (base c)) run)) (file_tasks f')
       then skip else run.
Proof.
  intros Hrun. unfold finishFile, onSuite, fileSuite.
  cbn [calculateSuiteHash interpretTaskModes interpretWith base tasks_of
       file_base file_tasks filepath].
  split; [done|]. split; [apply collapse_result|].
  split; [by rewrite length_map, forEachIndexed_length|].
  unfold collapse. rewrite Hrun. cbn [mode_eqb andb].
  by destruct (_ && _).
Qed.

(** A File in mode 'run' whose pushed tasks are all in mode 'run' comes
    out hashed and otherwise unchanged, when no name pattern is set. *)
Lemma finishFile_allRun cfg f :
  testNamePattern cfg = None ->
  mode (file_base f) = run ->
  forallb allRun (file_tasks f) = true ->
  let f' := finishFile cfg f in
  file_tasks f' = forEachIndexed (hashTask (task_id (file_base f'))) 0 (file_tasks f)
  /\ forallb allRun (file_tasks f') = true
  /\ mode (file_base f') = run.
Proof.
  intros Hnp Hrun Hall. unfold finishFile, onSuite, fileSuite. rewrite Hnp.
  cbn [calculateSuiteHash base tasks_of file_base file_tasks].
  set (hashed := forEachIndexed (hashTask (task_id (file_base f))) 0 (file_tasks f)).
  assert (Hhashed : forallb allRun hashed = true).
  { unfold hashed. rewrite forallb_forEachIndexed; [done|].
    apply Forall_forall. intros c _ i. apply allRun_hashTask. }
  rewrite (someTasksAreOnly_allRun _ Hhashed).
  rewrite (interpretTaskModes_allRun _ _ _ _ _ Hrun Hhashed).
  by cbn [base tasks_of].
Qed.

(** *** The loop over the registered entries *)

Lemma pushCollected_resolves runner path_ d items ts w ts' w' thrown :
  resolves runner path_ d items ts w ts' w' thrown ->
  forall fileHooks, exists fileHooks',
    pushCollected items fileHooks (underConstruction runner path_ d ts) w
    = ((underConstruction runner path_ d ts', w'),
       match thrown with Some e => inl e | None => inr fileHooks' end).
Proof.
  induction 1 as [ts w|c rest ts w ts' w' thrown _ IH|collect rest ts w w1 e Hc
                  |collect rest ts w w1 suite ts' w' thrown Hc _ IH];
    intros fileHooks; cbn [pushCollected].
  - by eexists.
  - unfold collecting_bind, modifyFile. apply IH.
  - unfold collecting_bind, theFile, perform. rewrite Hc. by exists fileHooks.
  - unfold collecting_bind, theFile, perform, modifyFile. rewrite Hc.
    unfold namedOrFilled in IH. destruct (_ || _).
    + apply IH.
    + rewrite app_nil_r in IH. apply IH.
Qed.

Lemma resolves_total runner path_ d items : forall ts w,
  exists ts' w' thrown, resolves runner path_ d items ts w ts' w' thrown.
Proof.
  induction items as [|[c|collect] rest IH]; intros ts w.
  - exists ts, w, None. constructor.
  - destruct (IH (ts ++ [c]) w) as (ts' & w' & thrown & Hrest).
    exists ts', w', thrown. by constructor.
  - destruct (collect (underConstruction runner path_ d ts) w) as [w1 [e|suite]] eqn:Hc.
    + exists ts, w1, (Some e). by eapply resolves_throw.
    + destruct (IH (ts ++ if namedOrFilled suite
                          then [SuiteTask (collected_base suite) (collected_tasks suite)]
                          else []) w1) as (ts' & w' & thrown & Hrest).
      exists ts', w', thrown. by eapply resolves_suite.
Qed.

(** *** The [try] statement *)

Lemma setupReturns_none runner w w' d :
  Nat.eqb (length (setupFiles (config runner))) 0 = true ->
  setupReturns runner w w' d -> w' = w /\ d = 0%Z.
Proof. unfold setupReturns. by intros ->. Qed.

Lemma setupReturns_some runner w w' d :
  Nat.eqb (length (setupFiles (config runner))) 0 = false ->
  setupReturns runner w w' d ->
  runSetupFiles (config runner) (setupFiles (config runner)) runner w = (w', inr tt)
  /\ d = (now w' - now w)%Z.
Proof. unfold setupReturns. by intros ->. Qed.

(** The File and the world after lines 38-47, when the setup files
    return. *)
Lemma collectBody_after_setup runner path_ w0 w1 d (rest : Collecting unit) :
  setupReturns runner w0 w1 d ->
  collecting_bind
    (if negb (Nat.eqb (length (setupFiles (config runner))) 0) then
       collecting_bind (readWorld now) (fun setupStart =>
       collecting_bind
         (perform (runSetupFiles (config runner) (setupFiles (config runner)) runner))
         (fun _ =>
       collecting_bind (readWorld now) (fun setupEnd =>
       modifyFile (setSetupDuration (setupEnd - setupStart)))))
     else modifyFile (setSetupDuration 0))
    (fun _ => rest) (newFile runner path_) w0
  = rest (underConstruction runner path_ d []) w1.
Proof.
  intros Hsetup. destruct (Nat.eqb (length (setupFiles (config runner))) 0) eqn:Hlen.
  - destruct (setupReturns_none _ _ _ _ Hlen Hsetup) as [-> ->]. reflexivity.
  - destruct (setupReturns_some _ _ _ _ Hlen Hsetup) as [Hrun ->].
    cbn [negb]. unfold collecting_bind, readWorld, perform, modifyFile.
    by rewrite Hrun.
Qed.

Lemma collectBody_tryEnds runner path_ w0 ts thrown :
  tryEnds runner path_ w0 ts thrown ->
  exists built w1,
    collectBody runner path_ (newFile runner path_) w0
    = ((built, w1), match thrown with Some e => inl e | None => inr tt end)
    /\ file_base built = file_base (newFile runner path_)
    /\ file_tasks built = ts
    /\ filepath built = path_.
Proof.
  intros [w1 e Hfiles Hrun|w1 d w2 e Hsetup Himport|w1 d w2 w3 e Hsetup Himport Hdefault
          |w1 d w2 w3 defaultTasks ts' w4 thrown' Hsetup Himport Hdefault Hloop].
  - exists (newFile runner path_), w1. split; [|done].
    unfold collectBody.
    destruct (Nat.eqb (length (setupFiles (config runner))) 0) eqn:Hlen.
    { apply Nat.eqb_eq in Hlen. by destruct (setupFiles (config runner)). }
    cbn [negb]. unfold collecting_bind, readWorld, perform. by rewrite Hrun.
  - exists (underConstruction runner path_ d []), w2. split; [|done].
    unfold collectBody. rewrite (collectBody_after_setup _ _ _ _ _ _ Hsetup).
    unfold collecting_bind, readWorld, perform. by rewrite Himport.
  - exists (underConstruction runner path_ d []), w3. split; [|done].
    unfold collectBody. rewrite (collectBody_after_setup _ _ _ _ _ _ Hsetup).
    unfold collecting_bind, readWorld, perform, theFile. rewrite Himport.
    by rewrite Hdefault.
  - destruct (pushCollected_resolves _ _ _ _ _ _ _ _ _ Hloop
                (mergeHooks createSuiteHooks (collected_hooks defaultTasks)))
      as [fileHooks' Hpush].
    unfold collectBody. rewrite (collectBody_after_setup _ _ _ _ _ _ Hsetup).
    unfold collecting_bind, readWorld, perform, theFile, updateWorld, modifyFile.
    rewrite Himport, Hdefault, Hpush.
    destruct thrown' as [e|]; by do 2 eexists.
Qed.

Lemma tryEnds_total runner path_ w0 : exists ts thrown, tryEnds runner path_ w0 ts thrown.
Proof.
  assert (Hsetup : (exists w1 e,
                      setupFiles (config runner) <> []
                      /\ runSetupFiles (config runner) (setupFiles (config runner)) runner w0
                         = (w1, inl e))
                   \/ exists w1 d, setupReturns runner w0 w1 d).
  { unfold setupReturns.
    destruct (Nat.eqb (length (setupFiles (config runner))) 0) eqn:Hlen.
    - right. by exists w0, 0%Z.
    - destruct (runSetupFiles (config runner) (setupFiles (config runner)) runner w0)
        as [w1 [e|[]]] eqn:Hrun.
      + left. exists w1, e. split; [|done]. intros Hnil. by rewrite Hnil in Hlen.
      + right. by do 2 eexists. }
  destruct Hsetup as [(w1 & e & Hfiles & Hrun)|(w1 & d & Hsetup)].
  { exists [], (Some e). by eapply setup_failure. }
  destruct (importFile runner path_ w1) as [w2 [e|[]]] eqn:Himport.
  { exists [], (Some e). by eapply import_error. }
  destruct (defaultSuiteCollect (underConstruction runner path_ d []) w2)
    as [w3 [e|defaultTasks]] eqn:Hdefault.
  { exists [], (Some e). by eapply default_suite_throws. }
  destruct (resolves_total runner path_ d
              (map RegTask (collected_tasks defaultTasks) ++ contextTasks w3) [] w3)
    as (ts & w4 & thrown & Hloop).
  exists ts, thrown. by eapply registered_resolved.
Qed.

(** *** One round *)

Lemma fileSuite_finishFile cfg f :
  fileSuite (finishFile cfg f)
  = interpretTaskModes (testNamePattern cfg)
      (someTasksAreOnly (tasks_of (calculateSuiteHash (fileSuite f)))) (allowOnly cfg)
      false [] (calculateSuiteHash (fileSuite f)).
Proof. reflexivity. Qed.

Lemma collectFile_tryEnds runner path_ w ts thrown :
  hookReturns runner ->
  tryEnds runner path_ (tryWorld runner path_ w) ts thrown ->
  exists w' file,
    collectFile runner path_ w = (w', inr file)
    /\ filepath file = path_
    /\ result (file_base file) = failureOf <$> thrown
    /\ fileSuite file
       = (let hashed :=
            calculateSuiteHash
              (SuiteTask (set_result (failureOf <$> thrown)
                            (file_base (newFile runner path_))) ts) in
          interpretTaskModes (testNamePattern (config runner))
            (someTasksAreOnly (tasks_of hashed)) (allowOnly (config runner)) false []
            hashed)
    /\ (testNamePattern (config runner) = None ->
        forallb allRun ts = true ->
        mode (file_base file) = run
        /\ file_tasks file = forEachIndexed (hashTask (task_id (file_base file))) 0 ts
        /\ forallb allRun (file_tasks file) = true).
Proof.
  intros Hhook Htry.
  destruct (collectBody_tryEnds _ _ _ _ _ Htry) as (built & w1 & Hbody & Hbase & Htasks & Hpath).
  unfold collectFile. fold (newFile runner path_).
  assert (Hstart :
    match onCollectStart runner with
    | Some hook => hook (newFile runner path_) w
    | None => (w, inr tt)
    end
    = (match onCollectStart runner with
       | Some hook => (hook (newFile runner path_) w).1
       | None => w
       end, inr tt)).
  { destruct (onCollectStart runner) as [hook|] eqn:Hh; [|done].
    destruct (Hhook hook (newFile runner path_) w Hh) as [w' ->]. done. }
  rewrite Hstart. fold (tryWorld runner path_ w). rewrite Hbody.
  set (ended := match thrown with
                | Some e => recordFailure e built
                | None => built
                end).
  assert (Hended : file_base ended
                   = set_result (failureOf <$> thrown) (file_base (newFile runner path_))
                   /\ file_tasks ended = ts /\ filepath ended = path_).
  { subst ended. destruct thrown as [e|]; cbn; rewrite ?Hbase; by repeat split. }
  destruct Hended as (Hb & Ht & Hp).
  assert (Hrun : mode (file_base ended) = run) by (by rewrite Hb).
  exists w1, (finishFile (config runner) ended).
  split; [by destruct thrown|].
  destruct (finishFile_header (config runner) ended Hrun) as (H1 & H2 & _ & _).
  split; [by rewrite H1|]. split; [by rewrite H2, Hb|].
  split; [by rewrite fileSuite_finishFile; unfold fileSuite; rewrite Hb, Ht|].
  intros Hnp Hall. rewrite <- Ht in Hall |- *.
  destruct (finishFile_allRun (config runner) ended Hnp Hrun Hall) as (H3 & H4 & H5).
  by repeat split.
Qed.

(** *** The batch *)

Lemma collectFile_returns runner path_ w :
  hookReturns runner ->
  exists w' file, collectFile runner path_ w = (w', inr file) /\ filepath file = path_.
Proof.
  intros Hhook.
  destruct (tryEnds_total runner path_ (tryWorld runner path_ w)) as (ts & thrown & Htry).
  destruct (collectFile_tryEnds _ _ _ _ _ Hhook Htry) as (w' & file & Hrun & Hpath & _).
  by exists w', file.
Qed.

Lemma collectLoop_returns runner paths : forall w,
  hookReturns runner ->
  exists w' collected,
    (forall files, collectLoop runner paths files w = (w', inr (files ++ collected)))
    /\ map filepath collected = paths.
Proof.
  induction paths as [|path_ rest IH]; intros w Hhook.
  - exists w, []. split; [|done]. intros files. cbn. by rewrite app_nil_r.
  - destruct (collectFile_returns runner path_ w Hhook) as (w1 & file & Hfile & Hpath).
    destruct (IH w1 Hhook) as (w' & collected & Hrest & Hpaths).
    exists w', (file :: collected). split; [|by cbn; rewrite Hpath, Hpaths].
    intros files. cbn [collectLoop]. rewrite Hfile, Hrest. by rewrite <- app_assoc.
Qed.

Lemma collectLoop_app runner before : forall after files w w1 files1,
  collectLoop runner before files w = (w1, inr files1) ->
  collectLoop runner (before ++ after) files w = collectLoop runner after files1 w1.
Proof.
  induction before as [|path_ rest IH]; intros after files w w1 files1; cbn [collectLoop app].
  - by intros [= <- <-].
  - destruct (collectFile runner path_ w) as [w2 [e|file]]; [done|]. apply IH.
Qed.

(** C3. The [onCollectStart] hook, which runs outside the [try]
    statement, is taken to return. For every batch of paths and every
    world, [collectTests] returns one File per path, in order: the batch
    never aborts. The Files are collected independently: the File of a
    path is the one that its own round makes in the world that the rounds
    before it left, whatever these rounds threw, and the rounds after it
    go on from the world that it leaves. The [try] statement of a round
    ends in one of four ways: the setup files throw, the import of the
    file throws, the default suite throws, or the registered entries are
    gone through, a collector among them throwing or not. In each case the
    File of the round carries the path; its result is
    [{state: 'fail', errors: [processError(e)]}] when [e] was thrown and
    is absent when nothing was thrown; and its tree is made of the tasks
    that were pushed before the throw, or of all the registered tasks and
    resolved suites when nothing was thrown, hashed and interpreted. In
    particular, when the pushed tasks are all in mode 'run' and no name
    pattern is set, the File is in mode 'run' and holds exactly these
    tasks, hashed and still in mode 'run'. *)
Theorem file_isolation runner :
  hookReturns runner ->
  (forall paths w, exists w' files,
      collectTests paths runner w = (w', inr files) /\ map filepath files = paths)
  /\ (forall before path_ after w, exists w1 files1 w2 file w3 files2,
      collectTests before runner w = (w1, inr files1)
      /\ collectFile runner path_ w1 = (w2, inr file)
      /\ collectTests after runner w2 = (w3, inr files2)
      /\ collectTests (before ++ path_ :: after) runner w
         = (w3, inr (files1 ++ file :: files2)))
  /\ (forall path_ w, exists ts thrown,
      tryEnds runner path_ (tryWorld runner path_ w) ts thrown)
  /\ (forall path_ w ts thrown,
      tryEnds runner path_ (tryWorld runner path_ w) ts thrown ->
      exists w' file,
        collectFile runner path_ w = (w', inr file)
        /\ filepath file = path_
        /\ result (file_base file) = failureOf <$> thrown
        /\ fileSuite file
           = (let hashed :=
                calculateSuiteHash
                  (SuiteTask (set_result (failureOf <$> thrown)
                                (file_base (newFile runner path_))) ts) in
              interpretTaskModes (testNamePattern (config runner))
                (someTasksAreOnly (tasks_of hashed)) (allowOnly (config runner)) false []
                hashed)
        /\ (testNamePattern (config runner) = None ->
            forallb allRun ts = true ->
            mode (file_base file) = run
            /\ file_tasks file = forEachIndexed (hashTask (task_id (file_base file))) 0 ts
            /\ forallb allRun (file_tasks file) = true)).
Proof.
  intros Hhook. split; [|split; [|split]].
  - intros paths w. unfold collectTests.
    destruct (collectLoop_returns runner paths w Hhook) as (w' & files & Hrun & Hpaths).
    exists w', files. by rewrite Hrun.
  - intros before path_ after w. unfold collectTests.
    destruct (collectLoop_returns runner before w Hhook) as (w1 & files1 & Hrun1 & _).
    destruct (collectFile_returns runner path_ w1 Hhook) as (w2 & file & Hfile & _).
    destruct (collectLoop_returns runner after w2 Hhook) as (w3 & files2 & Hrun2 & _).
    exists w1, files1, w2, file, w3, files2.
    split; [by rewrite Hrun1|]. split; [exact Hfile|]. split; [by rewrite Hrun2|].
    rewrite (collectLoop_app _ _ _ _ _ _ _ (Hrun1 [])). cbn [collectLoop app].
    rewrite Hfile, Hrun2. by rewrite <- app_assoc.
  - intros path_ w. apply tryEnds_total.
  - intros path_ w ts thrown. by apply collectFile_tryEnds.
Qed.

End CollectProperties.

(** ** handleFileChanged *)

Section WalkProperties.
Context `{!NodeHost}.
Implicit Types (v : Vitest) (file : string) (files : list string).

(** *** Array.from(new Set(array)) *)

Lemma arrayFromSet_fold (l : list string) : forall seen,
  NoDup seen ->
  let out := fold_left (fun seen x => if bool_decide (x ∈ seen) then seen else seen ++ [x])
               l seen in
  NoDup out /\ (forall x, x ∈ out <-> x ∈ seen \/ x ∈ l) /\ seen `prefix_of` out.
Proof.
  induction l as [|y l IH]; intros seen Hseen; cbn [fold_left].
  - split; [done|]. split; [|done]. intros x. rewrite elem_of_nil. tauto.
  - destruct (bool_decide (y ∈ seen)) eqn:Hy.
    + apply bool_decide_eq_true in Hy.
      destruct (IH seen Hseen) as (Hnd & Hin & Hpre). split; [done|]. split; [|done].
      intros x. rewrite Hin, elem_of_cons. split; [tauto|].
      intros [Hx|[->|Hx]]; tauto.
    + apply bool_decide_eq_false in Hy.
      destruct (IH (seen ++ [y])) as (Hnd & Hin & Hpre).
      { apply NoDup_app. split; [done|]. split; [|apply NoDup_singleton].
        intros x Hx Hx'. apply list_elem_of_singleton in Hx'. by subst. }
      split; [done|]. split.
      * intros x. rewrite Hin, elem_of_app, list_elem_of_singleton, elem_of_cons. tauto.
      * etrans; [|exact Hpre]. by apply prefix_app_r.
Qed.

Lemma NoDup_arrayFromSet (l : list string) : NoDup (arrayFromSet l).
Proof. apply (arrayFromSet_fold l []). constructor. Qed.

Lemma elem_of_arrayFromSet (l : list string) x : x ∈ arrayFromSet l <-> x ∈ l.
Proof.
  destruct (arrayFromSet_fold l [] (NoDup_nil_2 : NoDup [])) as (_ & Hin & _).
  unfold arrayFromSet. rewrite Hin, elem_of_nil. tauto.
Qed.
Implicit Types (project : WorkspaceProject).

Lemma grows_refl v : grows v v.
Proof. by repeat split. Qed.

Lemma grows_trans v1 v2 v3 : grows v1 v2 -> grows v2 v3 -> grows v1 v3.
Proof.
  intros (Hp & Hf & Ht & Hi & Hc) (Hp' & Hf' & Ht' & Hi' & Hc').
  repeat split; [congruence|congruence|congruence|set_solver|set_solver].
Qed.

Lemma grows_graphFiles v v' : grows v v' -> graphFiles v' = graphFiles v.
Proof. intros (Hp & _). unfold graphFiles. by rewrite Hp. Qed.

(** A total loop body that keeps an invariant makes a total loop that
    keeps it. *)
Lemma forEachM_total {S A : Type} (Q : S -> Prop) (body : S -> A -> option S)
    (l : list A) (s : S) :
  Q s ->
  (forall s x, Q s -> x ∈ l -> exists s', body s x = Some s' /\ Q s') ->
  exists s', forEachM body s l = Some s' /\ Q s'.
Proof.
  revert s. induction l as [|x l IH]; intros s Hs Hbody; cbn [forEachM]; [by eauto|].
  destruct (Hbody s x Hs) as (s1 & -> & Hs1); [by left|].
  apply IH; [done|]. intros s2 y Hs2 Hy. apply Hbody; [done|by right].
Qed.

Lemma forEachM_invariant {S A : Type} (Q : S -> Prop) (body : S -> A -> option S)
    (l : list A) (s s' : S) :
  (forall s x s', Q s -> x ∈ l -> body s x = Some s' -> Q s') ->
  Q s -> forEachM body s l = Some s' -> Q s'.
Proof.
  revert s. induction l as [|x l IH]; intros s Hbody Hs; cbn [forEachM].
  - by intros [= <-].
  - destruct (body s x) as [s1|] eqn:Hx; [|done].
    apply IH; [|by eapply Hbody; [| left |]].
    intros s2 y s3 Hs2 Hy. apply Hbody; [done|by right].
Qed.

(** *** The guard *)

Lemma handleFileChanged_guard fuel v file :
  file ∈ changedTests v \/ file ∈ invalidates v ->
  handleFileChanged (S fuel) v file = Some (v, []).
Proof.
  intros Hin. cbn [handleFileChanged].
  destruct Hin as [Hin|Hin]; rewrite (bool_decide_eq_true_2 _ Hin); [done|].
  by rewrite orb_true_r.
Qed.

(** *** Termination *)

Lemma getModuleProjects_spec v file project :
  project ∈ getModuleProjects v file ->
  project ∈ projects v /\ file ∈ dom (modules project).
Proof.
  unfold getModuleProjects. rewrite list_elem_of_filter. intros [Hlen Hin].
  split; [done|]. apply elem_of_dom. unfold getModulesByFilepath in Hlen.
  destruct (modules project !! file); [by eexists|done].
Qed.

Lemma graphFiles_spec v file project :
  project ∈ projects v -> file ∈ dom (modules project) -> file ∈ graphFiles v.
Proof.
  intros Hp Hf. unfold graphFiles. apply elem_of_union_list.
  exists (dom (modules project)). split; [|done].
  apply list_elem_of_fmap. by exists project.
Qed.

(** Invalidating one more graph file leaves fewer files to invalidate. *)
Lemma fewer_unvisited (U inv inv' : gset string) (file : string) :
  file ∈ U -> file ∉ inv -> {[file]} ∪ inv ⊆ inv' ->
  size (U ∖ inv') < size (U ∖ inv).
Proof.
  intros HU Hinv Hsub. apply subset_size, strict_spec. split; [set_solver|].
  intros Hback. assert (Hin : file ∈ U ∖ inv) by set_solver.
  apply Hback in Hin. set_solver.
Qed.

Section Steps.
(** The recursion is assumed to return, with a grown state, on every
    state in which [file0] is invalidated and that has grown from
    [v0]: this is what the induction on the fuel provides. *)
Variables (recur : Vitest -> string -> option (Vitest * list string)).
Variables (v0 : Vitest) (file0 : string).

Local Abbreviation ready := (readyFor v0 file0).

Hypothesis recur_returns : forall v file,
  ready v -> exists v' files, recur v file = Some (v', files) /\ grows v v'.

Lemma ready_grows v v' : ready v -> grows v v' -> ready v'.
Proof.
  intros [Hg Hin] Hg'. split; [by eapply grows_trans|].
  destruct Hg' as (_ & _ & _ & Hsub & _). set_solver.
Qed.

Lemma visitImporter_returns v rerun i :
  ready v ->
  exists v' rerun', visitImporter recur (v, rerun) i = Some (v', rerun') /\ ready v'.
Proof.
  intros Hv. unfold visitImporter.
  destruct i as [file|]; [|by eauto].
  destruct file as [|a file]; [by eauto|].
  destruct (recur_returns v (String a file) Hv) as (v' & files & -> & Hg).
  do 2 eexists. split; [reflexivity|]. by eapply ready_grows.
Qed.

Lemma visitModule_returns v rerun mod_ :
  ready v ->
  exists v' rerun', visitModule recur (v, rerun) mod_ = Some (v', rerun') /\ ready v'.
Proof.
  intros Hv. unfold visitModule.
  destruct (forEachM_total (fun s => ready s.1) (visitImporter recur)
              (importers mod_) (v, rerun)) as ([v' rerun'] & Hrun & Hready); [done| |by eauto].
  intros [v1 r1] i Hv1 _.
  destruct (visitImporter_returns v1 r1 i Hv1) as (v2 & r2 & ? & ?).
  by exists (v2, r2).
Qed.

Lemma visitProject_returns v files project :
  grows v0 v ->
  exists v' files',
    visitProject recur file0 (v, files) project = Some (v', files')
    /\ grows v0 v'
    /\ (Nat.eqb (length (getModulesByFilepath project file0)) 0 = false ->
        file0 ∈ invalidates v').
Proof.
  intros Hv. unfold visitProject.
  destruct (Nat.eqb (length (getModulesByFilepath project file0)) 0) eqn:Hlen.
  { do 2 eexists. split; [reflexivity|]. by split. }
  set (v1 := setInvalidates ({[file0]} ∪ invalidates v) v).
  assert (Hv1 : ready v1).
  { split; [|cbn; set_solver].
    eapply grows_trans; [exact Hv|]. repeat split; cbn; set_solver. }
  destruct (bool_decide (file0 ∈ filesMap v1) || isTestFile project file0).
  - do 2 eexists. split; [reflexivity|].
    destruct Hv1 as [Hg Hin]. split; [|by intros _; cbn].
    eapply grows_trans; [exact Hg|]. repeat split; cbn; set_solver.
  - destruct (forEachM_total (fun s => ready s.1) (visitModule recur)
                (getModulesByFilepath project file0) (v1, false))
      as ([v' rerun'] & -> & [Hg Hin]); [done| |by eauto].
    intros [v2 r2] m Hv2 _.
    destruct (visitModule_returns v2 r2 m Hv2) as (v3 & r3 & ? & ?).
    by exists (v3, r3).
Qed.
End Steps.

Lemma handleFileChanged_returns fuel : forall v file,
  size (graphFiles v ∖ invalidates v) < fuel ->
  exists v' files, handleFileChanged fuel v file = Some (v', files) /\ grows v v'.
Proof.
  induction fuel as [|fuel IH]; intros v file Hfuel; [lia|].
  cbn [handleFileChanged].
  destruct (bool_decide (file ∈ changedTests v) || bool_decide (file ∈ invalidates v))
    eqn:Hguard; [by eauto using grows_refl|].
  apply orb_false_iff in Hguard as [_ Hinv]. apply bool_decide_eq_false in Hinv.
  destruct (isMatch file (forceRerunTriggers v)).
  { do 2 eexists. split; [reflexivity|]. repeat split; cbn; set_solver. }
  destruct (Nat.eqb (length (getModuleProjects v file)) 0) eqn:Hnone.
  { destruct (_ || _); do 2 eexists; (split; [reflexivity|]);
      [repeat split; cbn; set_solver|apply grows_refl]. }
  assert (Hgraph : file ∈ graphFiles v).
  { destruct (getModuleProjects v file) as [|project rest] eqn:Hps; [done|].
    assert (Hin : project ∈ getModuleProjects v file) by (rewrite Hps; by left).
    apply getModuleProjects_spec in Hin as [Hp Hdom]. by eapply graphFiles_spec. }
  assert (Hrec : forall v4 file4, readyFor v file v4 ->
            exists v' files, handleFileChanged fuel v4 file4 = Some (v', files)
                             /\ grows v4 v').
  { intros v4 file4 [Hg4 Hin4]. apply IH.
    rewrite (grows_graphFiles _ _ Hg4).
    assert (size (graphFiles v ∖ invalidates v4) < size (graphFiles v ∖ invalidates v));
      [|lia].
    apply (fewer_unvisited _ _ _ file); [done|done|].
    destruct Hg4 as (_ & _ & _ & Hsub & _). set_solver. }
  set (v1 := noteWalked file v).
  assert (Hv1 : grows v v1) by (by repeat split).
  destruct (forEachM_total (fun s => grows v s.1)
              (visitProject (handleFileChanged fuel) file)
              (getModuleProjects v file) (v1, []))
    as ([v' files] & -> & Hg); [done| |by eauto].
  intros [v2 files2] project Hv2 _. cbn [fst] in Hv2.
  destruct (visitProject_returns (handleFileChanged fuel) v file Hrec v2 files2 project Hv2)
    as (v3 & files3 & ? & ? & _).
  by exists (v3, files3).
Qed.

(** *** More fuel changes nothing *)

Lemma forEachM_mono {S A : Type} (body body' : S -> A -> option S) (l : list A) :
  (forall s x s', body s x = Some s' -> body' s x = Some s') ->
  forall s s', forEachM body s l = Some s' -> forEachM body' s l = Some s'.
Proof.
  intros Hbody. induction l as [|x l IH]; intros s s'; cbn [forEachM]; [done|].
  destruct (body s x) as [s1|] eqn:Hx; [|done].
  rewrite (Hbody _ _ _ Hx). apply IH.
Qed.

Lemma visitProject_mono (recur recur' : Vitest -> string -> option (Vitest * list string)) :
  (forall v file r, recur v file = Some r -> recur' v file = Some r) ->
  forall file s project s',
    visitProject recur file s project = Some s' ->
    visitProject recur' file s project = Some s'.
Proof.
  intros Hrec file [v files] project s'. unfold visitProject.
  destruct (Nat.eqb _ 0); [done|]. destruct (_ || _); [done|].
  set (v1 := setInvalidates _ _).
  destruct (forEachM (visitModule recur) (v1, false) _) as [s1|] eqn:Hrun; [|done].
  erewrite (forEachM_mono (visitModule recur) (visitModule recur')); [done| |exact Hrun].
  intros s m s2. unfold visitModule. apply forEachM_mono.
  intros [v2 r2] i s3. unfold visitImporter.
  destruct i as [[|a f]|]; try done.
  destruct (recur v2 (String a f)) as [r|] eqn:Hr; [|done].
  by rewrite (Hrec _ _ _ Hr).
Qed.

Lemma handleFileChanged_more_fuel fuel : forall fuel' v file r,
  fuel <= fuel' ->
  handleFileChanged fuel v file = Some r ->
  handleFileChanged fuel' v file = Some r.
Proof.
  induction fuel as [|fuel IH]; intros fuel' v file r Hle; [done|].
  destruct fuel' as [|fuel']; [lia|]. cbn [handleFileChanged].
  destruct (_ || _); [done|]. destruct (isMatch _ _); [done|].
  destruct (Nat.eqb _ 0); [done|].
  destruct (forEachM (visitProject (handleFileChanged fuel) file) _ _) as [s|] eqn:Hrun;
    [|done].
  erewrite forEachM_mono; [done| |exact Hrun].
  apply visitProject_mono. intros v2 f2 r2. apply IH. lia.
Qed.

(** *** No path is walked twice *)

Lemma walkedOnce_setInvalidates v (inv : gset string) :
  invalidates v ⊆ inv -> walkedOnce v -> walkedOnce (setInvalidates inv v).
Proof. intros Hsub [Hnd Hin]. split; [done|]. cbn. set_solver. Qed.

Lemma walkedOnce_setChangedTests v (changed : gset string) :
  walkedOnce v -> walkedOnce (setChangedTests changed v).
Proof. by intros [Hnd Hin]. Qed.

Lemma walkedOnce_start v file :
  walkedOnce v -> file ∉ invalidates v ->
  walkedOnce (setInvalidates ({[file]} ∪ invalidates (noteWalked file v)) (noteWalked file v)).
Proof.
  intros [Hnd Hin] Hfile. split; cbn.
  - apply NoDup_cons. split; [|done]. intros Hw. by apply Hfile, Hin.
  - intros x Hx. apply elem_of_cons in Hx as [->|Hx]; [set_solver|].
    apply elem_of_union_r. by apply Hin.
Qed.

Section Once.
Variable recur : Vitest -> string -> option (Vitest * list string).
Hypothesis recur_once : forall v file v' files,
  recur v file = Some (v', files) -> walkedOnce v -> walkedOnce v'.

Lemma visitModule_once s mod_ s' :
  visitModule recur s mod_ = Some s' -> walkedOnce s.1 -> walkedOnce s'.1.
Proof.
  unfold visitModule. intros Hrun Hs.
  eapply (forEachM_invariant (fun s => walkedOnce s.1)); [|exact Hs|exact Hrun].
  intros [v r] i s2 Hv _. unfold visitImporter.
  destruct i as [[|a f]|]; try (by intros [= <-]).
  destruct (recur v (String a f)) as [[v2 fs]|] eqn:Hr; [|done].
  intros [= <-]. by eapply recur_once.
Qed.

(** From the invalidation of [file] on, the body of the loop over the
    projects keeps the record in order. *)
Lemma visitProject_once file v files project s' :
  Nat.eqb (length (getModulesByFilepath project file)) 0 = false ->
  walkedOnce (setInvalidates ({[file]} ∪ invalidates v) v) ->
  visitProject recur file (v, files) project = Some s' ->
  walkedOnce s'.1.
Proof.
  intros Hlen Hv1. unfold visitProject. rewrite Hlen.
  destruct (_ || _).
  - intros [= <-]. by apply walkedOnce_setChangedTests.
  - destruct (forEachM _ _ _) as [[v2 rerun]|] eqn:Hrun; [|done].
    intros [= <-]. cbn [fst].
    eapply (forEachM_invariant (fun s => walkedOnce s.1)) in Hrun; [exact Hrun| |exact Hv1].
    intros s m s2 Hs _ Hm. by eapply visitModule_once.
Qed.
End Once.

Lemma getModuleProjects_nonempty v file project :
  project ∈ getModuleProjects v file ->
  Nat.eqb (length (getModulesByFilepath project file)) 0 = false.
Proof.
  unfold getModuleProjects. rewrite list_elem_of_filter. intros [Hlen _].
  by apply Nat.eqb_neq.
Qed.

Lemma handleFileChanged_once fuel : forall v file v' files,
  handleFileChanged fuel v file = Some (v', files) ->
  walkedOnce v -> walkedOnce v'.
Proof.
  induction fuel as [|fuel IH]; intros v file v' files; [done|].
  cbn [handleFileChanged].
  destruct (bool_decide (file ∈ changedTests v) || bool_decide (file ∈ invalidates v))
    eqn:Hguard; [by intros [= <- <-]|].
  apply orb_false_iff in Hguard as [_ Hinv]. apply bool_decide_eq_false in Hinv.
  destruct (isMatch _ _); [by intros [= <- <-]; apply walkedOnce_setChangedTests|].
  destruct (Nat.eqb _ 0) eqn:Hnone.
  { destruct (_ || _); intros [= <- <-]; [by apply walkedOnce_setChangedTests|done]. }
  destruct (getModuleProjects v file) as [|project rest] eqn:Hps; [done|].
  cbn [forEachM].
  destruct (visitProject _ file (noteWalked file v, []) project) as [[v1 files1]|] eqn:H1;
    [|done].
  destruct (forEachM _ (v1, files1) rest) as [[v2 files2]|] eqn:H2; [|done].
  intros [= <- <-] Hv.
  assert (Hv1 : walkedOnce v1).
  { apply (visitProject_once _ IH file (noteWalked file v) [] project (v1, files1));
      [|by apply walkedOnce_start|done].
    apply (getModuleProjects_nonempty v). rewrite Hps. by left. }
  eapply (forEachM_invariant (fun s => walkedOnce s.1)) in H2; [exact H2| |exact Hv1].
  intros [v3 files3] project3 s3 Hv3 Hin3 Hrun3.
  apply (visitProject_once _ IH file v3 files3 project3 s3); [| |done].
  - apply (getModuleProjects_nonempty v). rewrite Hps. by right.
  - apply walkedOnce_setInvalidates; [set_solver|done].
Qed.

(** *** The record of walked paths is a ghost *)

Lemma forEachM_simulation {S A : Type} (R : S -> S -> Prop) (body1 body2 : S -> A -> option S)
    (l : list A) :
  (forall s1 s2 x, R s1 s2 -> option_Forall2 R (body1 s1 x) (body2 s2 x)) ->
  forall s1 s2, R s1 s2 -> option_Forall2 R (forEachM body1 s1 l) (forEachM body2 s2 l).
Proof.
  intros Hbody. induction l as [|x l IH]; intros s1 s2 Hs; cbn [forEachM].
  - by constructor.
  - destruct (Hbody s1 s2 x Hs) as [s1' s2' Hs'|]; [by apply IH|constructor].
Qed.

Lemma sameButWalked_fields v1 v2 :
  sameButWalked v1 v2 ->
  projects v1 = projects v2 /\ forceRerunTriggers v1 = forceRerunTriggers v2
  /\ filesMap v1 = filesMap v2 /\ invalidates v1 = invalidates v2
  /\ changedTests v1 = changedTests v2.
Proof. unfold sameButWalked, forgetWalked. by intros [= -> _ -> _ -> -> ->]. Qed.

Lemma sameButWalked_setInvalidates v1 v2 (inv : gset string) :
  sameButWalked v1 v2 -> sameButWalked (setInvalidates inv v1) (setInvalidates inv v2).
Proof. unfold sameButWalked, forgetWalked. cbn. intros [=]. by f_equal. Qed.

Lemma sameButWalked_setChangedTests v1 v2 (changed : gset string) :
  sameButWalked v1 v2 -> sameButWalked (setChangedTests changed v1) (setChangedTests changed v2).
Proof. unfold sameButWalked, forgetWalked. cbn. intros [=]. by f_equal. Qed.

Lemma sameButWalked_noteWalked v1 v2 file1 file2 :
  sameButWalked v1 v2 -> sameButWalked (noteWalked file1 v1) (noteWalked file2 v2).
Proof. unfold sameButWalked, forgetWalked. cbn. intros [=]. by f_equal. Qed.

(** Two runs of the walk from instances that differ in the ghost record at
    most end alike: both run out of fuel, or both return, with the same
    list and with instances that differ in the ghost record at most. *)
Lemma handleFileChanged_ghost fuel : forall v1 v2 file,
  sameButWalked v1 v2 ->
  option_Forall2 (fun r1 r2 => sameButWalked r1.1 r2.1 /\ r1.2 = r2.2)
    (handleFileChanged fuel v1 file) (handleFileChanged fuel v2 file).
Proof.
  induction fuel as [|fuel IH]; intros v1 v2 file Hv; [constructor|].
  cbn [handleFileChanged].
  destruct (sameButWalked_fields _ _ Hv) as (Hp & Ht & Hf & Hi & Hc).
  unfold getModuleProjects. rewrite Hp, Ht, Hf, Hi, Hc.
  destruct (_ || _); [by constructor|].
  destruct (isMatch _ _).
  { constructor. split; [|done]. cbn [fst]. by apply sameButWalked_setChangedTests. }
  destruct (Nat.eqb _ 0).
  { destruct (_ || _); constructor; (split; [|done]); cbn [fst];
      [by apply sameButWalked_setChangedTests|done]. }
  set (R := fun (T : Type) (s1 s2 : Vitest * T) => sameButWalked s1.1 s2.1 /\ s1.2 = s2.2).
  assert (Hloop : option_Forall2 (R (list string))
            (forEachM (visitProject (handleFileChanged fuel) file) (noteWalked file v1, [])
               (filter (fun project => length (getModulesByFilepath project file) <> 0)
                  (projects v2)))
            (forEachM (visitProject (handleFileChanged fuel) file) (noteWalked file v2, [])
               (filter (fun project => length (getModulesByFilepath project file) <> 0)
                  (projects v2)))).
  { apply forEachM_simulation; [|by split; [apply sameButWalked_noteWalked|]].
    intros [u1 fs1] [u2 fs2] project [Hu Hfs]. cbn [fst snd] in Hu, Hfs. subst fs2.
    unfold visitProject. destruct (Nat.eqb _ 0); [by constructor|].
    destruct (sameButWalked_fields _ _ Hu) as (_ & _ & Hf' & Hi' & Hc').
    cbn [filesMap setInvalidates changedTests]. rewrite Hf', Hi', Hc'.
    destruct (_ || _).
    { constructor. split; [|done]. cbn [fst].
      by apply sameButWalked_setChangedTests, sameButWalked_setInvalidates. }
    assert (Hmods : option_Forall2 (R bool)
              (forEachM (visitModule (handleFileChanged fuel))
                 (setInvalidates ({[file]} ∪ invalidates u2) u1, false)
                 (getModulesByFilepath project file))
              (forEachM (visitModule (handleFileChanged fuel))
                 (setInvalidates ({[file]} ∪ invalidates u2) u2, false)
                 (getModulesByFilepath project file))).
    { apply forEachM_simulation; [|by split; [apply sameButWalked_setInvalidates|]].
      intros s1 s2 m Hs. unfold visitModule.
      apply forEachM_simulation; [|exact Hs].
      intros [x1 r1] [x2 r2] i [Hx Hr]. cbn [fst snd] in Hx, Hr. subst r2.
      unfold visitImporter. destruct i as [[|a f]|]; try (by constructor).
      destruct (IH x1 x2 (String a f) Hx) as [[y1 h1] [y2 h2] [Hy Hh]|]; [|constructor].
      cbn [fst snd] in Hy, Hh. subst h2. by constructor. }
    destruct Hmods as [[y1 r1] [y2 r2] [Hy Hr]|]; [|constructor].
    cbn [fst snd] in Hy, Hr. subst r2. by constructor. }
  destruct Hloop as [[y1 fs1] [y2 fs2] [Hy Hfs]|]; [|constructor].
  cbn [fst snd] in Hy, Hfs. subst fs2. by constructor.
Qed.

(** *** A path is invalidated before its importers are visited *)

Lemma forEachM_ext_on {S A : Type} (Q : S -> Prop) (body body' : S -> A -> option S)
    (l : list A) :
  (forall s x, Q s -> body s x = body' s x) ->
  (forall s x s', Q s -> body s x = Some s' -> Q s') ->
  forall s, Q s -> forEachM body s l = forEachM body' s l.
Proof.
  intros Hsame Hkeep. induction l as [|x l IH]; intros s Hs; cbn [forEachM]; [done|].
  rewrite <- (Hsame s x Hs). destruct (body s x) as [s1|] eqn:Hx; [|done].
  apply IH. by eapply Hkeep.
Qed.

Lemma grows_setInvalidates v file : grows v (setInvalidates ({[file]} ∪ invalidates v) v).
Proof. repeat split; cbn; set_solver. Qed.

Lemma grows_setChangedTests v (more : gset string) :
  grows v (setChangedTests (more ∪ changedTests v) v).
Proof. repeat split; cbn; set_solver. Qed.

Section Growth.
Variable recur : Vitest -> string -> option (Vitest * list string).
Hypothesis recur_grows : forall v file v' files,
  recur v file = Some (v', files) -> grows v v'.

Lemma visitImporter_grows s i s' :
  visitImporter recur s i = Some s' -> grows s.1 s'.1.
Proof.
  destruct s as [v rerun]. unfold visitImporter.
  destruct i as [[|a f]|]; try (intros [= <-]; apply grows_refl).
  destruct (recur v (String a f)) as [[v2 fs]|] eqn:Hr; [|done].
  intros [= <-]. by eapply recur_grows.
Qed.

Lemma visitModule_grows s mod_ s' :
  visitModule recur s mod_ = Some s' -> grows s.1 s'.1.
Proof.
  unfold visitModule. intros Hrun.
  eapply (forEachM_invariant (fun s1 => grows s.1 s1.1)); [|apply grows_refl|exact Hrun].
  intros s1 i s2 Hs1 _ Hi. eapply grows_trans; [exact Hs1|by eapply visitImporter_grows].
Qed.

Lemma visitProject_grows file s project s' :
  visitProject recur file s project = Some s' -> grows s.1 s'.1.
Proof.
  destruct s as [v files]. unfold visitProject.
  destruct (Nat.eqb _ 0); [intros [= <-]; apply grows_refl|].
  set (v1 := setInvalidates _ v).
  assert (Hv1 : grows v v1) by apply grows_setInvalidates.
  destruct (_ || _).
  - intros [= <-]. cbn [fst]. eapply grows_trans; [exact Hv1|].
    apply (grows_setChangedTests v1 {[file]}).
  - destruct (forEachM _ _ _) as [[v2 rerun]|] eqn:Hrun; [|done].
    intros [= <-]. cbn [fst].
    eapply (forEachM_invariant (fun s1 => grows v s1.1)) in Hrun; [exact Hrun| |exact Hv1].
    intros s1 m s2 Hs1 _ Hm. eapply grows_trans; [exact Hs1|by eapply visitModule_grows].
Qed.
End Growth.

Lemma handleFileChanged_grows fuel : forall v file v' files,
  handleFileChanged fuel v file = Some (v', files) -> grows v v'.
Proof.
  induction fuel as [|fuel IH]; intros v file v' files; [done|].
  cbn [handleFileChanged].
  destruct (_ || _); [intros [= <- <-]; apply grows_refl|].
  destruct (isMatch _ _); [intros [= <- <-]; apply (grows_setChangedTests v (filesMap v))|].
  destruct (Nat.eqb _ 0).
  { destruct (_ || _); intros [= <- <-];
      [apply (grows_setChangedTests v {[file]})|apply grows_refl]. }
  destruct (forEachM _ _ _) as [[v2 files2]|] eqn:Hrun; [|done].
  intros [= <- <-].
  eapply (forEachM_invariant (fun s1 => grows v s1.1)) in Hrun; [exact Hrun| |by repeat split].
  intros s1 project s2 Hs1 _ Hp. eapply grows_trans; [exact Hs1|].
  by eapply (visitProject_grows _ IH).
Qed.

(** The walk of the importers of [file] only calls [handleFileChanged] in
    states in which [file] has been invalidated: refusing every other call
    changes nothing. *)
Lemma visitProject_invalidates_first fuel file s project :
  visitProject (handleFileChanged fuel) file s project
  = visitProject (whenInvalidated file (handleFileChanged fuel)) file s project.
Proof.
  destruct s as [v files]. unfold visitProject.
  destruct (Nat.eqb _ 0); [done|].
  set (v1 := setInvalidates _ v). destruct (_ || _); [done|].
  assert (Hv1 : file ∈ invalidates v1) by (cbn; set_solver).
  assert (Himp : forall s1 i, file ∈ invalidates s1.1 ->
            visitImporter (handleFileChanged fuel) s1 i
            = visitImporter (whenInvalidated file (handleFileChanged fuel)) s1 i).
  { intros [v2 r2] i Hin. unfold visitImporter, whenInvalidated.
    by rewrite (bool_decide_eq_true_2 _ Hin). }
  assert (Hkeep : forall s1 s2 : Vitest * bool, grows s1.1 s2.1 ->
            file ∈ invalidates s1.1 -> file ∈ invalidates s2.1).
  { intros s1 s2 (_ & _ & _ & Hsub & _) Hin. set_solver. }
  erewrite (forEachM_ext_on (fun s1 : Vitest * bool => file ∈ invalidates s1.1));
    [done| | |exact Hv1].
  - intros s1 m Hs1. unfold visitModule.
    apply (forEachM_ext_on (fun s2 : Vitest * bool => file ∈ invalidates s2.1));
      [exact Himp| |exact Hs1].
    intros s2 i s3 Hs2 Hi. eapply Hkeep; [|exact Hs2].
    by eapply (visitImporter_grows _ (handleFileChanged_grows fuel)).
  - intros s1 m s2 Hs1 Hm. eapply Hkeep; [|exact Hs1].
    by eapply (visitModule_grows _ (handleFileChanged_grows fuel)).
Qed.

End WalkProperties.

Section WatchClaims.
Context `{!NodeHost}.
Implicit Types (v : Vitest) (file : string) (files : list string).

(** C8. [handleFileChanged] returns on every importer graph, cyclic or
    not: fuel one above the number of graph files not yet invalidated is
    enough, and more fuel gives the same result; the pending sets only
    grow. A path already in the changed-tests set or in the invalidated
    set returns at once with an empty result and an unchanged instance.
    A path is invalidated before its importers are visited: the walk calls
    [handleFileChanged] on an importer only in states in which the path
    has been invalidated. When the record of walked paths is in order (no
    path twice, every walked path invalidated), it is so again after the
    call: no path is walked twice. An importer without [file] is skipped
    without any effect. *)
Theorem handleFileChanged_terminates v file :
  (exists v' files,
      handleFileChanged (enoughFuel v) v file = Some (v', files) /\ grows v v')
  /\ (forall fuel fuel' r,
      fuel <= fuel' ->
      handleFileChanged fuel v file = Some r ->
      handleFileChanged fuel' v file = Some r)
  /\ (file ∈ changedTests v \/ file ∈ invalidates v ->
      forall fuel, handleFileChanged (S fuel) v file = Some (v, []))
  /\ (forall fuel s project,
      visitProject (handleFileChanged fuel) file s project
      = visitProject (whenInvalidated file (handleFileChanged fuel)) file s project)
  /\ (walkedOnce v ->
      forall fuel v' files,
        handleFileChanged fuel v file = Some (v', files) -> walkedOnce v')
  /\ (forall recur s,
      visitImporter recur s None = Some s /\ visitImporter recur s (Some "") = Some s).
Proof.
  split; [apply handleFileChanged_returns; unfold enoughFuel; lia|].
  split; [intros fuel fuel' r; apply handleFileChanged_more_fuel|].
  split; [intros Hin fuel; by apply handleFileChanged_guard|].
  split; [intros fuel s project; apply visitProject_invalidates_first|].
  split; [intros Hv fuel v' files Hrun; by eapply handleFileChanged_once|].
  by intros recur [v0 rerun].
Qed.

Lemma size_zero_empty (X : gset string) : Nat.eqb (size X) 0 = true <-> X = ∅.
Proof.
  rewrite Nat.eqb_eq. split.
  - intros Hs. by apply leibniz_equiv, size_empty_iff.
  - intros ->. apply size_empty.
Qed.

(** C9, as amended. When a watch-tests restriction is active and the timer
    fires, the pending changed-tests set is first intersected with the
    watched set, and the callback goes on with the intersection alone. If
    the intersection is empty, no run is started, the pending changed-tests
    set is left empty and the pending invalidation set is cleared; nothing
    else of the instance changes. If it is not empty and the server has
    restarted since the timer was armed, no run is started and the
    intersection is what stays pending. Otherwise the first-run flag and
    the snapshot state are cleared, and the files of the intersection that
    the filename pattern, when one is set, lets through are rerun, each
    once, and the pending changed-tests set is emptied; when the pattern
    lets none of them through, no run is started and the intersection
    stays pending. *)
Theorem watched_rerun (timer : RerunTimer) v :
  size (watchedTests v) <> 0 ->
  let pending := changedTests v ∩ watchedTests v in
  let fired := rerunTimerFired timer v in
  let passes file :=
    match truthy (filenamePattern v) with
    | Some pattern => file ∈ globTestFiles [pattern]
    | None => True
    end in
  (pending = ∅ -> fired = (setInvalidates ∅ (setChangedTests ∅ v), None))
  /\ (pending <> ∅ -> restartsCount v <> currentCount timer ->
      fired = (setChangedTests pending v, None))
  /\ (pending <> ∅ -> restartsCount v = currentCount timer ->
      let v1 := clearSnapshot (setIsFirstRun false (setChangedTests pending v)) in
      match fired.2 with
      | Some r =>
          fired.1 = setChangedTests ∅ v1
          /\ rerun_files r <> []
          /\ NoDup (rerun_files r)
          /\ (forall file, file ∈ rerun_files r <-> file ∈ pending /\ passes file)
      | None =>
          fired.1 = v1 /\ (forall file, file ∈ pending -> ~ passes file)
      end).
Proof.
  intros Hwatched pending fired passes. apply Nat.eqb_neq in Hwatched.
  subst fired. unfold rerunTimerFired. rewrite Hwatched.
  assert (Hpending : filter (fun test => test ∈ watchedTests v) (changedTests v) = pending).
  { apply set_eq. intros x. unfold pending. rewrite elem_of_filter. set_solver. }
  rewrite Hpending.
  set (v0 := setChangedTests pending v).
  change (changedTests v0) with pending.
  destruct (Nat.eqb (size pending) 0) eqn:Hsize.
  { apply size_zero_empty in Hsize. split; [|by split].
    intros _. subst v0. by rewrite Hsize. }
  assert (Hne : pending <> ∅).
  { intros Hempty. apply size_zero_empty in Hempty. congruence. }
  split; [done|].
  change (restartsCount v0) with (restartsCount v).
  destruct (Nat.eqb (restartsCount v) (currentCount timer)) eqn:Hcount; cbn [negb].
  { apply Nat.eqb_eq in Hcount. split; [done|]. intros _ _. cbn zeta.
    set (v1 := clearSnapshot (setIsFirstRun false v0)).
    change (changedTests v1) with pending.
    change (filenamePattern v1) with (filenamePattern v).
    assert (Hfiles : forall x, x ∈ elements pending <-> x ∈ pending)
      by (intros x; apply elem_of_elements).
    assert (Hsome : elements pending <> []).
    { intros Hnil. apply elements_empty_inv in Hnil. by apply leibniz_equiv in Hnil. }
    subst passes. cbn beta.
    destruct (truthy (filenamePattern v)) as [pattern|].
    - destruct (filter _ (elements pending)) as [|x rest] eqn:Hfilter.
      + cbn [fst snd]. split; [done|]. intros file Hin Hpass.
        assert (Hx : file ∈ filter (fun file => file ∈ globTestFiles [pattern])
                             (elements pending)).
        { apply list_elem_of_filter. by rewrite Hfiles. }
        rewrite Hfilter in Hx. by apply elem_of_nil in Hx.
      + cbn [fst snd default rerun_files]. split; [done|]. split; [done|].
        rewrite <- Hfilter. split; [apply NoDup_filter, NoDup_elements|].
        intros file. unfold id. rewrite list_elem_of_filter, Hfiles. tauto.
    - cbn [fst snd default rerun_files]. split; [done|]. split; [done|].
      split; [apply NoDup_elements|]. intros file. rewrite Hfiles. tauto. }
  apply Nat.eqb_neq in Hcount. split; [done|]. by intros _ Heq.
Qed.

End WatchClaims.

(** ** The properties on the worked examples *)

Section Worked.
Import Examples.

Local Abbreviation TaskS := (@Task string).

(** C1, as first stated, fails on the scenario of the specification:
    suite S1 is in mode 'run', is not marked 'only' and has no ancestor
    under 'only', and yet it is still in mode 'run' after the call, because
    it holds the 'only' test t2. It also fails below a suite that is
    skipped as a whole, when a suite in between is not in mode 'run': a
    test in mode 'run' under a skipped suite inside a skipped suite is
    still in mode 'run', and so is a test in mode 'run' under a 'todo'
    suite inside a suite in mode 'run' that holds no 'only' task. *)
Lemma only_propagation_counterexample :
  taskAt [0] (scenario : TaskS) = Some (aSuite "S1" run [aTest "t1" run; aTest "t2" only])
  /\ mode (base (scenario : TaskS)) <> only
  /\ someTasksAreOnly (tasks_of (scenario : TaskS)) = true
  /\ modeAt [0] (interpretTaskModes None true true false [] (scenario : TaskS)) = Some run
  /\ taskAt [0; 0; 0] (skippedNest : TaskS) = Some (aTest "t" run)
  /\ Forall (fun a : TaskS => mode (base a) <> only) (ancestorsAlong [0; 0; 0] skippedNest)
  /\ someTasksAreOnly (tasks_of (skippedNest : TaskS)) = true
  /\ modeAt [0; 0; 0] (interpretTaskModes None true true false [] (skippedNest : TaskS))
     = Some run
  /\ taskAt [0; 0; 0] (todoNest : TaskS) = Some (aTest "t" run)
  /\ Forall (fun a : TaskS => mode (base a) <> only) (ancestorsAlong [0; 0; 0] todoNest)
  /\ someTasksAreOnly (tasks_of (todoNest : TaskS)) = true
  /\ modeAt [0; 0; 0] (interpretTaskModes None true true false [] (todoNest : TaskS))
     = Some run.
Proof. repeat split; try done; by repeat constructor. Qed.

Lemma only_propagation_witness :
  (exists t' : TaskS,
     taskAt [0; 0] (interpretTaskModes None true true false [] scenario) = Some t'
     /\ mode (base t') = skip)
  /\ (exists t' : TaskS,
        taskAt [0; 0] (interpretTaskModes None true true false [] skippedFirst) = Some t'
        /\ mode (base t') = skip)
  /\ (exists t' : TaskS,
        taskAt [0; 0; 0] (interpretTaskModes None true true false [] skippedNest) = Some t'
        /\ mode (base t') = run).
Proof.
  split; [|split].
  - destruct (only_propagation None true [] (scenario : TaskS) [0; 0] (aTest "t1" run))
      as (t' & Hat & Hmode);
      [done|done|reflexivity|reflexivity|repeat constructor; done|].
    exists t'. split; [exact Hat|exact Hmode].
  - destruct (only_propagation None true [] (skippedFirst : TaskS) [0; 0] (aTest "t" run))
      as (t' & Hat & Hmode);
      [done|done|reflexivity|reflexivity|repeat constructor; done|].
    exists t'. split; [exact Hat|exact Hmode].
  - destruct (only_propagation None true [] (skippedNest : TaskS) [0; 0; 0] (aTest "t" run))
      as (t' & Hat & Hmode);
      [done|done|reflexivity|reflexivity|repeat constructor; done|].
    exists t'. split; [exact Hat|exact Hmode].
Defined.

(** C2, as first stated, fails: after the call suite A is in mode 'skip'
    and the test below it is still in mode 'todo'; and below a skipped
    suite that holds a skipped suite, a test is still in mode 'run'. *)
Lemma skip_propagation_counterexample :
  (let out := interpretTaskModes None false true false [] (skippedWithTodo : TaskS) in
   modeAt [0] out = Some skip /\ modeAt [0; 0] out = Some todo)
  /\ (let out := interpretTaskModes None true true false [] (skippedNest : TaskS) in
      modeAt [0] out = Some skip /\ modeAt [0; 0; 0] out = Some run).
Proof. by repeat split. Qed.

Lemma skip_propagation_witness :
  mode (base (aTest "t3" skip : TaskS)) <> run.
Proof.
  apply (skip_propagation None true true false [] (scenario : TaskS) [1] [0]
           (aSuite "S2" run [aTest "t3" run]) (aSuite "S2" skip [aTest "t3" skip]));
    [reflexivity|reflexivity|reflexivity|done|constructor|done|constructor|reflexivity].
Defined.

(** C4, as first stated, fails: with a name pattern that rejects its name,
    a test marked 'only' is given the failure and ends in mode 'skip', not
    in mode 'run'; and so does, without any pattern, a suite marked 'only'
    whose one test is skipped. *)
Lemma allow_only_gate_counterexample :
  (let out := interpretTaskModes (Some (PatRegExp (literalRegExp "other"))) true false false []
                (loneOnly : TaskS) in
   taskAt [0] (loneOnly : TaskS) = Some (aTest "t" only)
   /\ modeAt [0] out = Some skip
   /\ (fun c => result (base c)) <$> taskAt [0] out = Some (Some failedOnly))
  /\ (let out := interpretTaskModes None true false false [] (onlySuiteOfSkipped : TaskS) in
      modeAt [0] (onlySuiteOfSkipped : TaskS) = Some only
      /\ modeAt [0] out = Some skip
      /\ (fun c => result (base c)) <$> taskAt [0] out = Some (Some failedOnly)).
Proof. by repeat split. Qed.

Lemma allow_only_gate_witness :
  exists t' : TaskS,
    tasks_of (interpretTaskModes None true false false [] (loneOnly : TaskS)) !! 0 = Some t'
    /\ result (base t') = Some failedOnly
    /\ mode (base t') = run.
Proof.
  destruct (allow_only_gate None false false [] (base (loneOnly : TaskS))
              (tasks_of (loneOnly : TaskS)) 0 (aTest "t" only))
    as (t' & Hat & Hres & Hmode); [reflexivity|reflexivity|].
  exists t'. by repeat split.
Defined.

Lemma name_filter_witness :
  modeAt [0]
    (interpretTaskModes (Some (PatString "A C")) true true false ["A"]
       (aSuite "A" run [aTest "B" run] : TaskS)) = Some skip.
Proof.
  apply (proj1 name_filter (Some (PatString "A C")) true true false ["A"]
           (mkBase "" "A" run None) [aTest "B" run] 0 (mkBase "" "B" run None));
    reflexivity.
Defined.

Lemma name_pattern_overrides_only_witness :
  modeAt [0]
    (interpretTaskModes (Some (PatRegExp (literalRegExp "other"))) true true false []
       (loneOnly : TaskS)) = Some skip.
Proof.
  apply (name_pattern_overrides_only (Some (PatRegExp (literalRegExp "other"))) false []
           (base (loneOnly : TaskS)) (tasks_of (loneOnly : TaskS)) 0
           (mkBase "" "t" only None)); reflexivity.
Defined.

Lemma calculateSuiteHash_positional_ids_witness :
  idAt [0; 1] (calculateSuiteHash (scenario : TaskS))
  = idAt [0; 1] (calculateSuiteHash (aSuite "other" skip
                   [aSuite "X" todo [aTest "p" skip; aTest "q" run];
                    aSuite "Y" run [aTest "z" todo]]
                   : TaskS))
  /\ task_id (base (hashTask "" 1 (aSuite "S2" run [aTest "t3" run] : TaskS)))
     <> task_id (base (hashTask "" 0 (aSuite "S2" run [aTest "t3" run] : TaskS))).
Proof.
  destruct (@calculateSuiteHash_positional_ids string) as (_ & _ & _ & Hsame & Hswap).
  split.
  - apply Hsame; reflexivity.
  - destruct (Hswap (base (scenario : TaskS)) (tasks_of (scenario : TaskS)) 0 1
                (aSuite "S1" run [aTest "t1" run; aTest "t2" only])
                (aSuite "S2" run [aTest "t3" run]))
      as (_ & _ & _ & _ & _ & Hdiff); [lia|reflexivity|reflexivity|exact Hdiff].
Defined.

(** Of a batch of two files, the first of which throws on import, both
    Files are returned: the first with the failure, the second with its
    test collected, in mode 'run'. *)
Lemma collectTests_bad_then_good :
  exists bad good,
    collectTests ["bad.test.ts"; "good.test.ts"] exampleRunner tt = (tt, inr [bad; good])
    /\ result (file_base bad) = Some {| state := state_fail; errors := ["boom"] |}
    /\ result (file_base good) = None
    /\ mode (file_base good) = run
    /\ (fun c : TaskS => (name (base c), mode (base c))) <$> file_tasks good
       = [("works", run)].
Proof. do 2 eexists. split; [vm_compute; reflexivity|]. by repeat split. Qed.

Lemma file_isolation_witness :
  hookReturns exampleRunner
  /\ (exists w' file,
        collectFile exampleRunner "bad.test.ts" tt = (w', inr file)
        /\ result (file_base file) = Some {| state := state_fail; errors := ["boom"] |}
        /\ file_tasks file = [])
  /\ (exists w' file,
        collectFile exampleRunner "good.test.ts" tt = (w', inr file)
        /\ result (file_base file) = None
        /\ mode (file_base file) = run
        /\ file_tasks file
           = forEachIndexed (hashTask (task_id (file_base file))) 0 [aTest "works" run]).
Proof.
  assert (Hhook : hookReturns exampleRunner) by (intros hook file w [=]).
  destruct (file_isolation exampleRunner Hhook) as (_ & _ & _ & Hround).
  split; [exact Hhook|]. split.
  - destruct (Hround "bad.test.ts" tt [] (Some "boom"))
      as (w' & file & Hrun & _ & Hres & _ & Hall).
    { apply (import_error _ _ _ tt 0%Z tt); [by split|reflexivity]. }
    exists w', file. split; [exact Hrun|]. split; [exact Hres|].
    by destruct (Hall eq_refl eq_refl) as (_ & -> & _).
  - destruct (Hround "good.test.ts" tt [aTest "works" run] None)
      as (w' & file & Hrun & _ & Hres & _ & Hall).
    { apply (registered_resolved _ _ _ tt 0%Z tt tt
               {| collected_base := mkBase "" "" run None;
                  collected_tasks := [aTest "works" run];
                  collected_hooks := createSuiteHooks |} _ tt);
        [by split|reflexivity|reflexivity|].
      apply resolves_task, resolves_done. }
    destruct (Hall eq_refl eq_refl) as (Hmode & Htasks & _).
    exists w', file. by repeat split.
Defined.

(** A change of a.ts, on the cyclic graph: a.test.ts is marked changed,
    the three files are invalidated, each is walked once, and a.ts needs
    a rerun. *)
Lemma handleFileChanged_on_cycle :
  exists v',
    handleFileChanged (enoughFuel idleVitest) idleVitest "a.ts" = Some (v', ["a.ts"])
    /\ changedTests v' = {[ "a.test.ts" ]}
    /\ invalidates v' = {[ "a.ts"; "b.ts"; "a.test.ts" ]}
    /\ walked v' = ["a.test.ts"; "b.ts"; "a.ts"].
Proof. eexists. split; [vm_compute; reflexivity|]. by repeat split; vm_compute. Qed.

Lemma handleFileChanged_terminates_witness :
  walkedOnce idleVitest
  /\ exists v' files,
       handleFileChanged (enoughFuel idleVitest) idleVitest "a.ts" = Some (v', files)
       /\ walkedOnce v'.
Proof.
  assert (Hidle : walkedOnce idleVitest).
  { split; [constructor|]. intros x Hx. by apply elem_of_nil in Hx. }
  split; [exact Hidle|].
  destruct (handleFileChanged_terminates idleVitest "a.ts")
    as ((v' & files & Hrun & _) & _ & _ & _ & Honce & _).
  exists v', files. split; [exact Hrun|]. exact (Honce Hidle _ _ _ Hrun).
Defined.

(** C9, as first stated, fails: only a.test.ts is watched and only
    b.test.ts changed; when the timer fires no run is started, and the two
    pending invalidations are gone. *)
Lemma watched_rerun_counterexample :
  let fired := rerunTimerFired (mkTimer 0 ["b.test.ts"]) restrictedVitest in
  watchedTests restrictedVitest = {[ "a.test.ts" ]}
  /\ changedTests restrictedVitest = {[ "b.test.ts" ]}
  /\ invalidates restrictedVitest = {[ "b.test.ts"; "util.ts" ]}
  /\ size (invalidates restrictedVitest) = 2
  /\ fired.2 = None
  /\ invalidates fired.1 = ∅.
Proof. repeat split; vm_compute; reflexivity. Qed.

Lemma watched_rerun_witness :
  size (watchedTests restrictedVitest) <> 0
  /\ rerunTimerFired (mkTimer 0 ["b.test.ts"]) restrictedVitest
     = (setInvalidates ∅ (setChangedTests ∅ restrictedVitest), None)
  /\ size (watchedTests overlappingVitest) <> 0
  /\ exists r,
       (rerunTimerFired (mkTimer 0 ["b.test.ts"]) overlappingVitest).2 = Some r
       /\ forall file, file ∈ rerun_files r <-> file = "a.test.ts".
Proof.
  assert (Hactive : size (watchedTests restrictedVitest) <> 0) by (vm_compute; lia).
  assert (Hactive' : size (watchedTests overlappingVitest) <> 0) by (vm_compute; lia).
  split; [exact Hactive|]. split; [|split; [exact Hactive'|]].
  - apply (proj1 (watched_rerun (mkTimer 0 ["b.test.ts"]) restrictedVitest Hactive)).
    vm_compute. reflexivity.
  - assert (Hpending : changedTests overlappingVitest ∩ watchedTests overlappingVitest
                       = {[ "a.test.ts" ]}) by (vm_compute; reflexivity).
    pose proof (proj2 (proj2 (watched_rerun (mkTimer 0 ["b.test.ts"]) overlappingVitest
                                Hactive))) as Hfired.
    cbn zeta in Hfired. rewrite Hpending in Hfired.
    assert (Hne : ({[ "a.test.ts" ]} : gset string) <> ∅).
    { intros Hempty. assert (Hin : "a.test.ts" ∈ (∅ : gset string))
        by (rewrite <- Hempty; by apply elem_of_singleton).
      by apply elem_of_empty in Hin. }
    specialize (Hfired Hne eq_refl).
    destruct ((rerunTimerFired (mkTimer 0 ["b.test.ts"]) overlappingVitest).2)
      as [r|] eqn:Hr.
    + exists r. split; [reflexivity|]. destruct Hfired as (_ & _ & _ & Hfiles).
      intros file. rewrite Hfiles, elem_of_singleton. cbn. tauto.
    + exfalso. destruct Hfired as [_ Hnone].
      apply (Hnone "a.test.ts"); [by apply elem_of_singleton|exact I].
Defined.

End Worked.

(** * Further properties

    Properties of the code beyond those that the specification states. *)

(** ** interpretTaskModes, someTasksAreOnly, skipAllTasks *)

Section MoreModeProperties.
Context {Thrown TestError : Type} `{!Host Thrown TestError}.
Implicit Types (t c d root suite : @Task TestError) (ts : list (@Task TestError)).
Implicit Types (b : @TaskBase TestError) (p q : list nat) (chain : list string).
Implicit Types (namePattern : option NamePattern).

(** *** The shape of the tree *)

Lemma leafType_eqb_refl ty : leafType_eqb ty ty = true.
Proof. by destruct ty. Qed.

Lemma sameStructure_map (f : @Task TestError -> @Task TestError) b b' ts :
  Forall (fun c => sameStructure c (f c) = true) ts ->
  sameStructure (SuiteTask b ts) (SuiteTask b' (map f ts)) = true.
Proof.
  cbn [sameStructure]. intros Hall.
  induction Hall as [|c l Hc _ IH]; cbn [map]; [done|]. by rewrite Hc, IH.
Qed.

Lemma sameStructure_refl t : sameStructure t t = true.
Proof.
  induction t as [ty b|b ts IH] using Task_ind; [apply leafType_eqb_refl|].
  rewrite <- (map_id ts) at 2. by apply sameStructure_map.
Qed.

Lemma skipTask_sameStructure t : sameStructure t (skipTask t) = true.
Proof.
  induction t as [ty b|b ts IH] using Task_ind; cbn [skipTask base];
    destruct (mode_eqb (mode b) run); try apply sameStructure_refl.
  - apply leafType_eqb_refl.
  - by apply sameStructure_map.
Qed.

Lemma eachTask_sameStructure namePattern onlyMode allowOnly t : forall suiteIsOnly chain,
  sameStructure t (eachTask namePattern onlyMode allowOnly suiteIsOnly chain t) = true.
Proof.
  induction t as [ty b|b ts IH] using Task_ind; intros suiteIsOnly chain.
  - destruct (eachTask_leaf namePattern onlyMode allowOnly suiteIsOnly chain ty b)
      as [b' ->]. apply leafType_eqb_refl.
  - rewrite eachTask_suite. cbn zeta.
    destruct (mode_eqb _ skip).
    + apply sameStructure_map, Forall_forall. intros c _. apply skipTask_sameStructure.
    + cbn [interpretTaskModes]. unfold interpretWith. apply sameStructure_map.
      eapply Forall_impl; [exact IH|]. intros c Hc. apply Hc.
Qed.

(** A field of a task that neither a change of mode nor [checkAllowOnly]
    writes is, at every position, what it was. *)
Section Untouched.
Context {A : Type} (g : @TaskBase TestError -> A).
Hypothesis g_set_mode : forall m b, g (set_mode m b) = g b.

Lemma skipTask_field p : forall t,
  (fun c => g (base c)) <$> taskAt p (skipTask t) = (fun c => g (base c)) <$> taskAt p t.
Proof.
  induction p as [|i q IH]; intros t.
  - destruct t as [ty b|b ts]; cbn [skipTask base taskAt];
      destruct (mode_eqb (mode b) run); cbn [fmap option_fmap option_map base];
      by rewrite ?g_set_mode.
  - destruct t as [ty b|b ts]; cbn [skipTask base];
      destruct (mode_eqb (mode b) run); try done.
    rewrite !taskAt_cons. cbn [tasks_of]. rewrite list_lookup_fmap.
    destruct (ts !! i) as [c|]; [|done]. cbn [fmap option_fmap option_map]. apply IH.
Qed.

Lemma collapse_field b ts : g (collapse b ts) = g b.
Proof. unfold collapse. by destruct (_ && _). Qed.

Hypothesis g_set_result : forall r b, g (set_result r b) = g b.

Lemma onlyStep_field onlyMode allowOnly includeTask isSuite hasOnly b :
  g (onlyStep onlyMode allowOnly includeTask isSuite hasOnly b) = g b.
Proof.
  unfold onlyStep, checkAllowOnly.
  repeat (match goal with |- context [if ?x then _ else _] => destruct x end);
    by rewrite ?g_set_mode, ?g_set_result.
Qed.

Lemma eachTask_field namePattern onlyMode allowOnly p : forall t suiteIsOnly chain,
  (fun c => g (base c)) <$> taskAt p (eachTask namePattern onlyMode allowOnly suiteIsOnly chain t)
  = (fun c => g (base c)) <$> taskAt p t.
Proof.
  induction p as [|i q IH]; intros t suiteIsOnly chain.
  - destruct t as [ty b|b ts].
    + cbn [eachTask base taskAt]. destruct ty; [destruct (patternRejects _ _)|];
        cbn [fmap option_fmap option_map base];
        by rewrite ?g_set_mode, onlyStep_field.
    + rewrite eachTask_suite. cbn zeta. destruct (mode_eqb _ skip).
      * cbn [taskAt fmap option_fmap option_map base]. by rewrite onlyStep_field.
      * cbn [interpretTaskModes]. unfold interpretWith.
        cbn [taskAt fmap option_fmap option_map base].
        by rewrite collapse_field, onlyStep_field.
  - destruct t as [ty b|b ts].
    + destruct (eachTask_leaf namePattern onlyMode allowOnly suiteIsOnly chain ty b)
        as [b' ->]. by destruct i.
    + rewrite eachTask_suite. cbn zeta. destruct (mode_eqb _ skip).
      * rewrite !taskAt_cons. cbn [tasks_of]. unfold skipAllTasks.
        rewrite list_lookup_fmap. destruct (ts !! i) as [c|]; [|done].
        cbn [fmap option_fmap option_map]. apply skipTask_field.
      * rewrite taskAt_cons, interpretTaskModes_tasks, taskAt_cons. cbn [tasks_of].
        destruct (ts !! i) as [c|]; [|done]. cbn [fmap option_fmap option_map]. apply IH.
Qed.

Lemma interpretTaskModes_field namePattern onlyMode allowOnly parentIsOnly chain suite p :
  (fun c => g (base c))
    <$> taskAt p (interpretTaskModes namePattern onlyMode allowOnly parentIsOnly chain suite)
  = (fun c => g (base c)) <$> taskAt p suite.
Proof.
  destruct suite as [ty b|b ts]; [done|]. destruct p as [|i q].
  - cbn [interpretTaskModes]. unfold interpretWith.
    cbn [taskAt fmap option_fmap option_map base]. by rewrite collapse_field.
  - rewrite taskAt_cons, interpretTaskModes_tasks, taskAt_cons. cbn [tasks_of].
    destruct (ts !! i) as [c|]; [|done]. cbn [fmap option_fmap option_map].
    apply eachTask_field.
Qed.
End Untouched.

(** X1: [interpretTaskModes] rewrites modes and results only: the tree
    that it returns has the structure of the one it was given, and at
    every position the task has the id and the name that it had. *)
Theorem interpretTaskModes_keeps_shape namePattern onlyMode allowOnly parentIsOnly chain suite :
  let out := interpretTaskModes namePattern onlyMode allowOnly parentIsOnly chain suite in
  sameStructure suite out = true
  /\ forall p, idAt p out = idAt p suite /\ nameAt p out = nameAt p suite.
Proof.
  cbn zeta. split.
  - destruct suite as [ty b|b ts]; [apply sameStructure_refl|].
    cbn [interpretTaskModes]. unfold interpretWith. apply sameStructure_map, Forall_forall.
    intros c _. apply eachTask_sameStructure.
  - intros p. split.
    + apply (interpretTaskModes_field (fun b => task_id b)); done.
    + apply (interpretTaskModes_field (fun b => name b)); done.
Qed.

(** *** Results *)

(** *** Modes *)

Lemma skipTask_run_was_run p : forall t,
  modeAt p (skipTask t) = Some run -> modeAt p t = Some run.
Proof.
  induction p as [|i q IH]; intros t.
  - intros Hrun. pose proof (skipTask_not_run t) as Hnot.
    unfold modeAt in Hrun. cbn [taskAt fmap option_fmap option_map] in Hrun.
    by injection Hrun as Hrun.
  - destruct t as [ty b|b ts]; cbn [skipTask base];
      destruct (mode_eqb (mode b) run); try done.
    rewrite !modeAt_cons. cbn [tasks_of]. rewrite list_lookup_fmap.
    destruct (ts !! i) as [c|]; [|done]. cbn [fmap option_fmap option_map]. apply IH.
Qed.

Lemma onlyStep_to_run onlyMode allowOnly includeTask isSuite hasOnly b :
  mode (onlyStep onlyMode allowOnly includeTask isSuite hasOnly b) = run ->
  mode b = run \/ (onlyMode = true /\ mode b = only).
Proof.
  destruct (mode_eqb (mode b) only) eqn:Hm.
  - apply mode_eqb_eq in Hm. rewrite onlyStep_only by done.
    destruct onlyMode; [by right|]. by rewrite Hm.
  - unfold onlyStep. rewrite Hm.
    repeat (match goal with |- context [if ?x then _ else _] => destruct x end);
      cbn [set_mode mode]; intros; try done; by left.
Qed.

Lemma collapse_to_run b ts : mode (collapse b ts) = run -> mode b = run.
Proof. unfold collapse. by destruct (_ && _). Qed.

Lemma eachTask_root_to_run namePattern onlyMode allowOnly suiteIsOnly chain t :
  mode (base (eachTask namePattern onlyMode allowOnly suiteIsOnly chain t)) = run ->
  mode (base t) = run \/ (onlyMode = true /\ mode (base t) = only).
Proof.
  destruct t as [ty b|b ts].
  - cbn [eachTask base]. destruct ty; [destruct (patternRejects _ _)|];
      cbn [base set_mode mode]; try done; apply onlyStep_to_run.
  - rewrite eachTask_suite. cbn zeta. destruct (mode_eqb _ skip) eqn:Hskip.
    + cbn [base]. apply onlyStep_to_run.
    + cbn [interpretTaskModes]. unfold interpretWith. cbn [base].
      intros Hrun. apply collapse_to_run in Hrun. by apply onlyStep_to_run in Hrun.
Qed.

Lemma eachTask_to_run namePattern onlyMode allowOnly p : forall t suiteIsOnly chain,
  modeAt p (eachTask namePattern onlyMode allowOnly suiteIsOnly chain t) = Some run ->
  modeAt p t = Some run \/ (onlyMode = true /\ modeAt p t = Some only).
Proof.
  induction p as [|i q IH]; intros t suiteIsOnly chain.
  - unfold modeAt. cbn [taskAt fmap option_fmap option_map]. intros [= Hrun].
    apply eachTask_root_to_run in Hrun as [-> | [-> ->]]; [by left|by right].
  - destruct t as [ty b|b ts].
    + destruct (eachTask_leaf namePattern onlyMode allowOnly suiteIsOnly chain ty b)
        as [b' ->]. by destruct i.
    + rewrite eachTask_suite. cbn zeta. destruct (mode_eqb _ skip).
      * rewrite !modeAt_cons. cbn [tasks_of]. unfold skipAllTasks.
        rewrite list_lookup_fmap. destruct (ts !! i) as [c|]; [|done].
        cbn [fmap option_fmap option_map]. intros Hrun. left.
        by apply skipTask_run_was_run.
      * rewrite modeAt_cons, interpretTaskModes_tasks, modeAt_cons. cbn [tasks_of].
        destruct (ts !! i) as [c|]; [|done]. cbn [fmap option_fmap option_map].
        apply IH.
Qed.

(** X3: [interpretTaskModes] never sets a task running that was marked
    'skip' or 'todo': a task that it leaves in mode 'run' was in mode
    'run', or it was marked 'only' and some task of the tree is 'only'
    ([onlyMode]). *)
Theorem run_was_run_or_only namePattern onlyMode allowOnly parentIsOnly chain suite p :
  modeAt p (interpretTaskModes namePattern onlyMode allowOnly parentIsOnly chain suite)
  = Some run ->
  modeAt p suite = Some run \/ (onlyMode = true /\ modeAt p suite = Some only).
Proof.
  destruct suite as [ty b|b ts]; [by left|]. destruct p as [|i q].
  - unfold modeAt. cbn [interpretTaskModes]. unfold interpretWith.
    cbn [taskAt fmap option_fmap option_map base]. intros [= Hrun].
    apply collapse_to_run in Hrun. left. by rewrite Hrun.
  - rewrite modeAt_cons, interpretTaskModes_tasks, modeAt_cons. cbn [tasks_of].
    destruct (ts !! i) as [c|]; [|done]. cbn [fmap option_fmap option_map].
    apply eachTask_to_run.
Qed.

(** *** The 'only' filter, from the side of what is left running *)

Lemma onlyStep_not_only allowOnly includeTask isSuite hasOnly b :
  mode (onlyStep true allowOnly includeTask isSuite hasOnly b) <> only.
Proof.
  destruct (mode_eqb (mode b) only) eqn:Hm.
  - apply mode_eqb_eq in Hm. by rewrite onlyStep_only.
  - apply mode_eqb_neq in Hm. unfold onlyStep.
    repeat (match goal with |- context [if ?x then _ else _] => destruct x end);
      cbn [set_mode mode]; done.
Qed.

Lemma onlyStep_leaf_run allowOnly includeTask b :
  mode (onlyStep true allowOnly includeTask false false b) = run ->
  includeTask = true \/ mode b = only.
Proof.
  unfold onlyStep. cbn [andb].
  destruct (mode_eqb (mode b) run) eqn:Hrun; cbn [andb].
  - destruct includeTask; [by left|]. cbn [negb set_mode mode]. done.
  - destruct (mode_eqb (mode b) only) eqn:Hm.
    + right. by apply mode_eqb_eq.
    + intros H'. apply mode_eqb_neq in Hrun. done.
Qed.

Lemma eachTask_only_sound namePattern allowOnly q : forall c suiteIsOnly chain ty b',
  taskAt q (eachTask namePattern true allowOnly suiteIsOnly chain c) = Some (Leaf ty b') ->
  mode b' = run ->
  Forall (fun a => mode (base a) <> skip)
    (ancestorsAlong q (eachTask namePattern true allowOnly suiteIsOnly chain c)) ->
  suiteIsOnly = true
  \/ Exists (fun a => mode (base a) = only) (ancestorsAlong q c)
  \/ modeAt q c = Some only.
Proof.
  induction q as [|i q IH]; intros c suiteIsOnly chain ty b' Hat Hrun Hanc.
  - cbn [taskAt] in Hat. injection Hat as Hat.
    destruct c as [ty0 b|b ts].
    + assert (Hb : mode (onlyStep true allowOnly (suiteIsOnly || mode_eqb (mode b) only)
                           false false b) = run).
      { cbn [eachTask] in Hat. destruct ty0; [destruct (patternRejects _ _)|];
          injection Hat as _ <-; cbn [set_mode mode] in Hrun; done. }
      apply onlyStep_leaf_run in Hb as [Hb|Hb].
      * apply orb_true_iff in Hb as [Hb|Hb]; [by left|].
        right. right. apply mode_eqb_eq in Hb. unfold modeAt. cbn. by rewrite Hb.
      * right. right. unfold modeAt. cbn. by rewrite Hb.
    + rewrite eachTask_suite in Hat. cbn zeta in Hat.
      destruct (mode_eqb _ skip); [done|]. cbn [interpretTaskModes] in Hat.
      unfold interpretWith in Hat. done.
  - cbn [ancestorsAlong] in Hanc. apply Forall_cons in Hanc as [Hout Hanc].
    destruct c as [ty0 b|b ts].
    + destruct (eachTask_leaf namePattern true allowOnly suiteIsOnly chain ty0 b)
        as [b0 Hb0]. rewrite Hb0 in Hat. by destruct i.
    + rewrite eachTask_suite in *. cbn zeta in *.
      set (b1 := onlyStep _ _ _ _ _ _) in *.
      destruct (mode_eqb (mode b1) skip) eqn:Hb1.
      * cbn [base] in Hout. by apply mode_eqb_eq in Hb1.
      * rewrite taskAt_cons, interpretTaskModes_tasks in Hat.
        rewrite interpretTaskModes_tasks in Hanc.
        cbn [ancestorsAlong tasks_of]. rewrite modeAt_cons. cbn [tasks_of].
        destruct (ts !! i) as [c'|]; [|done].
        cbn [fmap option_fmap option_map] in *.
        destruct (IH _ _ _ _ _ Hat Hrun Hanc) as [Hsio|[Hex|Hm]].
        -- apply orb_true_iff in Hsio as [Hsio|Hsio].
           ++ apply orb_true_iff in Hsio as [Hsio|Hsio]; [by left|].
              right. left. apply Exists_cons_hd. by apply mode_eqb_eq.
           ++ apply mode_eqb_eq in Hsio. by apply onlyStep_not_only in Hsio.
        -- right. left. by apply Exists_cons_tl.
        -- by right; right.
Qed.

(** X4: when some task of the tree is 'only' ([onlyMode]), a test or
    custom task that is left in mode 'run', with no suite in mode 'skip'
    between it and the root, was included: it was marked 'only', or a
    suite above it was, or the root was entered with [parentIsOnly]. *)
Theorem only_filter_sound namePattern allowOnly parentIsOnly chain b ts p ty b' :
  let root := SuiteTask b ts in
  let out := interpretTaskModes namePattern true allowOnly parentIsOnly chain root in
  taskAt p out = Some (Leaf ty b') ->
  mode b' = run ->
  Forall (fun a => mode (base a) <> skip) (tail (ancestorsAlong p out)) ->
  parentIsOnly = true
  \/ Exists (fun a => mode (base a) = only) (ancestorsAlong p root)
  \/ modeAt p root = Some only.
Proof.
  cbn zeta. intros Hat Hrun Hanc. destruct p as [|i q]; [done|].
  rewrite taskAt_cons, interpretTaskModes_tasks in Hat.
  cbn [ancestorsAlong tail] in Hanc. rewrite interpretTaskModes_tasks in Hanc.
  cbn [ancestorsAlong tasks_of]. rewrite modeAt_cons. cbn [tasks_of].
  destruct (ts !! i) as [c|]; [|done]. cbn [fmap option_fmap option_map] in *.
  destruct (eachTask_only_sound _ _ _ _ _ _ _ _ Hat Hrun Hanc) as [Hsio|[Hex|Hm]].
  - apply orb_true_iff in Hsio as [Hsio|Hsio]; [by left|].
    right. left. apply Exists_cons_hd. by apply mode_eqb_eq.
  - right. left. by apply Exists_cons_tl.
  - by right; right.
Qed.

(** *** Suites left running *)

Lemma some_task_running ts :
  forallb (fun i => negb (mode_eqb (mode (base i)) run)) ts = false ->
  Exists (fun c => mode (base c) = run) ts.
Proof.
  induction ts as [|c l IH]; cbn [forallb]; [done|].
  destruct (mode_eqb (mode (base c)) run) eqn:Hc; cbn [negb andb].
  - intros _. apply Exists_cons_hd. by apply mode_eqb_eq.
  - intros Hl. by apply Exists_cons_tl, IH.
Qed.

Lemma collapse_run b ts' :
  mode (collapse b ts') = run ->
  ts' = [] \/ Exists (fun c => mode (base c) = run) ts'.
Proof.
  unfold collapse. destruct (mode_eqb (mode b) run) eqn:Hb; cbn [andb].
  - destruct ts' as [|c l]; [by left|]. cbn [length Nat.eqb negb andb].
    destruct (forallb _ (c :: l)) eqn:Hall; [done|]. intros _. right.
    by apply some_task_running.
  - intros Hrun. apply mode_eqb_neq in Hb. done.
Qed.

Lemma eachTask_run_has_running namePattern onlyMode allowOnly suiteIsOnly chain c :
  let out := eachTask namePattern onlyMode allowOnly suiteIsOnly chain c in
  mode (base out) = run ->
  tasks_of out = [] \/ Exists (fun d => mode (base d) = run) (tasks_of out).
Proof.
  cbn zeta. destruct c as [ty b|b ts].
  - destruct (eachTask_leaf namePattern onlyMode allowOnly suiteIsOnly chain ty b)
      as [b' ->]. by left.
  - rewrite eachTask_suite. cbn zeta. destruct (mode_eqb _ skip) eqn:Hskip.
    + cbn [base]. intros Hrun. apply mode_eqb_eq in Hskip. congruence.
    + cbn [interpretTaskModes]. unfold interpretWith. cbn [base tasks_of].
      apply collapse_run.
Qed.

(** X5: [interpretTaskModes] leaves no suite running on nothing: a task
    in mode 'run', with no suite in mode 'skip' between it and the root,
    has no tasks or has one in mode 'run'. *)
Theorem running_suite_has_running_task
    namePattern onlyMode allowOnly parentIsOnly chain b ts p S :
  let out := interpretTaskModes namePattern onlyMode allowOnly parentIsOnly chain
               (SuiteTask b ts) in
  taskAt p out = Some S ->
  mode (base S) = run ->
  Forall (fun a => mode (base a) <> skip) (tail (ancestorsAlong p out)) ->
  tasks_of S = [] \/ Exists (fun d => mode (base d) = run) (tasks_of S).
Proof.
  cbn zeta. intros Hat Hrun Hanc. destruct p as [|i q].
  - injection Hat as <-. cbn [interpretTaskModes] in *. unfold interpretWith in *.
    cbn [base tasks_of] in *. by apply collapse_run in Hrun.
  - rewrite taskAt_cons, interpretTaskModes_tasks in Hat.
    cbn [ancestorsAlong tail] in Hanc. rewrite interpretTaskModes_tasks in Hanc.
    destruct (ts !! i) as [c|]; [|done]. cbn [fmap option_fmap option_map] in *.
    destruct (eachTask_visited _ _ _ _ _ _ _ _ Hat Hanc) as (sio & chain' & S_in & _ & ->).
    by apply eachTask_run_has_running.
Qed.

(** *** someTasksAreOnly and skipAllTasks, position by position *)

Lemma taskIsOrHasOnly_spec t :
  taskIsOrHasOnly t = true <-> exists p, modeAt p t = Some only.
Proof.
  induction t as [ty b|b ts IH] using Task_ind.
  - cbn [taskIsOrHasOnly base]. rewrite orb_false_r, mode_eqb_eq. split.
    + intros Hm. exists []. unfold modeAt. cbn. by rewrite Hm.
    + intros ([|i p] & Hp); [|by destruct i]. unfold modeAt in Hp. cbn in Hp. congruence.
  - cbn [taskIsOrHasOnly base]. rewrite orb_true_iff, mode_eqb_eq, existsb_exists. split.
    + intros [Hm|(c & Hin & Hc)].
      * exists []. unfold modeAt. cbn. by rewrite Hm.
      * apply list_elem_of_In, list_elem_of_lookup in Hin as [i Hi].
        rewrite Forall_lookup in IH. apply (IH i c Hi) in Hc as [p Hp].
        exists (i :: p). rewrite modeAt_cons. cbn [tasks_of]. by rewrite Hi.
    + intros ([|i p] & Hp).
      * left. unfold modeAt in Hp. cbn in Hp. congruence.
      * right. rewrite modeAt_cons in Hp. cbn [tasks_of] in Hp.
        destruct (ts !! i) as [c|] eqn:Hi; [|done]. exists c. split.
        -- by eapply list_elem_of_In, list_elem_of_lookup_2.
        -- rewrite Forall_lookup in IH. apply (IH i c Hi). by exists p.
Qed.

(** X6: [someTasksAreOnly(suite)] holds exactly when some task below the
    suite, at any depth, is marked 'only'; the mode of the suite itself
    does not count. *)
Theorem someTasksAreOnly_anywhere_below b ts :
  someTasksAreOnly ts = true
  <-> exists i p, modeAt (i :: p) (SuiteTask b ts) = Some only.
Proof.
  unfold someTasksAreOnly. rewrite existsb_exists. split.
  - intros (c & Hin & Hc). apply list_elem_of_In, list_elem_of_lookup in Hin as [i Hi].
    apply taskIsOrHasOnly_spec in Hc as [p Hp]. exists i, p.
    rewrite modeAt_cons. cbn [tasks_of]. by rewrite Hi.
  - intros (i & p & Hp). rewrite modeAt_cons in Hp. cbn [tasks_of] in Hp.
    destruct (ts !! i) as [c|] eqn:Hi; [|done]. exists c. split.
    + by eapply list_elem_of_In, list_elem_of_lookup_2.
    + apply taskIsOrHasOnly_spec. by exists p.
Qed.

(** X7: [skipAllTasks] turns a task to 'skip' exactly when the task and
    every suite between it and the skipped suite are in mode 'run'; any
    other task keeps its mode. A task in mode 'run' below a suite that
    is itself in another mode is not reached. *)
Theorem skipAllTasks_reaches_run_chains ts i q c d :
  ts !! i = Some c ->
  taskAt q c = Some d ->
  skipAllTasks ts !! i ≫= modeAt q
  = Some (if forallb (fun a => mode_eqb (mode (base a)) run) (ancestorsAlong q c ++ [d])
          then skip else mode (base d)).
Proof.
  intros Hi Hd. unfold skipAllTasks. rewrite list_lookup_fmap, Hi.
  cbn [fmap option_fmap option_map mbind option_bind]. by apply skipTask_modes.
Qed.

(** *** Results *)

Lemma onlyStep_result onlyMode allowOnly includeTask isSuite hasOnly b :
  result (onlyStep onlyMode allowOnly includeTask isSuite hasOnly b)
  = if onlyMode && negb allowOnly && mode_eqb (mode b) only
    then Some failedOnly else result b.
Proof.
  destruct (mode_eqb (mode b) only) eqn:Hm.
  - apply mode_eqb_eq in Hm. rewrite onlyStep_only by done.
    destruct onlyMode; [|done]. cbn [result set_mode]. rewrite result_checkAllowOnly.
    by destruct allowOnly.
  - rewrite andb_false_r. unfold onlyStep. rewrite Hm.
    repeat (match goal with |- context [if ?x then _ else _] => destruct x end); done.
Qed.

Lemma onlyStep_skip onlyMode allowOnly includeTask isSuite hasOnly b :
  mode b = skip ->
  onlyStep onlyMode allowOnly includeTask isSuite hasOnly b = b.
Proof.
  intros Hm. unfold onlyStep. rewrite Hm. cbn [mode_eqb andb].
  by repeat (match goal with |- context [if ?x then _ else _] => destruct x end).
Qed.

Lemma onlyStep_suite_to_skip onlyMode allowOnly includeTask hasOnly b :
  mode (onlyStep onlyMode allowOnly includeTask true hasOnly b) = skip ->
  mode b = skip \/ hasOnly = false.
Proof.
  unfold onlyStep. destruct onlyMode; [|by left]. cbn [andb].
  destruct (includeTask || hasOnly) eqn:Hinc.
  - destruct (mode_eqb (mode b) only); [done|by left].
  - apply orb_false_iff in Hinc as [_ ->]. by right.
Qed.

Lemma none_only_below ts i c q t :
  someTasksAreOnly ts = false ->
  ts !! i = Some c -> taskAt q c = Some t ->
  mode_eqb (mode (base t)) only = false.
Proof.
  intros Hnone Hi Ht. apply not_true_is_false. intros Honly. apply mode_eqb_eq in Honly.
  assert (Hsome : someTasksAreOnly ts = true); [|congruence].
  unfold someTasksAreOnly. apply existsb_exists. exists c.
  split; [by eapply list_elem_of_In, list_elem_of_lookup_2|].
  apply taskIsOrHasOnly_spec. exists q. unfold modeAt. rewrite Ht. cbn. by rewrite Honly.
Qed.

Lemma eachTask_results namePattern onlyMode allowOnly q : forall c suiteIsOnly chain,
  resultAt q (eachTask namePattern onlyMode allowOnly suiteIsOnly chain c)
  = (fun t =>
       if onlyMode && negb allowOnly && mode_eqb (mode (base t)) only
          && forallb (fun a => negb (mode_eqb (mode (base a)) skip)) (ancestorsAlong q c)
       then Some failedOnly else result (base t)) <$> taskAt q c.
Proof.
  unfold resultAt.
  induction q as [|i q IH]; intros c suiteIsOnly chain.
  - cbn [taskAt ancestorsAlong forallb fmap option_fmap option_map]. rewrite andb_true_r.
    f_equal. destruct c as [ty b|b ts].
    + cbn [eachTask base]. destruct ty; [destruct (patternRejects _ _)|];
        cbn [base set_mode result]; apply onlyStep_result.
    + rewrite eachTask_suite. cbn zeta. destruct (mode_eqb _ skip); cbn [base].
      * apply onlyStep_result.
      * cbn [interpretTaskModes]. unfold interpretWith. cbn [base].
        rewrite collapse_result. apply onlyStep_result.
  - destruct c as [ty b|b ts].
    + destruct (eachTask_leaf namePattern onlyMode allowOnly suiteIsOnly chain ty b)
        as [b' ->]. by destruct i.
    + rewrite eachTask_suite. cbn zeta.
      set (b1 := onlyStep _ _ _ _ _ _).
      cbn [ancestorsAlong tasks_of forallb base].
      destruct (mode_eqb (mode b1) skip) eqn:Hb1.
      * rewrite !taskAt_cons. cbn [tasks_of]. unfold skipAllTasks.
        rewrite list_lookup_fmap. destruct (ts !! i) as [c|] eqn:Hi; [|done].
        cbn [fmap option_fmap option_map].
        rewrite (skipTask_field (fun b => result b)) by done.
        destruct (taskAt q c) as [t|] eqn:Ht; [|done].
        cbn [fmap option_fmap option_map]. f_equal.
        apply mode_eqb_eq in Hb1. apply onlyStep_suite_to_skip in Hb1 as [Hb|Hnone].
        -- rewrite Hb. cbn [mode_eqb negb andb]. by rewrite andb_false_r.
        -- by rewrite (none_only_below _ _ _ _ _ Hnone Hi Ht), andb_false_r.
      * assert (Hb : mode_eqb (mode b) skip = false).
        { apply not_true_is_false. intros Hb. apply mode_eqb_eq in Hb.
          subst b1. rewrite onlyStep_skip in Hb1 by done. by rewrite Hb in Hb1. }
        rewrite Hb. cbn [negb andb].
        rewrite taskAt_cons, interpretTaskModes_tasks, taskAt_cons. cbn [tasks_of].
        destruct (ts !! i) as [c|]; [|done]. cbn [fmap option_fmap option_map].
        apply IH.
Qed.

(** X2: the only result that [interpretTaskModes] writes is the failure
    of [checkAllowOnly], and it writes it on the tasks marked 'only' that
    its loop reaches. At a position below the root, the result after the
    call is the one-error failure when the task was marked 'only', some
    task of the tree is 'only' ([onlyMode]), [allowOnly] is off and no
    suite between the root and the task was in mode 'skip'; at every other
    position, the root included, the result is what it was. *)
Theorem interpretTaskModes_results namePattern onlyMode allowOnly parentIsOnly chain suite p :
  let out := interpretTaskModes namePattern onlyMode allowOnly parentIsOnly chain suite in
  resultAt p out
  = (fun t =>
       if onlyMode && negb allowOnly && mode_eqb (mode (base t)) only
          && negb (Nat.eqb (length p) 0)
          && forallb (fun a => negb (mode_eqb (mode (base a)) skip))
               (tail (ancestorsAlong p suite))
       then Some failedOnly else result (base t)) <$> taskAt p suite.
Proof.
  cbn zeta. destruct suite as [ty b|b ts].
  { destruct p as [|i q]; [|by destruct i].
    unfold resultAt. cbn. by rewrite andb_false_r. }
  destruct p as [|i q].
  - unfold resultAt. cbn [interpretTaskModes]. unfold interpretWith.
    cbn [taskAt fmap option_fmap option_map base length Nat.eqb negb].
    by rewrite collapse_result, andb_false_r.
  - unfold resultAt.
    rewrite taskAt_cons, interpretTaskModes_tasks, !taskAt_cons.
    cbn [tasks_of ancestorsAlong tail length Nat.eqb negb].
    destruct (ts !! i) as [c|]; [|done]. cbn [fmap option_fmap option_map].
    pose proof (eachTask_results namePattern onlyMode allowOnly q c
                  (parentIsOnly || mode_eqb (mode b) only) chain) as Hq.
    unfold resultAt in Hq. rewrite Hq.
    destruct (taskAt q c) as [t|]; [|done]. cbn [fmap option_fmap option_map].
    by rewrite andb_true_r.
Qed.

End MoreModeProperties.

(** ** calculateSuiteHash: ids are unique *)

Section UniqueIds.
Context {TestError : Type}.
Implicit Types (t parent : @Task TestError) (ts : list (@Task TestError)).

Local Arguments String.append !_ _ / : simpl nomatch.

Lemma append_empty_r (s : string) : s +:+ "" = s.
Proof. induction s as [|c s IH]; simpl; [done|]. by rewrite IH. Qed.

Lemma append_assoc (s1 s2 s3 : string) : (s1 +:+ s2) +:+ s3 = s1 +:+ (s2 +:+ s3).
Proof. induction s1 as [|c s1 IH]; simpl; [done|]. by rewrite IH. Qed.

(** The id of a position is the root's id followed by what the path adds. *)
Lemma pathId_prefix (p : list nat) : forall rootId, pathId rootId p = rootId +:+ pathId "" p.
Proof.
  unfold pathId. induction p as [|i p IH]; intros rootId; cbn [fold_left].
  - by rewrite append_empty_r.
  - rewrite IH, (IH ("" +:+ "_" +:+ indexToString i)). simpl.
    by rewrite !append_assoc.
Qed.

Lemma pathId_cons (i : nat) (p : list nat) :
  pathId "" (i :: p) = "_" +:+ indexToString i +:+ pathId "" p.
Proof.
  unfold pathId at 1. cbn [fold_left]. fold (pathId ("" +:+ "_" +:+ indexToString i) p).
  rewrite pathId_prefix. simpl. done.
Qed.

(** What a path adds is empty or begins with the separator. *)
Lemma pathId_separated (p : list nat) :
  pathId "" p = "" \/ exists rest, pathId "" p = String "_" rest.
Proof. destruct p as [|i p]; [by left|]. right. rewrite pathId_cons. by eexists. Qed.

(** Decimal digits followed by a separator are read back in one way. *)
Lemma digits_split (d1 : Decimal.uint) : forall (d2 : Decimal.uint) (t1 t2 : string),
  (t1 = "" \/ exists rest, t1 = String "_" rest) ->
  (t2 = "" \/ exists rest, t2 = String "_" rest) ->
  NilEmpty.string_of_uint d1 +:+ t1 = NilEmpty.string_of_uint d2 +:+ t2 ->
  NilEmpty.string_of_uint d1 = NilEmpty.string_of_uint d2 /\ t1 = t2.
Proof.
  induction d1 as [|d1 IH|d1 IH|d1 IH|d1 IH|d1 IH|d1 IH|d1 IH|d1 IH|d1 IH|d1 IH];
    intros [|d2|d2|d2|d2|d2|d2|d2|d2|d2|d2] t1 t2 H1 H2;
    simpl; intros Heq;
    try (destruct H1 as [->|[r1 ->]]; discriminate Heq);
    try (destruct H2 as [->|[r2 ->]]; discriminate Heq);
    try discriminate Heq;
    try (injection Heq as Heq; destruct (IH d2 t1 t2 H1 H2 Heq) as [-> ->]; done).
  done.
Qed.

Lemma indexToString_digits (i : nat) :
  indexToString i = NilEmpty.string_of_uint (Nat.to_uint i).
Proof.
  unfold indexToString, NilZero.string_of_uint.
  pose proof (to_uint_not_Nil i) as Hi. by destruct (Nat.to_uint i).
Qed.

Lemma pathId_inj (p : list nat) : forall q, pathId "" p = pathId "" q -> p = q.
Proof.
  induction p as [|i p IH]; intros [|j q].
  - done.
  - rewrite pathId_cons. discriminate.
  - rewrite pathId_cons. discriminate.
  - rewrite !pathId_cons. simpl. intros [= Heq].
    rewrite !indexToString_digits in Heq.
    apply digits_split in Heq as [Hd Hrest]; try apply pathId_separated.
    rewrite <- !indexToString_digits in Hd.
    apply indexToString_inj in Hd as ->. by rewrite (IH q Hrest).
Qed.

Lemma taskAt_hashed_id parent p a :
  taskAt p (calculateSuiteHash parent) = Some a ->
  task_id (base a) = pathId (task_id (base parent)) p.
Proof.
  intros Ha. pose proof (idAt_calculateSuiteHash parent p) as Hid.
  unfold idAt in Hid. rewrite Ha in Hid. cbn [fmap option_fmap option_map] in Hid.
  destruct (taskAt p parent); [|done]. by injection Hid.
Qed.

(** X8: after [calculateSuiteHash] no two tasks of the tree have the same
    id: tasks at different positions, the root among them, carry
    different ids. *)
Theorem hashed_ids_unique parent (p q : list nat) (a b : @Task TestError) :
  taskAt p (calculateSuiteHash parent) = Some a ->
  taskAt q (calculateSuiteHash parent) = Some b ->
  task_id (base a) = task_id (base b) ->
  p = q.
Proof.
  intros Ha Hb Hid. apply taskAt_hashed_id in Ha, Hb.
  rewrite Ha, Hb, (pathId_prefix p), (pathId_prefix q) in Hid.
  by apply append_inj_r, pathId_inj in Hid.
Qed.

End UniqueIds.

(** ** collectTests: ids and durations *)

Section CollectMoreProperties.
Context {Thrown TestError : Type} `{!Host Thrown TestError}.
Context {World Hook : Type} `{!@Collaborators Thrown TestError World Hook}.
Implicit Types (f file built : @File TestError) (w : World).
Implicit Types (runner : @VitestRunner Thrown TestError World).
Implicit Types (fileHooks : @SuiteHooks Hook).
Implicit Types (items : list (@Registered Thrown TestError World Hook)).
Implicit Types (P E : @File TestError -> Prop).
Local Abbreviation Collecting := (@Collecting Thrown TestError World).
Local Abbreviation Effect := (@Effect Thrown World).
Local Abbreviation File := (@File TestError).
Local Abbreviation leaves :=
  (leaves (Thrown:=Thrown) (TestError:=TestError) (World:=World)).
Local Abbreviation collecting_ret :=
  (collecting_ret (Thrown:=Thrown) (TestError:=TestError) (World:=World)).
Local Abbreviation theFile := (@theFile Thrown TestError World).
Local Abbreviation readWorld :=
  (readWorld (Thrown:=Thrown) (TestError:=TestError) (World:=World)).
Local Abbreviation updateWorld := (@updateWorld Thrown TestError World).
Local Abbreviation modifyFile := (@modifyFile Thrown TestError World).
Local Abbreviation perform :=
  (perform (Thrown:=Thrown) (TestError:=TestError) (World:=World)).

(** *** The ids of a collected File *)

Lemma collectFile_finished runner path_ w w' file :
  collectFile runner path_ w = (w', inr file) ->
  exists w1 w2 built outcome,
    collectBody runner path_
      (createFileTask path_ (root (config runner)) (config_name (config runner))
         (runner_pool runner)) w1 = ((built, w2), outcome)
    /\ file = finishFile (config runner)
                match outcome with
                | inl e => recordFailure e built
                | inr _ => built
                end.
Proof.
  unfold collectFile.
  destruct (match onCollectStart runner with
            | Some hook => hook _ w
            | None => (w, inr tt)
            end) as [w0 [e|[]]]; [done|].
  destruct (collectBody _ _ _ _) as [[built w2] outcome] eqn:Hbody.
  intros [= <- <-]. by exists (clearCollectorContext path_ runner w0), w2, built, outcome.
Qed.

(** X9: a File that [collectTests] has collected, failed or not, carries
    as id the hash of its path relative to the root followed by the
    project name, and every task in it the id of its position: the File's
    id and one [_index] per level. No two tasks of the File have the same
    id. *)
Theorem collected_ids_by_position runner path_ w w' file :
  collectFile runner path_ w = (w', inr file) ->
  task_id (file_base file)
  = generateHash (relative (root (config runner)) path_
                  +:+ default "" (config_name (config runner)))
  /\ (forall p c, taskAt p (fileSuite file) = Some c ->
        task_id (base c) = pathId (task_id (file_base file)) p)
  /\ (forall p q c d, taskAt p (fileSuite file) = Some c ->
        taskAt q (fileSuite file) = Some d ->
        task_id (base c) = task_id (base d) -> p = q).
Proof.
  intros Hfile.
  destruct (collectFile_finished _ _ _ _ _ Hfile) as (w1 & w2 & built & outcome & Hbody & ->).
  destruct (keepsHeader_collectBody runner path_ _ _ _ _ _ Hbody) as [Hbase _].
  set (x := match outcome with inl e => recordFailure e built | inr _ => built end).
  assert (Hx : task_id (file_base x)
               = generateHash (relative (root (config runner)) path_
                               +:+ default "" (config_name (config runner)))).
  { subst x. destruct outcome as [e|[]]; cbn [recordFailure setFileResult file_base
      set_result task_id]; by rewrite Hbase. }
  assert (Hids : forall p c, taskAt p (fileSuite (finishFile (config runner) x)) = Some c ->
                   task_id (base c) = pathId (task_id (file_base x)) p).
  { intros p c Hc. rewrite fileSuite_finishFile in Hc.
    pose proof (interpretTaskModes_field (fun b => task_id b) (fun _ _ => eq_refl)
                  (fun _ _ => eq_refl) (testNamePattern (config runner))
                  (someTasksAreOnly (tasks_of (calculateSuiteHash (fileSuite x))))
                  (allowOnly (config runner)) false [] (calculateSuiteHash (fileSuite x)) p)
      as Hid.
    rewrite Hc in Hid. cbn [fmap option_fmap option_map] in Hid.
    destruct (taskAt p (calculateSuiteHash (fileSuite x))) as [c0|] eqn:Hc0; [|done].
    injection Hid as ->. by apply taskAt_hashed_id in Hc0. }
  assert (Hroot : task_id (file_base (finishFile (config runner) x)) = task_id (file_base x)).
  { apply (Hids [] (fileSuite (finishFile (config runner) x))). done. }
  rewrite Hroot. split; [exact Hx|]. split; [exact Hids|].
  intros p q c d Hc Hd Hid. apply Hids in Hc, Hd.
  rewrite Hc, Hd, (pathId_prefix p), (pathId_prefix q) in Hid.
  by apply append_inj_r, pathId_inj in Hid.
Qed.

(** *** Durations *)

Lemma leaves_bind {A B : Type} P (c : Collecting A) (Q : A -> File -> Prop)
    (k : A -> Collecting B) (R : B -> File -> Prop) E :
  leaves P c Q E -> (forall a, leaves (Q a) (k a) R E) ->
  leaves P (collecting_bind c k) R E.
Proof.
  intros Hc Hk f w f' w' r. unfold collecting_bind.
  destruct (c f w) as [[f1 w1] [e|a]] eqn:Hcf.
  - intros [= <- <- <-] HP. apply (Hc _ _ _ _ _ Hcf HP).
  - intros Hka HP. apply (Hk a _ _ _ _ _ Hka). apply (Hc _ _ _ _ _ Hcf HP).
Qed.

Lemma leaves_ret {A : Type} P (a : A) E : leaves P (collecting_ret a) (fun _ => P) E.
Proof. by intros f w f' w' r [= <- <- <-] HP. Qed.

Lemma leaves_perform {A : Type} P (e : Effect A) : leaves P (perform e) (fun _ => P) P.
Proof.
  intros f w f' w' r. unfold perform. destruct (e w) as [w1 r1].
  intros [= <- <- <-] HP. by destruct r1.
Qed.

Lemma leaves_theFile P E : leaves P theFile (fun _ => P) E.
Proof. by intros f w f' w' r [= <- <- <-] HP. Qed.

Lemma leaves_readWorld {A : Type} P (g : World -> A) E : leaves P (readWorld g) (fun _ => P) E.
Proof. by intros f w f' w' r [= <- <- <-] HP. Qed.

Lemma leaves_updateWorld P (g : World -> World) E : leaves P (updateWorld g) (fun _ => P) E.
Proof. by intros f w f' w' r [= <- <- <-] HP. Qed.

Lemma leaves_modifyFile P (g : File -> File) (Q : File -> Prop) E :
  (forall f, P f -> Q (g f)) -> leaves P (modifyFile g) (fun _ => Q) E.
Proof. intros Hg f w f' w' r [= <- <- <-] HP. by apply Hg. Qed.

Lemma leaves_weaken {A : Type} P (c : Collecting A) (Q Q' : A -> File -> Prop) E E' :
  leaves P c Q E -> (forall a f, Q a f -> Q' a f) -> (forall f, E f -> E' f) ->
  leaves P c Q' E'.
Proof.
  intros Hc HQ HE f w f' w' r Hrun HP. specialize (Hc _ _ _ _ _ Hrun HP).
  destruct r; [by apply HE|by apply HQ].
Qed.

(** The loop over the collected tasks pushes tasks and writes nothing
    else of the File. *)
Lemma leaves_pushCollected P items :
  (forall t f, P f -> P (pushTask t f)) ->
  forall fileHooks, leaves P (pushCollected items fileHooks) (fun _ => P) P.
Proof.
  intros Hpush. induction items as [|[c|collect] rest IH]; intros fileHooks;
    cbn [pushCollected].
  - apply leaves_ret.
  - eapply (leaves_bind _ _ (fun _ => P)); [apply leaves_modifyFile, Hpush|].
    intros ?. apply IH.
  - eapply (leaves_bind _ _ (fun _ => P)); [apply leaves_theFile|]. intros file.
    eapply (leaves_bind _ _ (fun _ => P)); [apply leaves_perform|]. intros suite.
    destruct (_ || _); [|apply IH].
    eapply (leaves_bind _ _ (fun _ => P)); [apply leaves_modifyFile, Hpush|].
    intros ?. apply IH.
Qed.

Lemma collectBody_durations runner path_ :
  leaves (fun f => collectDuration f = None) (collectBody runner path_)
    (fun _ f => is_Some (collectDuration f) /\ is_Some (setupDuration f)
                /\ (setupFiles (config runner) = [] -> setupDuration f = Some 0%Z))
    (fun f => collectDuration f = None
              /\ (setupFiles (config runner) = [] -> setupDuration f = Some 0%Z)).
Proof.
  unfold collectBody.
  set (Mid := fun f : File =>
         collectDuration f = None /\ is_Some (setupDuration f)
         /\ (setupFiles (config runner) = [] -> setupDuration f = Some 0%Z)).
  set (Thrown_ := fun f : File =>
         collectDuration f = None
         /\ (setupFiles (config runner) = [] -> setupDuration f = Some 0%Z)).
  assert (Hmid : forall f, Mid f -> Thrown_ f) by (intros f (? & ? & ?); by split).
  eapply (leaves_bind _ _ (fun _ => Mid)).
  { destruct (setupFiles (config runner)) as [|s l] eqn:Hsetup; cbn [length Nat.eqb negb].
    - apply leaves_modifyFile. intros f Hf. by repeat split; eauto.
    - set (Pre := fun f : File => collectDuration f = None).
      assert (Hpre : forall f, Pre f -> Thrown_ f) by (intros f ?; by split).
      eapply (leaves_bind _ _ (fun _ => Pre)); [apply leaves_readWorld|]. intros setupStart.
      eapply (leaves_bind _ _ (fun _ => Pre)).
      { eapply leaves_weaken; [apply leaves_perform|done|exact Hpre]. }
      intros ?.
      eapply (leaves_bind _ _ (fun _ => Pre)); [apply leaves_readWorld|]. intros setupEnd.
      apply leaves_modifyFile. intros f Hf. by repeat split; eauto. }
  intros ?.
  eapply (leaves_bind _ _ (fun _ => Mid)); [apply leaves_readWorld|]. intros collectStart.
  eapply (leaves_bind _ _ (fun _ => Mid)).
  { eapply leaves_weaken; [apply leaves_perform|done|exact Hmid]. }
  intros ?.
  eapply (leaves_bind _ _ (fun _ => Mid)); [apply leaves_theFile|]. intros file.
  eapply (leaves_bind _ _ (fun _ => Mid)).
  { eapply leaves_weaken; [apply leaves_perform|done|exact Hmid]. }
  intros defaultTasks.
  eapply (leaves_bind _ _ (fun _ => Mid)); [apply leaves_readWorld|]. intros registered.
  eapply (leaves_bind _ _ (fun _ => Mid)).
  { eapply leaves_weaken; [apply leaves_pushCollected|done|exact Hmid].
    by intros t f Hf. }
  intros fileHooks.
  eapply (leaves_bind _ _ (fun _ => Mid)); [apply leaves_theFile|]. intros file'.
  eapply (leaves_bind _ _ (fun _ => Mid)); [apply leaves_updateWorld|]. intros ?.
  eapply (leaves_bind _ _ (fun _ => Mid)); [apply leaves_readWorld|]. intros collectEnd.
  apply leaves_modifyFile. intros f (Hc & Hs & H0). by repeat split; eauto.
Qed.

Lemma finishFile_durations cfg f :
  setupDuration (finishFile cfg f) = setupDuration f
  /\ collectDuration (finishFile cfg f) = collectDuration f.
Proof. done. Qed.

(** How the round for a path ended, read off the File. *)
Lemma collectFile_outcome runner path_ w w' file :
  collectFile runner path_ w = (w', inr file) ->
  ((exists e, result (file_base file)
              = Some {| state := state_fail; errors := [processError e] |})
   /\ collectDuration file = None
   \/ result (file_base file) = None
      /\ is_Some (collectDuration file) /\ is_Some (setupDuration file))
  /\ (setupFiles (config runner) = [] -> setupDuration file = Some 0%Z).
Proof.
  intros Hfile.
  destruct (collectFile_finished _ _ _ _ _ Hfile) as (w1 & w2 & built & outcome & Hbody & ->).
  destruct (keepsHeader_collectBody runner path_ _ _ _ _ _ Hbody) as [Hbase _].
  pose proof (collectBody_durations runner path_ _ _ _ _ _ Hbody eq_refl) as Hdur.
  set (x := match outcome with inl e => recordFailure e built | inr _ => built end).
  destruct (finishFile_durations (config runner) x) as [-> ->].
  assert (Hres : result (file_base (finishFile (config runner) x)) = result (file_base x)).
  { unfold finishFile, onSuite, fileSuite.
    cbn [calculateSuiteHash interpretTaskModes base tasks_of file_base file_tasks].
    unfold interpretWith. cbn [base]. apply collapse_result. }
  rewrite Hres. subst x. destruct outcome as [e|[]].
  - destruct Hdur as [Hc H0]. split; [|exact H0]. left. split; [by exists e|exact Hc].
  - destruct Hdur as (Hc & Hs & H0). split; [|exact H0]. right.
    rewrite Hbase. by cbn [createFileTask file_base result].
Qed.

(** X10: a collected File has a [collectDuration] exactly when its
    collection threw nothing, that is when no result is attached to it;
    then it also has a [setupDuration]. With no setup files configured
    the [setupDuration] is 0, on a failed File too. *)
Theorem collected_durations runner path_ w w' file :
  collectFile runner path_ w = (w', inr file) ->
  (is_Some (collectDuration file) <-> result (file_base file) = None)
  /\ (result (file_base file) = None -> is_Some (setupDuration file))
  /\ (setupFiles (config runner) = [] -> setupDuration file = Some 0%Z).
Proof.
  intros Hfile.
  destruct (collectFile_outcome _ _ _ _ _ Hfile) as [[[[e He] Hc]|(Hr & Hc & Hs)] H0].
  - rewrite He, Hc. split; [split; [by intros [? ?]|done]|]. by split.
  - rewrite Hr. split; [by split|]. by split.
Qed.

End CollectMoreProperties.

(** ** handleFileChanged, the rerun timer and the watcher callbacks *)

Section MoreWalkProperties.
Context `{!NodeHost}.
Implicit Types (v : Vitest) (file : string) (files : list string).
Implicit Types (project : WorkspaceProject).

(** *** The result names the path asked about *)

Lemma visitProject_files recur file v files project v' files' :
  visitProject recur file (v, files) project = Some (v', files') ->
  files' = files \/ files' = files ++ [file].
Proof.
  unfold visitProject. destruct (Nat.eqb _ 0); [intros [= <- <-]; by left|].
  destruct (_ || _); [intros [= <- <-]; by right|].
  destruct (forEachM _ _ _) as [[v2 rerun]|]; [|done].
  intros [= <- <-]. destruct rerun; [by right|by left].
Qed.

Lemma one_path_list (x : string) (l : list string) :
  NoDup l -> Forall (fun y => y = x) l -> l = [] \/ l = [x].
Proof.
  intros Hnd Hall. destruct l as [|a [|b r]]; [by left| |].
  - right. apply Forall_inv in Hall. by subst.
  - exfalso. apply Forall_cons in Hall as [-> Hall]. apply Forall_inv in Hall as ->.
    apply NoDup_cons in Hnd as [Hnotin _]. apply Hnotin. by left.
Qed.

Lemma handleFileChanged_result fuel v file v' files :
  handleFileChanged fuel v file = Some (v', files) ->
  files = [] \/ files = [file].
Proof.
  destruct fuel as [|fuel]; [done|]. cbn [handleFileChanged].
  destruct (_ || _); [intros [= <- <-]; by left|].
  destruct (isMatch _ _); [intros [= <- <-]; by right|].
  destruct (Nat.eqb _ 0).
  { destruct (_ || _); intros [= <- <-]; [by right|by left]. }
  destruct (forEachM _ _ _) as [[v2 files2]|] eqn:Hrun; [|done].
  intros [= <- <-]. apply one_path_list; [apply NoDup_arrayFromSet|].
  eapply (forEachM_invariant (fun s => Forall (fun y => y = file) s.2)) in Hrun;
    [|clear Hrun|exact (@List.Forall_nil _ _)].
  { cbn [snd] in Hrun. rewrite Forall_forall in Hrun. apply Forall_forall.
    intros y Hy. rewrite elem_of_arrayFromSet in Hy. by apply Hrun. }
  intros [v3 files3] project [v4 files4] Hall _ Hp. cbn [snd] in *.
  apply visitProject_files in Hp as [-> | ->]; [done|].
  apply Forall_app. split; [done|]. by repeat constructor.
Qed.

(** X11: [handleFileChanged] returns the empty list or the one path it was
    called on: the paths of the importers that it walks are not in its
    result. *)
Theorem handleFileChanged_names_its_path fuel v file v' files :
  handleFileChanged fuel v file = Some (v', files) ->
  files = [] \/ files = [file].
Proof. apply handleFileChanged_result. Qed.

(** *** An empty result leaves the changed tests alone *)

Section Quiet.
Variable recur : Vitest -> string -> option (Vitest * list string).
Hypothesis recur_quiet : forall v file v',
  recur v file = Some (v', []) -> changedTests v' = changedTests v.

Lemma visitImporter_quiet v rerun i v' :
  visitImporter recur (v, rerun) i = Some (v', false) ->
  rerun = false /\ changedTests v' = changedTests v.
Proof.
  unfold visitImporter. destruct i as [[|a f]|]; try (by intros [= <- <-]).
  destruct (recur v (String a f)) as [[v2 heedsRerun]|] eqn:Hr; [|done].
  destruct heedsRerun as [|x l]; cbn [length Nat.eqb]; [|done].
  intros [= <- <-]. split; [done|]. by eapply recur_quiet.
Qed.

Lemma visitModule_quiet v rerun mod_ v' :
  visitModule recur (v, rerun) mod_ = Some (v', false) ->
  rerun = false /\ changedTests v' = changedTests v.
Proof.
  unfold visitModule. intros Hrun.
  apply (fun Hbody Hinit => forEachM_invariant
            (fun s => s.2 = false -> rerun = false /\ changedTests s.1 = changedTests v)
            _ _ _ _ Hbody Hinit Hrun eq_refl); [|done].
  intros [v1 r1] i [v2 r2] Hs _ Hi Hr2. cbn [fst snd] in *. subst r2.
  apply visitImporter_quiet in Hi as [-> Hc]. destruct (Hs eq_refl) as [-> Hc1].
  split; [done|congruence].
Qed.

Lemma visitProject_quiet file v project v' :
  visitProject recur file (v, []) project = Some (v', []) ->
  changedTests v' = changedTests v.
Proof.
  unfold visitProject. destruct (Nat.eqb _ 0); [by intros [= <-]|].
  destruct (_ || _); [done|].
  destruct (forEachM _ _ _) as [[v2 rerun]|] eqn:Hrun; [|done].
  destruct rerun; [done|]. intros [= <-].
  apply (fun Hbody Hinit => forEachM_invariant
            (fun s => s.2 = false ->
                      changedTests s.1
                      = changedTests (setInvalidates ({[file]} ∪ invalidates v) v))
            _ _ _ _ Hbody Hinit Hrun eq_refl); [|done].
  intros [v1 r1] m [v3 r3] Hs _ Hm Hr3. cbn [fst snd] in *. subst r3.
  apply visitModule_quiet in Hm as [-> Hc]. rewrite Hc. by apply Hs.
Qed.
End Quiet.

Lemma handleFileChanged_quiet fuel : forall v file v',
  handleFileChanged fuel v file = Some (v', []) -> changedTests v' = changedTests v.
Proof.
  induction fuel as [|fuel IH]; intros v file v'; [done|].
  cbn [handleFileChanged].
  destruct (_ || _); [by intros [= <-]|].
  destruct (isMatch _ _); [done|].
  destruct (Nat.eqb _ 0); [destruct (_ || _); [done|by intros [= <-]]|].
  destruct (forEachM _ _ _) as [[v2 files2]|] eqn:Hrun; [|done].
  intros [= <- Hnil].
  assert (Hfiles2 : files2 = []).
  { destruct files2 as [|x l]; [done|]. exfalso.
    assert (Hx : x ∈ arrayFromSet (x :: l)) by (apply elem_of_arrayFromSet; by left).
    rewrite Hnil in Hx. by apply elem_of_nil in Hx. }
  subst files2.
  apply (fun Hbody Hinit => forEachM_invariant
            (fun s => s.2 = [] -> changedTests s.1 = changedTests v)
            _ _ _ _ Hbody Hinit Hrun eq_refl); [|done].
  intros [v3 files3] project [v4 files4] Hs _ Hp Hnil4. cbn [fst snd] in *. subst files4.
  assert (files3 = []) as ->.
  { apply visitProject_files in Hp as [Hf|Hf]; [done|by destruct files3]. }
  rewrite <- (Hs eq_refl). by eapply (visitProject_quiet _ IH).
Qed.

(** X12: when [handleFileChanged] returns the empty list, it has not
    touched the set of changed tests: whenever tests were scheduled, the
    caller is told that a rerun is needed. *)
Theorem quiet_means_nothing_scheduled fuel v file v' :
  handleFileChanged fuel v file = Some (v', []) ->
  changedTests v' = changedTests v.
Proof. apply handleFileChanged_quiet. Qed.

(** *** What the walk writes *)

Lemma resolvedFrom_refl v : resolvedFrom v v.
Proof.
  split; [by destruct v|]. split; [done|]. split; [set_solver|]. split; [done|]. by left.
Qed.

Lemma resolvedFrom_same v v' :
  resolvedFrom v v' ->
  projects v' = projects v /\ filesMap v' = filesMap v
  /\ watchedTests v' = watchedTests v /\ filenamePattern v' = filenamePattern v
  /\ restartsCount v' = restartsCount v /\ config_root v' = config_root v.
Proof. intros [Hsame _]. destruct v, v'. cbn in *. injection Hsame as <-. by subst. Qed.

Lemma resolvedFrom_trans v1 v2 v3 :
  resolvedFrom v1 v2 -> resolvedFrom v2 v3 -> resolvedFrom v1 v3.
Proof.
  intros H12 H23. pose proof (resolvedFrom_same _ _ H12) as (Hp & Hf & _).
  destruct H12 as (Hs & Hi & Hig & Hc & Hct), H23 as (Hs' & Hi' & Hig' & Hc' & Hct').
  assert (Hg : graphFiles v2 = graphFiles v1) by (unfold graphFiles; by rewrite Hp).
  split; [|split; [set_solver|split; [set_solver|split; [set_solver|]]]].
  - destruct v1, v2, v3. cbn in *. injection Hs as <-. injection Hs' as <-. by subst.
  - intros x Hx. destruct (Hct' x Hx) as [Hx2|[Hx2|Hx2]].
    + by apply Hct.
    + right. left. by rewrite <- Hf.
    + right. right. by rewrite <- Hp.
Qed.

Lemma resolvedFrom_noteWalked v file : resolvedFrom v (noteWalked file v).
Proof.
  split; [by destruct v|]. split; [done|]. split; [set_solver|]. split; [done|]. by left.
Qed.

Lemma resolvedFrom_invalidate v file :
  file ∈ graphFiles v -> resolvedFrom v (setInvalidates ({[file]} ∪ invalidates v) v).
Proof.
  intros Hg. split; [by destruct v|]. cbn. split; [set_solver|]. split; [set_solver|].
  split; [done|]. by left.
Qed.

Lemma resolvedFrom_schedule v (more : gset string) :
  (forall x, x ∈ more ->
     x ∈ filesMap v \/ existsb (fun project => isTestFile project x) (projects v) = true) ->
  resolvedFrom v (setChangedTests (more ∪ changedTests v) v).
Proof.
  intros Hmore. split; [by destruct v|]. cbn. split; [done|]. split; [set_solver|].
  split; [set_solver|]. intros x Hx. apply elem_of_union in Hx as [Hx|Hx]; [|by left].
  right. by apply Hmore.
Qed.

Section Resolved.
Variable recur : Vitest -> string -> option (Vitest * list string).
Hypothesis recur_resolved : forall v file v' files,
  recur v file = Some (v', files) -> resolvedFrom v v'.

Lemma visitImporter_resolved s i s' :
  visitImporter recur s i = Some s' -> resolvedFrom s.1 s'.1.
Proof.
  destruct s as [v rerun]. unfold visitImporter.
  destruct i as [[|a f]|]; try (intros [= <-]; apply resolvedFrom_refl).
  destruct (recur v (String a f)) as [[v2 fs]|] eqn:Hr; [|done].
  intros [= <-]. by eapply recur_resolved.
Qed.

Lemma visitModule_resolved s mod_ s' :
  visitModule recur s mod_ = Some s' -> resolvedFrom s.1 s'.1.
Proof.
  unfold visitModule. intros Hrun.
  eapply (forEachM_invariant (fun s1 => resolvedFrom s.1 s1.1));
    [|apply resolvedFrom_refl|exact Hrun].
  intros s1 i s2 Hs1 _ Hi. eapply resolvedFrom_trans; [exact Hs1|].
  by eapply visitImporter_resolved.
Qed.

Lemma visitProject_resolved file s project s' :
  project ∈ projects s.1 ->
  visitProject recur file s project = Some s' -> resolvedFrom s.1 s'.1.
Proof.
  destruct s as [v files]. cbn [fst]. intros Hin. unfold visitProject.
  destruct (Nat.eqb _ 0) eqn:Hlen; [intros [= <-]; apply resolvedFrom_refl|].
  assert (Hg : file ∈ graphFiles v).
  { apply (graphFiles_spec v file project Hin). apply elem_of_dom.
    unfold getModulesByFilepath in Hlen. destruct (modules project !! file); [by eexists|done]. }
  set (v1 := setInvalidates _ v).
  assert (Hv1 : resolvedFrom v v1) by by apply resolvedFrom_invalidate.
  destruct (_ || _) eqn:Htest.
  - intros [= <-]. cbn [fst]. eapply resolvedFrom_trans; [exact Hv1|].
    apply (resolvedFrom_schedule v1 {[file]}). intros x Hx. apply elem_of_singleton in Hx as ->.
    apply orb_true_iff in Htest as [Hknown|Htest].
    + left. by apply bool_decide_eq_true in Hknown.
    + right. apply existsb_exists. exists project. split; [|done].
      by apply list_elem_of_In.
  - destruct (forEachM _ _ _) as [[v2 rerun]|] eqn:Hrun; [|done].
    intros [= <-]. cbn [fst].
    eapply (forEachM_invariant (fun s1 => resolvedFrom v s1.1)) in Hrun;
      [exact Hrun| |exact Hv1].
    intros s1 m s2 Hs1 _ Hm. eapply resolvedFrom_trans; [exact Hs1|].
    by eapply visitModule_resolved.
Qed.
End Resolved.

Lemma handleFileChanged_resolved fuel : forall v file v' files,
  handleFileChanged fuel v file = Some (v', files) -> resolvedFrom v v'.
Proof.
  induction fuel as [|fuel IH]; intros v file v' files; [done|].
  cbn [handleFileChanged].
  destruct (_ || _); [intros [= <- <-]; apply resolvedFrom_refl|].
  destruct (isMatch _ _).
  { intros [= <- <-]. apply (resolvedFrom_schedule v (filesMap v)). by left. }
  destruct (Nat.eqb _ 0).
  { destruct (_ || _) eqn:Htest; intros [= <- <-]; [|apply resolvedFrom_refl].
    apply (resolvedFrom_schedule v {[file]}). intros x Hx. apply elem_of_singleton in Hx as ->.
    apply orb_true_iff in Htest as [Hknown|Htest]; [|by right].
    left. by apply bool_decide_eq_true in Hknown. }
  destruct (forEachM _ _ _) as [[v2 files2]|] eqn:Hrun; [|done].
  intros [= <- <-].
  eapply (forEachM_invariant (fun s1 => resolvedFrom v s1.1)) in Hrun;
    [exact Hrun| |apply resolvedFrom_noteWalked].
  intros s1 project s2 Hs1 Hin Hp. eapply resolvedFrom_trans; [exact Hs1|].
  eapply (visitProject_resolved _ IH); [|exact Hp].
  apply getModuleProjects_spec in Hin as [Hin _].
  by rewrite (proj1 (resolvedFrom_same _ _ Hs1)).
Qed.

(** X13: [handleFileChanged] writes the two pending sets and nothing else
    of the instance; what it adds to the invalidated set are files of the
    module graphs, and what it adds to the changed tests are known test
    files and files that some project classifies as test files. *)
Theorem handleFileChanged_writes_pending_only fuel v file v' files :
  handleFileChanged fuel v file = Some (v', files) -> resolvedFrom v v'.
Proof. apply handleFileChanged_resolved. Qed.

(** *** A known test file is scheduled *)

Lemma known_test_scheduled fuel v file v' files :
  file ∈ filesMap v -> file ∉ invalidates v ->
  handleFileChanged fuel v file = Some (v', files) ->
  file ∈ changedTests v' /\ (file ∉ changedTests v -> files = [file]).
Proof.
  intros Hknown Hinv. destruct fuel as [|fuel]; [done|]. cbn [handleFileChanged].
  destruct (bool_decide (file ∈ changedTests v)) eqn:Hchanged; cbn [orb].
  { apply bool_decide_eq_true in Hchanged. by intros [= <- <-]. }
  rewrite (bool_decide_eq_false_2 _ Hinv).
  destruct (isMatch _ _); [intros [= <- <-]; split; [cbn; set_solver|done]|].
  rewrite (bool_decide_eq_true_2 _ Hknown). cbn [orb].
  destruct (Nat.eqb _ 0) eqn:Hnone; [intros [= <- <-]; split; [cbn; set_solver|done]|].
  destruct (getModuleProjects v file) as [|project rest] eqn:Hps; [done|].
  assert (Hin : project ∈ getModuleProjects v file) by (rewrite Hps; by left).
  unfold getModuleProjects in Hin. apply list_elem_of_filter in Hin as [Hmods _].
  cbn [forEachM]. unfold visitProject at 1.
  destruct (Nat.eqb (length (getModulesByFilepath project file)) 0) eqn:Hlen;
    [by apply Nat.eqb_eq in Hlen|].
  cbn [filesMap setInvalidates noteWalked]. rewrite (bool_decide_eq_true_2 _ Hknown).
  cbn [orb]. set (v1 := setChangedTests _ _).
  destruct (forEachM _ _ rest) as [[v2 files2]|] eqn:Hrun; [|done].
  intros [= <- <-].
  assert (Hboth : file ∈ changedTests v2 /\ file ∈ files2
                   /\ Forall (fun y => y = file) files2).
  { apply (forEachM_invariant
             (fun s => file ∈ changedTests s.1 /\ file ∈ s.2
                       /\ Forall (fun y => y = file) s.2) _ _ _ _) in Hrun;
      [exact Hrun| |].
    - intros [v3 files3] p3 [v4 files4] (Hc & Hf & Hall) _ Hp. cbn [fst snd] in *.
      pose proof (visitProject_grows _ (handleFileChanged_grows fuel) _ _ _ _ Hp)
        as (_ & _ & _ & _ & Hsub).
      split; [set_solver|].
      apply visitProject_files in Hp as [-> | ->]; [done|].
      split; [apply elem_of_app; by left|].
      apply Forall_app. split; [done|]. by repeat constructor.
    - split; [cbn; set_solver|]. split; [by apply list_elem_of_singleton|].
      by repeat constructor. }
  destruct Hboth as (Hc & Hf & Hall). split; [done|]. intros _.
  destruct (one_path_list file (arrayFromSet files2)) as [Hnil|Hone];
    [apply NoDup_arrayFromSet| |..|done].
  - rewrite Forall_forall in Hall. apply Forall_forall. intros y Hy.
    rewrite elem_of_arrayFromSet in Hy. by apply Hall.
  - apply elem_of_arrayFromSet in Hf. rewrite Hnil in Hf. by apply elem_of_nil in Hf.
Qed.

(** X14: a change to a known test file, unless the file is pending
    invalidation, leaves the file among the changed tests; and unless it
    was there already, the caller is told to rerun: the result is the
    file itself. *)
Theorem known_test_is_scheduled fuel v file v' files :
  file ∈ filesMap v -> file ∉ invalidates v ->
  handleFileChanged fuel v file = Some (v', files) ->
  file ∈ changedTests v' /\ (file ∉ changedTests v -> files = [file]).
Proof. apply known_test_scheduled. Qed.

(** *** The timer callback *)

Lemma rerunTimerFired_started (timer : RerunTimer) v r :
  (rerunTimerFired timer v).2 = Some r ->
  rerun_files r <> []
  /\ NoDup (rerun_files r)
  /\ (forall f, f ∈ rerun_files r -> f ∈ changedTests v)
  /\ restartsCount v = currentCount timer
  /\ changedTests (rerunTimerFired timer v).1 = ∅
  /\ invalidates (rerunTimerFired timer v).1 = invalidates v
  /\ isFirstRun (rerunTimerFired timer v).1 = false
  /\ snapshotClears (rerunTimerFired timer v).1 = S (snapshotClears v).
Proof.
  unfold rerunTimerFired.
  set (v1 := if Nat.eqb (size (watchedTests v)) 0 then v else _).
  assert (Hv1 : changedTests v1 ⊆ changedTests v
                /\ restartsCount v1 = restartsCount v /\ invalidates v1 = invalidates v
                /\ snapshotClears v1 = snapshotClears v).
  { subst v1. destruct (Nat.eqb _ 0); [done|]. cbn. split; [|done].
    intros x Hx. apply elem_of_filter in Hx. tauto. }
  destruct Hv1 as (Hsub & Hcount & Hinv & Hsnap). clearbody v1.
  destruct (Nat.eqb (size (changedTests v1)) 0) eqn:Hsize; [done|].
  destruct (Nat.eqb (restartsCount v1) (currentCount timer)) eqn:Hrestart; [|done].
  cbn [negb]. apply Nat.eqb_eq in Hrestart.
  assert (Hne : elements (changedTests v1) <> []).
  { intros Hnil. apply elements_empty_inv in Hnil. apply leibniz_equiv in Hnil.
    rewrite Hnil, size_empty in Hsize. done. }
  cbn [changedTests clearSnapshot setIsFirstRun filenamePattern].
  destruct (truthy (filenamePattern v1)) as [pattern|].
  - destruct (filter _ (elements (changedTests v1))) as [|x rest] eqn:Hfilter; [done|].
    cbn [fst snd default]. intros [= <-]. cbn [rerun_files].
    split; [done|]. rewrite <- Hfilter.
    split; [apply NoDup_filter, NoDup_elements|].
    split; [|by cbn; rewrite <- Hcount, Hinv, Hsnap].
    intros f Hf. apply list_elem_of_filter in Hf as [_ Hf].
    apply elem_of_elements in Hf. by apply Hsub.
  - cbn [fst snd default]. intros [= <-]. cbn [rerun_files].
    split; [done|]. split; [apply NoDup_elements|].
    split; [|by cbn; rewrite <- Hcount, Hinv, Hsnap].
    intros f Hf. apply elem_of_elements in Hf. by apply Hsub.
Qed.

(** X15: a rerun that the timer callback starts is a rerun of at least
    one file, of no file twice, and of pending changed tests only; it is
    started by a timer armed since the last restart of the server, it
    empties the set of changed tests, leaves the pending invalidations to
    the run, and clears the snapshot state. *)
Theorem started_rerun_is_coalesced (timer : RerunTimer) v r :
  (rerunTimerFired timer v).2 = Some r ->
  rerun_files r <> []
  /\ NoDup (rerun_files r)
  /\ (forall f, f ∈ rerun_files r -> f ∈ changedTests v)
  /\ restartsCount v = currentCount timer
  /\ changedTests (rerunTimerFired timer v).1 = ∅
  /\ invalidates (rerunTimerFired timer v).1 = invalidates v
  /\ isFirstRun (rerunTimerFired timer v).1 = false
  /\ snapshotClears (rerunTimerFired timer v).1 = S (snapshotClears v).
Proof. apply rerunTimerFired_started. Qed.

Lemma rerunTimerFired_stale (timer : RerunTimer) v :
  restartsCount v <> currentCount timer ->
  (rerunTimerFired timer v).2 = None
  /\ snapshotClears (rerunTimerFired timer v).1 = snapshotClears v
  /\ isFirstRun (rerunTimerFired timer v).1 = isFirstRun v.
Proof.
  intros Hstale. unfold rerunTimerFired.
  set (v1 := if Nat.eqb (size (watchedTests v)) 0 then v else _).
  assert (Hv1 : restartsCount v1 = restartsCount v
                /\ snapshotClears v1 = snapshotClears v /\ isFirstRun v1 = isFirstRun v).
  { subst v1. by destruct (Nat.eqb _ 0). }
  destruct Hv1 as (Hcount & Hsnap & Hfirst). clearbody v1.
  destruct (Nat.eqb (size (changedTests v1)) 0); [done|].
  rewrite Hcount. apply Nat.eqb_neq in Hstale. by rewrite Hstale.
Qed.

(** X16: a restart of the server cancels the rerun that [scheduleRerun]
    was about to start. If the server restarts while [scheduleRerun]
    awaits the running tests, no timer is armed; and if it restarts
    after the timer was armed, the timer starts no rerun when it fires,
    and touches neither the snapshot state nor the first-run flag. *)
Theorem restart_cancels_rerun (count : nat) (trigger : list string) v :
  (restartsCount v <> count -> rerunTimer (scheduleRerunResume count trigger v) = None)
  /\ (forall timer v',
        rerunTimer (scheduleRerunResume count trigger v) = Some timer ->
        restartsCount v' <> restartsCount v ->
        (rerunTimerFired timer v').2 = None
        /\ snapshotClears (rerunTimerFired timer v').1 = snapshotClears v'
        /\ isFirstRun (rerunTimerFired timer v').1 = isFirstRun v').
Proof.
  unfold scheduleRerunResume. cbn [restartsCount setRerunTimer].
  destruct (Nat.eqb (restartsCount v) count) eqn:Hcount; cbn [negb].
  - apply Nat.eqb_eq in Hcount. split; [done|].
    intros timer v'. cbn [rerunTimer setRerunTimer]. intros [= <-] Hrestart.
    apply rerunTimerFired_stale. cbn [currentCount]. congruence.
  - split; [done|]. intros timer v'. by cbn [rerunTimer setRerunTimer].
Qed.

(** *** From a change to the rerun *)

Lemma onChange_known_test v id :
  let file := slash id in
  file ∈ filesMap v -> file ∉ invalidates v -> file ∉ changedTests v ->
  exists v0 v1,
    handleFileChanged (enoughFuel v) v file = Some (v0, [file])
    /\ onChange (enoughFuel v) id v = Some (v1, Some (restartsCount v, [file]))
    /\ v1 = setRerunTimer None v0
    /\ resolvedFrom v v0
    /\ file ∈ changedTests v0.
Proof.
  cbn zeta. intros Hknown Hinv Hchanged.
  destruct (handleFileChanged_returns (enoughFuel v) v (slash id))
    as (v0 & files & Hrun & _); [unfold enoughFuel; lia|].
  destruct (known_test_scheduled _ _ _ _ _ Hknown Hinv Hrun) as [Hin Hfiles].
  rewrite (Hfiles Hchanged) in Hrun.
  pose proof (handleFileChanged_resolved _ _ _ _ _ Hrun) as Hres.
  exists v0, (setRerunTimer None v0). split; [done|].
  unfold onChange. rewrite Hrun. cbn [length Nat.eqb negb scheduleRerunBegin].
  destruct (resolvedFrom_same _ _ Hres) as (_ & _ & _ & _ & -> & _). done.
Qed.

(** X17: end to end. When a known test file changes that is neither
    pending nor invalidated, and that the watch restriction and the
    filename pattern, if any, let through, then [onChange] schedules a
    rerun, [scheduleRerun] arms the timer, provided that the server does
    not restart meanwhile, and the timer, when it fires, starts a rerun
    that contains the file, with the file as its trigger. *)
Theorem changed_test_is_rerun v id :
  let file := slash id in
  file ∈ filesMap v -> file ∉ invalidates v -> file ∉ changedTests v ->
  (size (watchedTests v) = 0 \/ file ∈ watchedTests v) ->
  match filenamePattern v with
  | Some pattern => file ∈ globTestFiles [pattern]
  | None => True
  end ->
  exists v1 count timer r,
    onChange (enoughFuel v) id v = Some (v1, Some (count, [file]))
    /\ rerunTimer (scheduleRerunResume count [file] v1) = Some timer
    /\ (rerunTimerFired timer (scheduleRerunResume count [file] v1)).2 = Some r
    /\ file ∈ rerun_files r
    /\ triggerLabel r = pathRelative (config_root v) file.
Proof.
  cbn zeta. intros Hknown Hinv Hchanged Hwatched Hpattern.
  destruct (onChange_known_test v id Hknown Hinv Hchanged)
    as (v0 & v1 & _ & Hon & -> & Hres & Hin).
  destruct (resolvedFrom_same _ _ Hres) as (_ & _ & Hw & Hp & Hc & Hroot).
  set (timer := {| currentCount := restartsCount v; triggerId := [slash id] |}).
  set (v2 := setRerunTimer (Some timer) (setRerunTimer None (setRerunTimer None v0))).
  assert (Hv2 : scheduleRerunResume (restartsCount v) [slash id] (setRerunTimer None v0) = v2).
  { unfold scheduleRerunResume. cbn [restartsCount setRerunTimer]. rewrite Hc.
    by rewrite Nat.eqb_refl. }
  assert (Hfired : exists r, (rerunTimerFired timer v2).2 = Some r
                             /\ slash id ∈ rerun_files r
                             /\ triggerLabel r = pathRelative (config_root v) (slash id)).
  { unfold rerunTimerFired.
    set (v3 := if Nat.eqb (size (watchedTests v2)) 0 then v2 else _).
    assert (Hv3 : slash id ∈ changedTests v3 /\ restartsCount v3 = restartsCount v
                  /\ filenamePattern v3 = filenamePattern v
                  /\ config_root v3 = config_root v).
    { subst v3. destruct (Nat.eqb (size (watchedTests v2)) 0) eqn:Hsize; [done|].
      cbn. split; [|done]. apply elem_of_filter. split; [|done].
      rewrite Hw. destruct Hwatched as [Hnone|Hyes]; [|done].
      cbn in Hsize. rewrite Hw, Hnone in Hsize. done. }
    destruct Hv3 as (Hin3 & Hc3 & Hp3 & Hroot3). clearbody v3.
    destruct (Nat.eqb (size (changedTests v3)) 0) eqn:Hsize.
    { apply Nat.eqb_eq, size_empty_iff in Hsize. set_solver. }
    rewrite Hc3. cbn [currentCount timer]. rewrite Nat.eqb_refl. cbn [negb].
    cbn [changedTests clearSnapshot setIsFirstRun filenamePattern config_root
         setChangedTests triggerId].
    rewrite Hp3, Hroot3.
    assert (Hlabel : joinWith ", " (arrayFromSet (map (pathRelative (config_root v))
                                                   [slash id]))
                     = pathRelative (config_root v) (slash id)) by done.
    destruct (truthy (filenamePattern v)) as [pattern|] eqn:Htruthy.
    - assert (Hpass : slash id ∈ filter (fun file => file ∈ globTestFiles [pattern])
                                   (elements (changedTests v3))).
      { apply list_elem_of_filter. split; [|by apply elem_of_elements].
        destruct (filenamePattern v) as [[|a s]|]; [done| |done].
        by injection Htruthy as <-. }
      destruct (filter _ (elements (changedTests v3))) as [|x rest] eqn:Hfilter;
        [by apply elem_of_nil in Hpass|].
      cbn [fst snd default]. eexists. split; [reflexivity|]. by split.
    - cbn [fst snd default]. eexists. split; [reflexivity|]. split; [|done].
      cbn [rerun_files]. by apply elem_of_elements. }
  destruct Hfired as (r & Hr & Hfile & Hlabel).
  exists (setRerunTimer None v0), (restartsCount v), timer, r.
  split; [exact Hon|]. rewrite Hv2. by repeat split.
Qed.

(** *** A file is removed *)

(** X18: [onUnlink] marks the removed path as invalidated, so that a
    change reported for it afterwards is ignored. A known test file is
    forgotten: it leaves the known files and the changed tests, and its
    removal is reported. A path that is not a known test file is not
    taken from the changed tests. No other path is touched. *)
Theorem unlinked_file_is_forgotten id v :
  let file := slash id in
  let v' := (onUnlink id v).1 in
  file ∈ invalidates v'
  /\ (forall fuel, handleFileChanged (S fuel) v' file = Some (v', []))
  /\ (file ∉ filesMap v')
  /\ (file ∈ filesMap v -> (file ∉ changedTests v') /\ (onUnlink id v).2 = Some file)
  /\ (file ∉ filesMap v -> changedTests v' = changedTests v /\ (onUnlink id v).2 = None)
  /\ (forall x, x <> file ->
        (x ∈ filesMap v' <-> x ∈ filesMap v)
        /\ (x ∈ changedTests v' <-> x ∈ changedTests v)
        /\ (x ∈ invalidates v' <-> x ∈ invalidates v)).
Proof.
  cbn zeta. unfold onUnlink. cbn [filesMap setInvalidates].
  destruct (bool_decide (slash id ∈ filesMap v)) eqn:Hknown.
  - apply bool_decide_eq_true in Hknown. cbn [fst snd].
    assert (Hin : slash id ∈ invalidates
                    (setChangedTests
                       (changedTests (setFilesMap (filesMap v ∖ {[slash id]})
                          (setInvalidates ({[slash id]} ∪ invalidates v) v)) ∖ {[slash id]})
                       (setFilesMap (filesMap v ∖ {[slash id]})
                          (setInvalidates ({[slash id]} ∪ invalidates v) v))))
      by (cbn; set_solver).
    split; [exact Hin|]. split; [intros fuel; apply handleFileChanged_guard; by right|].
    cbn. split; [set_solver|]. split; [intros _; split; [set_solver|done]|].
    split; [done|]. intros x Hx. set_solver.
  - apply bool_decide_eq_false in Hknown. cbn [fst snd].
    assert (Hin : slash id ∈ invalidates (setInvalidates ({[slash id]} ∪ invalidates v) v))
      by (cbn; set_solver).
    split; [exact Hin|]. split; [intros fuel; apply handleFileChanged_guard; by right|].
    cbn. split; [done|]. split; [done|]. split; [done|]. intros x Hx. set_solver.
Qed.

(** X19: a known test file that was removed is not rerun: when the timer
    fires after [onUnlink], the rerun that it starts, if any, does not
    contain the file. *)
Theorem unlinked_test_is_not_rerun id v (timer : RerunTimer) r :
  slash id ∈ filesMap v ->
  (rerunTimerFired timer (onUnlink id v).1).2 = Some r ->
  slash id ∉ rerun_files r.
Proof.
  intros Hknown Hr Hin.
  apply rerunTimerFired_started in Hr as (_ & _ & Hfiles & _).
  apply Hfiles in Hin. unfold onUnlink in Hin. cbn [filesMap setInvalidates] in Hin.
  rewrite (bool_decide_eq_true_2 _ Hknown) in Hin. cbn in Hin. set_solver.
Qed.

End MoreWalkProperties.

(** ** handleFileChanged finds the dependent tests *)

Section ReachProperties.
Context `{!NodeHost}.

Lemma forEachM_prefix {S A : Type} (Q : list A -> S -> Prop) (body : S -> A -> option S)
    (l : list A) : forall (l0 : list A) (s s' : S),
  Q l0 s ->
  (forall l1 x s1 s2, Q l1 s1 -> x ∈ l -> body s1 x = Some s2 -> Q (l1 ++ [x]) s2) ->
  forEachM body s l = Some s' ->
  Q (l0 ++ l) s'.
Proof.
  induction l as [|x l IH]; intros l0 s s' Hs Hbody; cbn [forEachM].
  - intros [= <-]. by rewrite app_nil_r.
  - destruct (body s x) as [s1|] eqn:Hx; [|done]. intros Hrun.
    replace (l0 ++ x :: l) with ((l0 ++ [x]) ++ l) by (by rewrite <- app_assoc).
    eapply IH; [|..|exact Hrun].
    + eapply Hbody; [exact Hs|by left|exact Hx].
    + intros l1 y s2 s3 Hs2 Hy. apply Hbody; [done|by right].
Qed.

Implicit Types (v a b c : Vitest) (file : string) (files : list string).
Implicit Types (project : WorkspaceProject) (open : gset string).

Lemma grows_getModuleProjects v v' file :
  grows v v' -> getModuleProjects v' file = getModuleProjects v file.
Proof. intros (Hp & _). unfold getModuleProjects. by rewrite Hp. Qed.

Lemma reached_mono v0 s s' g : grows s s' -> reached v0 s g -> reached v0 s' g.
Proof.
  intros (_ & _ & _ & Hi & Hc) [H1|[H1|[H1|H1]]]; unfold reached.
  - left. set_solver.
  - right. left. set_solver.
  - by right; right; left.
  - right. right. right. set_solver.
Qed.

Lemma walkedWell_refl v0 a open : grows v0 a -> walkedWell v0 a a open.
Proof. intros Hg. split; [done|]. split; [apply grows_refl|]. by split. Qed.

Lemma walkedWell_grows v0 a b open : walkedWell v0 a b open -> grows v0 b.
Proof. intros (H0 & Hab & _). by eapply grows_trans. Qed.

(** A walk that is complete but for [open], continued by a complete walk
    begun when the paths in [open] were invalidated. *)
Lemma walkedWell_trans v0 a b c open :
  walkedWell v0 a b open -> walkedWell v0 b c ∅ ->
  (forall x, x ∈ open -> x ∈ invalidates b) ->
  walkedWell v0 a c open.
Proof.
  intros (H0 & Hab & Hset & Hch) (_ & Hbc & Hset' & Hch') Hopen.
  split; [done|]. split; [by eapply grows_trans|]. split.
  - intros x Hx Hxa Hxo. destruct (decide (x ∈ invalidates b)) as [Hxb|Hxb].
    + destruct (Hset x Hxb Hxa Hxo) as [Hclosed Htest]. split.
      * intros g Hg. eapply reached_mono; [exact Hbc|by apply Hclosed].
      * intros Hk. destruct Hbc as (_ & _ & _ & _ & Hsub). set_solver.
    + apply Hset'; [done|done|set_solver].
  - intros x Hx Hxa. destruct (decide (x ∈ changedTests b)) as [Hxb|Hxb].
    + destruct (Hch x Hxb Hxa) as [H1|[H1|H1]]; [by left| |by right; right].
      right. left. destruct Hbc as (_ & _ & _ & Hsub & _). set_solver.
    + by apply Hch'.
Qed.

(** *** The call is done with its path when it returns *)

Lemma visitProject_invalidates recur file v files project s' :
  (forall v1 f1 v2 fs, recur v1 f1 = Some (v2, fs) -> grows v1 v2) ->
  Nat.eqb (length (getModulesByFilepath project file)) 0 = false ->
  visitProject recur file (v, files) project = Some s' ->
  file ∈ invalidates s'.1.
Proof.
  intros Hrec Hlen. unfold visitProject. rewrite Hlen.
  set (v1 := setInvalidates _ v).
  assert (Hv1 : file ∈ invalidates v1) by (cbn; set_solver).
  destruct (_ || _); [by intros [= <-]|].
  destruct (forEachM _ _ _) as [[v2 rerun]|] eqn:Hrun; [|done]. intros [= <-]. cbn [fst].
  eapply (forEachM_invariant (fun s1 => grows v1 s1.1)) in Hrun;
    [|intros s1 m s2 Hs1 _ Hm; eapply grows_trans;
      [exact Hs1|by eapply (visitModule_grows _ Hrec)]|apply grows_refl].
  destruct Hrun as (_ & _ & _ & Hsub & _). set_solver.
Qed.

Lemma handleFileChanged_reaches fuel v file v' files :
  handleFileChanged fuel v file = Some (v', files) -> reached v v' file.
Proof.
  destruct fuel as [|fuel]; [done|]. cbn [handleFileChanged].
  destruct (bool_decide (file ∈ changedTests v)) eqn:Hc; cbn [orb].
  { intros [= <- <-]. apply bool_decide_eq_true in Hc. by right; left. }
  destruct (bool_decide (file ∈ invalidates v)) eqn:Hi.
  { intros [= <- <-]. apply bool_decide_eq_true in Hi. by left. }
  destruct (isMatch _ _).
  { intros [= <- <-]. right. right. right. cbn. set_solver. }
  destruct (Nat.eqb _ 0) eqn:Hnone.
  { destruct (bool_decide (file ∈ filesMap v)) eqn:Hknown; cbn [orb].
    { intros [= <- <-]. right. left. cbn. set_solver. }
    destruct (existsb _ _) eqn:Htest; intros [= <- <-].
    - right. left. cbn. set_solver.
    - right. right. left. split; [|split; [by apply bool_decide_eq_false in Hknown|done]].
      apply Nat.eqb_eq in Hnone. by destruct (getModuleProjects v file). }
  destruct (getModuleProjects v file) as [|project rest] eqn:Hps; [done|].
  assert (Hin : project ∈ getModuleProjects v file) by (rewrite Hps; by left).
  unfold getModuleProjects in Hin. apply list_elem_of_filter in Hin as [Hmods _].
  cbn [forEachM].
  destruct (visitProject _ _ _ project) as [[v1 files1]|] eqn:Hfirst; [|done].
  destruct (forEachM _ _ rest) as [[v2 files2]|] eqn:Hrun; [|done].
  intros [= <- <-]. left.
  apply visitProject_invalidates in Hfirst;
    [|apply handleFileChanged_grows|by apply Nat.eqb_neq].
  eapply (forEachM_invariant (fun s1 => grows v1 s1.1)) in Hrun;
    [|intros s1 p s2 Hs1 _ Hp; eapply grows_trans;
      [exact Hs1|by eapply (visitProject_grows _ (handleFileChanged_grows fuel))]
     |apply grows_refl].
  destruct Hrun as (_ & _ & _ & Hsub & _). cbn [fst] in *. set_solver.
Qed.

(** *** The walk leaves nothing half done *)

Lemma deadEnd_graph v0 v g : grows v0 v -> deadEnd v g -> deadEnd v0 g.
Proof.
  intros Hg (Hnone & Hknown & Htest). pose proof Hg as (Hp & Hf & _).
  split; [by rewrite <- (grows_getModuleProjects _ _ _ Hg)|]. by rewrite <- Hf, <- Hp.
Qed.

Lemma reached_graph v0 v s' g : grows v0 v -> reached v s' g -> reached v0 s' g.
Proof.
  intros Hg [H1|[H1|[H1|H1]]]; unfold reached; [by left|by right; left| |].
  - right. right. left. by eapply deadEnd_graph.
  - right. right. right. destruct Hg as (_ & Hf & _). by rewrite <- Hf.
Qed.

Lemma walkedWell_step v0 a b b' open :
  walkedWell v0 a b open -> grows b b' ->
  invalidates b' ⊆ invalidates b ∪ open ->
  (forall x, x ∈ changedTests b' -> x ∉ changedTests b -> x ∈ invalidates b') ->
  walkedWell v0 a b' open.
Proof.
  intros (H0 & Hab & Hset & Hch) Hbb Hinv Hnew.
  split; [done|]. split; [by eapply grows_trans|]. split.
  - intros x Hx Hxa Hxo. assert (Hxb : x ∈ invalidates b) by set_solver.
    destruct (Hset x Hxb Hxa Hxo) as [Hclosed Htest]. split.
    + intros g Hg. eapply reached_mono; [exact Hbb|by apply Hclosed].
    + intros Hk. destruct Hbb as (_ & _ & _ & _ & Hsub). set_solver.
  - intros x Hx Hxa. destruct (decide (x ∈ changedTests b)) as [Hxb|Hxb].
    + destruct (Hch x Hxb Hxa) as [H1|[H1|H1]]; [by left| |by right; right].
      right. left. destruct Hbb as (_ & _ & _ & Hsub & _). set_solver.
    + right. left. by apply Hnew.
Qed.

Section WalkedWell.
Variable recur : Vitest -> string -> option (Vitest * list string).
Variables (v0 a : Vitest) (file : string).
Hypothesis recur_well : forall v f v' fs,
  grows v0 v -> recur v f = Some (v', fs) -> walkedWell v0 v v' ∅.
Hypothesis recur_reaches : forall v f v' fs,
  recur v f = Some (v', fs) -> reached v v' f.

Lemma recur_grows v f v' fs : grows v0 v -> recur v f = Some (v', fs) -> grows v v'.
Proof. intros Hg Hr. by destruct (recur_well _ _ _ _ Hg Hr) as (_ & ? & _). Qed.

(** The state of a loop of the walk from [file]: the walk is complete
    but for [file], which is invalidated. *)
Local Abbreviation underway :=
  (fun s : Vitest => walkedWell v0 a s {[file]} /\ file ∈ invalidates s).

Lemma visitImporter_well (done : list (option string)) s rerun i s' rerun' :
  underway s ->
  (forall g, Some g ∈ done -> g <> "" -> reached v0 s g) ->
  visitImporter recur (s, rerun) i = Some (s', rerun') ->
  underway s'
  /\ grows s s'
  /\ (forall g, Some g ∈ done ++ [i] -> g <> "" -> reached v0 s' g).
Proof.
  intros [Hwell Hin] Hdone. unfold visitImporter.
  assert (Hskip : forall i0, (forall g, i0 = Some g -> g = "") ->
            underway s /\ grows s s
            /\ (forall g, Some g ∈ done ++ [i0] -> g <> "" -> reached v0 s g)).
  { intros i0 Hi0. split; [done|]. split; [apply grows_refl|].
    intros g Hg Hne. apply elem_of_app in Hg as [Hg|Hg]; [by apply Hdone|].
    apply list_elem_of_singleton in Hg. symmetry in Hg. by apply Hi0 in Hg. }
  destruct i as [[|c f]|]; [intros [= <- <-]; apply Hskip; by intros g [= <-]| |
                            intros [= <- <-]; by apply Hskip].
  destruct (recur s (String c f)) as [[s1 fs]|] eqn:Hr; [|done]. intros [= <- <-].
  pose proof (walkedWell_grows _ _ _ _ Hwell) as Hg0.
  pose proof (recur_well _ _ _ _ Hg0 Hr) as Hwell1.
  pose proof (recur_grows _ _ _ _ Hg0 Hr) as Hgrows.
  split; [split|split; [exact Hgrows|]].
  - eapply walkedWell_trans; [exact Hwell|exact Hwell1|].
    intros x Hx. apply elem_of_singleton in Hx as ->. exact Hin.
  - destruct Hgrows as (_ & _ & _ & Hsub & _). set_solver.
  - intros g Hg Hne. apply elem_of_app in Hg as [Hg|Hg].
    + eapply reached_mono; [exact Hgrows|by apply Hdone].
    + apply list_elem_of_singleton in Hg as [= ->].
      eapply reached_graph; [exact Hg0|]. by eapply recur_reaches.
Qed.

Lemma visitModule_well (done : list ModuleNode) s rerun mod_ s' rerun' :
  underway s ->
  (forall m g, m ∈ done -> Some g ∈ importers m -> g <> "" -> reached v0 s g) ->
  visitModule recur (s, rerun) mod_ = Some (s', rerun') ->
  underway s'
  /\ grows s s'
  /\ (forall m g, m ∈ done ++ [mod_] -> Some g ∈ importers m -> g <> "" -> reached v0 s' g).
Proof.
  intros Hs Hdone. unfold visitModule. intros Hrun.
  pose proof (forEachM_prefix
    (fun l (t : Vitest * bool) =>
       underway t.1 /\ grows s t.1
       /\ (forall g, Some g ∈ l -> g <> "" -> reached v0 t.1 g))
    (visitImporter recur) (importers mod_) [] (s, rerun) (s', rerun')) as Hloop.
  cbn [fst app] in Hloop. destruct Hloop as (Hs' & Hgrows & Hreached);
    [split; [done|]; split; [apply grows_refl|]; by intros g ?%elem_of_nil| |exact Hrun|].
  - intros l1 i [s1 r1] [s2 r2] (Hs1 & Hg1 & Hr1) _ Hi. cbn [fst] in *.
    destruct (visitImporter_well l1 s1 r1 i s2 r2 Hs1 Hr1 Hi) as (Hs2 & Hg2 & Hr2).
    split; [done|]. split; [by eapply grows_trans|done].
  - split; [done|]. split; [done|]. intros m g Hm Hg Hne.
    apply elem_of_app in Hm as [Hm|Hm].
    + eapply reached_mono; [exact Hgrows|by eapply Hdone].
    + apply list_elem_of_singleton in Hm as ->. by apply Hreached.
Qed.

(** The state of the loop over the projects: the walk is complete but
    for [file]; once a project is done, [file] is invalidated, and
    scheduled if it is a known test file; and the importers of [file] in
    the projects done are reached. *)
Local Abbreviation projectsDone :=
  (fun (done : list WorkspaceProject) (s : Vitest) =>
     walkedWell v0 a s {[file]}
     /\ (done <> [] ->
         file ∈ invalidates s /\ (file ∈ filesMap v0 -> file ∈ changedTests s))
     /\ (forall project m g,
           project ∈ done -> m ∈ getModulesByFilepath project file ->
           file ∉ filesMap v0 -> isTestFile project file = false ->
           Some g ∈ importers m -> g <> "" -> reached v0 s g)).

Lemma visitProject_well (done : list WorkspaceProject) s files project s' files' :
  projectsDone done s ->
  Nat.eqb (length (getModulesByFilepath project file)) 0 = false ->
  visitProject recur file (s, files) project = Some (s', files') ->
  projectsDone (done ++ [project]) s'.
Proof.
  intros (Hwell & Hfile & Hdone) Hlen. unfold visitProject. rewrite Hlen.
  pose proof (walkedWell_grows _ _ _ _ Hwell) as Hg0.
  pose proof Hg0 as (_ & Hmap & _).
  set (s1 := setInvalidates ({[file]} ∪ invalidates s) s).
  assert (Hs1 : grows s s1) by apply grows_setInvalidates.
  assert (Hwell1 : walkedWell v0 a s1 {[file]}).
  { eapply walkedWell_step; [exact Hwell|exact Hs1|cbn; set_solver|cbn; set_solver]. }
  assert (Hin1 : file ∈ invalidates s1) by (cbn; set_solver).
  assert (Hnonempty : done ++ [project] <> []) by (by destruct done).
  destruct (bool_decide (file ∈ filesMap s1) || isTestFile project file) eqn:Htest.
  - intros [= <- <-]. set (s2 := setChangedTests ({[file]} ∪ changedTests s1) s1).
    assert (Hs2 : grows s1 s2) by apply (grows_setChangedTests s1 {[file]}).
    split; [|split].
    + eapply walkedWell_step; [exact Hwell1|exact Hs2|cbn; set_solver|].
      cbn. intros x Hx Hnot. set_solver.
    + intros _. split; [done|]. intros _. cbn. set_solver.
    + intros p m g Hp Hm Hknown Hnot Hg Hne. apply elem_of_app in Hp as [Hp|Hp].
      * eapply reached_mono; [eapply grows_trans; [exact Hs1|exact Hs2]|by eapply Hdone].
      * apply list_elem_of_singleton in Hp as ->. exfalso.
        apply orb_true_iff in Htest as [Htest|Htest]; [|congruence].
        apply bool_decide_eq_true in Htest. cbn in Htest. by rewrite Hmap in Htest.
  - apply orb_false_iff in Htest as [Hknown Hnot].
    apply bool_decide_eq_false in Hknown. cbn in Hknown. rewrite Hmap in Hknown.
    destruct (forEachM _ _ _) as [[s2 rerun]|] eqn:Hrun; [|done]. intros [= <- <-].
    pose proof (forEachM_prefix
      (fun l (t : Vitest * bool) =>
         underway t.1 /\ grows s1 t.1
         /\ (forall m g, m ∈ l -> Some g ∈ importers m -> g <> "" -> reached v0 t.1 g))
      (visitModule recur) (getModulesByFilepath project file) [] (s1, false) (s2, rerun))
      as Hloop.
    cbn [fst app] in Hloop. destruct Hloop as ([Hwell2 Hin2] & Hgrows & Hreached);
      [split; [done|]; split; [apply grows_refl|]; by intros m g ?%elem_of_nil| |exact Hrun|].
    + intros l1 m [t1 r1] [t2 r2] (Ht1 & Hg1 & Hr1) _ Hm. cbn [fst] in *.
      destruct (visitModule_well l1 t1 r1 m t2 r2 Ht1 Hr1 Hm) as (Ht2 & Hg2 & Hr2).
      split; [done|]. split; [by eapply grows_trans|done].
    + split; [done|]. split; [by intros _|].
      intros p m g Hp Hm Hk Ht Hg Hne. apply elem_of_app in Hp as [Hp|Hp].
      * eapply reached_mono; [eapply grows_trans; [exact Hs1|exact Hgrows]|by eapply Hdone].
      * apply list_elem_of_singleton in Hp as ->. by eapply Hreached.
Qed.
End WalkedWell.

Lemma handleFileChanged_well fuel : forall v0 a file b files,
  grows v0 a ->
  handleFileChanged fuel a file = Some (b, files) ->
  walkedWell v0 a b ∅.
Proof.
  induction fuel as [|fuel IH]; intros v0 a file b files Hg0; [done|].
  pose proof Hg0 as (Hprojects & Hmap & _).
  cbn [handleFileChanged].
  destruct (_ || _); [intros [= <- <-]; by apply walkedWell_refl|].
  destruct (isMatch _ _).
  { intros [= <- <-]. split; [done|]. split; [apply (grows_setChangedTests a (filesMap a))|].
    cbn. split; [done|]. intros x Hx Hnot. left. rewrite <- Hmap. set_solver. }
  destruct (Nat.eqb _ 0) eqn:Hnone.
  { destruct (_ || _); intros [= <- <-]; [|by apply walkedWell_refl].
    split; [done|]. split; [apply (grows_setChangedTests a {[file]})|].
    cbn. split; [done|]. intros x Hx Hnot. right. right.
    assert (x = file) as -> by set_solver.
    rewrite <- (grows_getModuleProjects _ _ _ Hg0). apply Nat.eqb_eq in Hnone.
    by destruct (getModuleProjects a file). }
  destruct (forEachM _ _ _) as [[s files2]|] eqn:Hrun; [|done]. intros [= <- <-].
  pose proof (forEachM_prefix
    (fun l (t : Vitest * list string) =>
       walkedWell v0 a t.1 {[file]}
       /\ (l <> [] ->
           file ∈ invalidates t.1 /\ (file ∈ filesMap v0 -> file ∈ changedTests t.1))
       /\ (forall project m g,
             project ∈ l -> m ∈ getModulesByFilepath project file ->
             file ∉ filesMap v0 -> isTestFile project file = false ->
             Some g ∈ importers m -> g <> "" -> reached v0 t.1 g))
    (visitProject (handleFileChanged fuel) file) (getModuleProjects a file) []
    (noteWalked file a, []) (s, files2)) as Hloop.
  cbn [fst app] in Hloop. destruct Hloop as (Hwell & Hfile & Hdone); [| |exact Hrun|].
  - split; [|split; [done|by intros p m g ?%elem_of_nil]].
    split; [done|]. split; [by repeat split|]. by split.
  - intros l1 project [t1 f1] [t2 f2] Ht1 Hin Hp. cbn [fst] in *.
    eapply (visitProject_well (handleFileChanged fuel) v0 a file); [| |exact Ht1| |exact Hp].
    + intros v f v' fs Hg Hr. by eapply IH.
    + intros v f v' fs Hr. by eapply handleFileChanged_reaches.
    + unfold getModuleProjects in Hin. apply list_elem_of_filter in Hin as [Hlen _].
      by apply Nat.eqb_neq.
  - assert (Hne : getModuleProjects a file <> []).
    { intros Hnil. by rewrite Hnil in Hnone. }
    destruct (Hfile Hne) as [Hin Hknown].
    destruct Hwell as (_ & Hgrows & Hset & Hch).
    split; [done|]. split; [done|]. split; [|done].
    intros x Hx Hxa _. destruct (decide (x = file)) as [->|Hxf].
    + split; [|done]. intros g (project & m & Hp & Hm & Hnot & Htest & Hg & Hgne).
      eapply Hdone; [|exact Hm|done..].
      unfold getModuleProjects. apply list_elem_of_filter. split; [|by rewrite Hprojects].
      intros Hlen. destruct (getModulesByFilepath project file); [|done].
      by apply elem_of_nil in Hm.
    + apply Hset; [done|done|set_solver].
Qed.

(** X20: [handleFileChanged] finds the tests that depend on a changed
    file. Called between two runs, when nothing is pending, on a file
    from which a chain of imports leads to a known test file, through
    files that are not test files themselves, it leaves the test file
    among the changed tests and tells the caller to rerun. *)
Theorem dependent_tests_are_scheduled fuel v file test v' files :
  invalidates v = ∅ ->
  changedTests v = ∅ ->
  importedBy v file test ->
  test ∈ filesMap v ->
  handleFileChanged fuel v file = Some (v', files) ->
  test ∈ changedTests v' /\ files = [file].
Proof.
  intros Hclean Hnone Hchain Hknown Hrun.
  pose proof (handleFileChanged_well fuel v v file v' files (grows_refl v) Hrun)
    as (_ & Hgrows & Hset & Hch).
  assert (Hreached : reached v v' test).
  { refine (rtc_ind_r (fun z => reached v v' z) file _ _ test Hchain).
    - by eapply handleFileChanged_reaches.
    - intros x y Hxy Hedge IH.
      pose proof Hedge as (project & m & Hp & Hm & Hnot & Htest & Hg & Hgne).
      assert (Hinv : x ∈ invalidates v' -> reached v v' y).
      { intros Hx. apply (Hset x); [done|rewrite Hclean; set_solver|set_solver|done]. }
      assert (Hgraph : getModuleProjects v x <> []).
      { intros Hnil. assert (Hin : project ∈ getModuleProjects v x); [|by rewrite Hnil in Hin;
          apply elem_of_nil in Hin].
        unfold getModuleProjects. apply list_elem_of_filter. split; [|done].
        intros Hlen. destruct (getModulesByFilepath project x); [|done].
        by apply elem_of_nil in Hm. }
      destruct IH as [Hx|[Hx|[Hx|Hx]]].
      + by apply Hinv.
      + destruct (Hch x Hx) as [H1|[H1|H1]]; [rewrite Hnone; set_solver|done|by apply Hinv|done].
      + by destruct Hx as (Hnil & _).
      + by right; right; right. }
  assert (Htest : test ∈ changedTests v').
  { destruct Hreached as [Hx|[Hx|[Hx|Hx]]].
    - apply (Hset test); [done|rewrite Hclean; set_solver|set_solver|done].
    - done.
    - by destruct Hx as (_ & Hnot & _).
    - set_solver. }
  split; [done|].
  destruct (handleFileChanged_result _ _ _ _ _ Hrun) as [->|Hone]; [|done].
  apply handleFileChanged_quiet in Hrun. rewrite Hrun, Hnone in Htest. set_solver.
Qed.

End ReachProperties.

(** ** The cache of specs and filterTestsBySource *)

Section SpecProperties.
Context {Project Payload : Type} `{!EqDecision Project}.
Implicit Types (spec : @WorkspaceSpec Project Payload).
Implicit Types (specs : list (@WorkspaceSpec Project Payload)).
Implicit Types (cachedSpecs : gmap string (list (@WorkspaceSpec Project Payload))).

Lemma specIncluded_spec spec specs :
  specIncluded spec specs = true
  <-> (spec_project spec, spec_pool spec)
      ∈ map (fun spec => (spec_project spec, spec_pool spec)) specs.
Proof.
  unfold specIncluded. rewrite existsb_exists, list_elem_of_fmap. split.
  - intros (s_ & Hin & Hsame). apply andb_true_iff in Hsame as [Hp Hpool].
    apply bool_decide_eq_true in Hp. apply String.eqb_eq in Hpool.
    exists s_. split; [by rewrite Hp, Hpool|by apply list_elem_of_In].
  - intros (s_ & [= Hp Hpool] & Hin). exists s_. split; [by apply list_elem_of_In|].
    rewrite Hp, Hpool, String.eqb_refl. by rewrite bool_decide_eq_true_2.
Qed.

Lemma specsInOrder_ensure spec cachedSpecs :
  specsInOrder cachedSpecs -> specsInOrder (ensureSpecCached spec cachedSpecs).
Proof.
  intros Horder. unfold ensureSpecCached. cbn zeta.
  destruct (specIncluded spec (default [] (cachedSpecs !! moduleId spec))) eqn:Hinc;
    cbn [negb]; [done|].
  intros file specs Hlookup. destruct (decide (file = moduleId spec)) as [->|Hne].
  - rewrite lookup_insert_eq in Hlookup. injection Hlookup as <-.
    assert (Hold : Forall (fun s_ => moduleId s_ = moduleId spec)
                     (default [] (cachedSpecs !! moduleId spec))
                   /\ NoDup (map (fun s_ => (spec_project s_, spec_pool s_))
                               (default [] (cachedSpecs !! moduleId spec)))).
    { destruct (cachedSpecs !! moduleId spec) as [old|] eqn:Hold; cbn [default].
      - by destruct (Horder _ _ Hold) as (_ & ? & ?).
      - split; [done|]. cbn. apply NoDup_nil_2. }
    destruct Hold as [Hfiles Hnodup].
    split; [by destruct (default [] _)|]. split.
    + apply Forall_app. split; [done|]. by repeat constructor.
    + rewrite map_app. apply NoDup_app. split; [done|]. split; [|apply NoDup_singleton].
      intros key Hkey Hnew. apply list_elem_of_singleton in Hnew as ->.
      apply specIncluded_spec in Hkey. congruence.
  - rewrite lookup_insert_ne in Hlookup by done. by apply Horder.
Qed.

(** X21: the cache of specs is kept in order. Starting from the empty
    cache, as [setServer] leaves it, any sequence of [ensureSpecCached]
    leaves under every file specs of that file only, at least one, and
    no two of the same project and pool. *)
Theorem cached_specs_in_order specs :
  specsInOrder (fold_left (fun cachedSpecs spec => ensureSpecCached spec cachedSpecs) specs ∅).
Proof.
  assert (Hany : forall cachedSpecs, specsInOrder cachedSpecs ->
            specsInOrder (fold_left (fun cachedSpecs spec => ensureSpecCached spec cachedSpecs)
                            specs cachedSpecs)).
  { induction specs as [|spec specs IH]; intros cachedSpecs Horder; cbn [fold_left]; [done|].
    by apply IH, specsInOrder_ensure. }
  apply Hany. intros file specs0 Hlookup. by rewrite lookup_empty in Hlookup.
Qed.

(** X22: after [ensureSpecCached(spec)] a spec of the project and the
    pool of [spec] is cached under its file; what was cached under the
    file is still there, in front; the other files are as they were; and
    a second call changes nothing. *)
Theorem ensureSpecCached_caches spec cachedSpecs :
  let cached := ensureSpecCached spec cachedSpecs in
  specIncluded spec (default [] (cached !! moduleId spec)) = true
  /\ default [] (cachedSpecs !! moduleId spec) `prefix_of` default [] (cached !! moduleId spec)
  /\ (forall file, file <> moduleId spec -> cached !! file = cachedSpecs !! file)
  /\ ensureSpecCached spec cached = cached.
Proof.
  cbn zeta. set (old := default [] (cachedSpecs !! moduleId spec)).
  destruct (specIncluded spec old) eqn:Hinc.
  - assert (Hc : ensureSpecCached spec cachedSpecs = cachedSpecs).
    { unfold ensureSpecCached. cbn zeta. fold old. by rewrite Hinc. }
    rewrite !Hc. fold old. by repeat split.
  - assert (Hc : ensureSpecCached spec cachedSpecs
                 = <[moduleId spec := old ++ [spec]]> cachedSpecs).
    { unfold ensureSpecCached. cbn zeta. fold old. by rewrite Hinc. }
    assert (Hlook : default [] (ensureSpecCached spec cachedSpecs !! moduleId spec)
                    = old ++ [spec]).
    { by rewrite Hc, lookup_insert_eq. }
    assert (Hnow : specIncluded spec (old ++ [spec]) = true).
    { unfold specIncluded. rewrite existsb_app. cbn [existsb].
      rewrite bool_decide_eq_true_2 by done. rewrite String.eqb_refl.
      by rewrite orb_true_r. }
    split; [by rewrite Hlook|]. split; [rewrite Hlook; by apply prefix_app_r|].
    split; [intros file Hne; by rewrite Hc, lookup_insert_ne|].
    unfold ensureSpecCached at 1. cbn zeta. by rewrite Hlook, Hnow.
Qed.

Context `{!@SourceHost Project Payload}.

(** X23: [filterTestsBySource] returns some of the specs, in their
    order. With related files given and no force-rerun trigger among
    them, it returns the specs of which the file or a dependency is
    among the related files, and whether the config is in watch mode
    makes no difference to the result: with no related files, no spec is
    returned in watch mode either. *)
Theorem filterTestsBySource_selects
    (related : option (list string)) (watch : bool) (triggers : list string) specs :
  filterTestsBySource related watch triggers specs `sublist_of` specs
  /\ (related = None -> filterTestsBySource related watch triggers specs = specs)
  /\ (forall paths,
        related = Some paths ->
        (triggers = [] \/ mm paths triggers = []) ->
        (forall spec,
            spec ∈ filterTestsBySource related watch triggers specs
            <-> spec ∈ specs
                /\ exists path_, path_ ∈ paths
                     /\ (path_ = moduleId spec \/ path_ ∈ getTestDependencies spec))
        /\ filterTestsBySource related watch triggers specs
           = filterTestsBySource related (negb watch) triggers specs
        /\ (paths = [] -> filterTestsBySource related watch triggers specs = [])).
Proof.
  split; [|split; [by intros ->|]].
  - unfold filterTestsBySource. destruct related as [paths|]; [|done].
    destruct (_ && _); [done|]. destruct (_ && _); [apply sublist_nil_l|].
    apply sublist_filter.
  - intros paths -> Hquiet. unfold filterTestsBySource.
    assert (Hforce : negb (Nat.eqb (length triggers) 0)
                     && negb (Nat.eqb (length (mm paths triggers)) 0) = false).
    { destruct Hquiet as [-> | ->]; [done|]. by rewrite andb_false_r. }
    rewrite Hforce.
    set (selected := filter _ specs).
    assert (Hempty : paths = [] -> selected = []).
    { intros ->. subst selected. induction specs as [|spec specs IH]; [done|].
      rewrite filter_cons. cbn [existsb]. by destruct (decide (false = true)). }
    assert (Hsame : forall flag, (if negb flag && Nat.eqb (length paths) 0 then [] else selected)
                                 = selected).
    { intros flag. destruct (negb flag && Nat.eqb (length paths) 0) eqn:Hflag; [|done].
      apply andb_true_iff in Hflag as [_ Hlen]. apply Nat.eqb_eq in Hlen.
      symmetry. apply Hempty. by destruct paths. }
    rewrite !Hsame. split; [|by split].
    intros spec. subst selected. rewrite list_elem_of_filter, existsb_exists. split.
    + intros [(path_ & Hin & Hmatch) Hspec]. split; [done|]. exists path_.
      split; [by apply list_elem_of_In|].
      apply orb_true_iff in Hmatch as [Hm|Hm]; [left; by apply String.eqb_eq|].
      right. by apply bool_decide_eq_true in Hm.
    + intros [Hspec (path_ & Hin & Hmatch)]. split; [|done]. exists path_.
      split; [by apply list_elem_of_In|]. apply orb_true_iff.
      destruct Hmatch as [->|Hdep]; [left; apply String.eqb_refl|].
      right. by apply bool_decide_eq_true.
Qed.

End SpecProperties.

(** ** parseFilter *)

Section CliProperties.
Context {Thrown TestError : Type} `{!Host Thrown TestError} `{!Numbers}.

Local Arguments String.append !_ _ / : simpl nomatch.

(** *** Strings *)

Lemma substring_all (s : string) : String.substring 0 (String.length s) s = s.
Proof. induction s as [|c s IH]; simpl; [done|]. by rewrite IH. Qed.

Lemma substring_prefix (pre rest : string) :
  String.substring 0 (String.length pre) (pre +:+ rest) = pre.
Proof.
  induction pre as [|c pre IH]; simpl; [by destruct rest|]. by rewrite IH.
Qed.

Lemma substring_suffix (pre rest : string) :
  String.substring (String.length pre) (String.length rest) (pre +:+ rest) = rest.
Proof. induction pre as [|c pre IH]; simpl; [apply substring_all|done]. Qed.

Lemma length_append (s1 s2 : string) :
  String.length (s1 +:+ s2) = String.length s1 + String.length s2.
Proof. induction s1 as [|c s1 IH]; simpl; [done|]. by rewrite IH. Qed.

(** The first colon of a string splits it in two. *)
Lemma indexOf_split (c : ascii) (s : string) : forall i,
  indexOf c s = Some i ->
  s = substringTo i s +:+ String c (substringFrom (i + 1) s)
  /\ indexOf c (substringTo i s) = None.
Proof.
  unfold substringTo, substringFrom.
  induction s as [|a s IH]; intros i; cbn [indexOf]; [done|].
  destruct (Ascii.eqb a c) eqn:Hac.
  - intros [= <-]. apply Ascii.eqb_eq in Hac as ->. simpl.
    rewrite Nat.sub_0_r, substring_all. done.
  - destruct (indexOf c s) as [j|]; [|done]. cbn [fmap option_fmap option_map].
    intros [= <-]. destruct (IH j eq_refl) as [Hs Hnone]. simpl.
    rewrite Hac, Hnone. split; [|done]. f_equal. exact Hs.
Qed.

Lemma indexOf_join (c : ascii) (pre post : string) :
  indexOf c pre = None ->
  indexOf c (pre +:+ String c post) = Some (String.length pre)
  /\ substringTo (String.length pre) (pre +:+ String c post) = pre
  /\ substringFrom (String.length pre + 1) (pre +:+ String c post) = post.
Proof.
  intros Hnone. split; [|split].
  - induction pre as [|a pre IH]; simpl; [by rewrite Ascii.eqb_refl|].
    cbn [indexOf] in Hnone. destruct (Ascii.eqb a c); [done|].
    destruct (indexOf c pre); [done|]. by rewrite IH.
  - apply substring_prefix.
  - unfold substringFrom. rewrite length_append. cbn [String.length].
    replace (String.length pre + S (String.length post) - (String.length pre + 1))
      with (String.length post) by lia.
    clear Hnone. induction pre as [|a pre IH]; simpl; [apply substring_all|exact IH].
Qed.

(** *** Digits *)

Lemma digitsValue_acc (d : Decimal.uint) : forall acc : positive,
  fold_left (fun acc c => (10 * acc + (N_of_ascii c - 48))%N)
    (list_ascii_of_string (NilEmpty.string_of_uint d)) (N.pos acc)
  = N.pos (Pos.of_uint_acc d acc).
Proof.
  induction d as [|d IH|d IH|d IH|d IH|d IH|d IH|d IH|d IH|d IH|d IH]; intros acc;
    cbn [NilEmpty.string_of_uint list_ascii_of_string fold_left Pos.of_uint_acc];
    [done|..];
    match goal with
    | |- fold_left _ _ ?a = N.pos (Pos.of_uint_acc _ ?p) =>
        replace a with (N.pos p) by (cbn; lia)
    end; apply IH.
Qed.

Lemma digitsValue_string_of_uint (d : Decimal.uint) :
  digitsValue (NilEmpty.string_of_uint d) = N.of_uint d.
Proof.
  unfold digitsValue, N.of_uint.
  induction d as [|d IH|d IH|d IH|d IH|d IH|d IH|d IH|d IH|d IH|d IH];
    cbn [NilEmpty.string_of_uint list_ascii_of_string fold_left Pos.of_uint];
    [done|exact IH|..];
    match goal with
    | |- fold_left _ _ ?a = N.pos (Pos.of_uint_acc _ ?p) =>
        replace a with (N.pos p) by (cbn; lia)
    end; apply digitsValue_acc.
Qed.

Lemma digits_string_of_uint (d : Decimal.uint) :
  forallb isDigit (list_ascii_of_string (NilEmpty.string_of_uint d)) = true.
Proof.
  induction d as [|d IH|d IH|d IH|d IH|d IH|d IH|d IH|d IH|d IH|d IH];
    cbn [NilEmpty.string_of_uint list_ascii_of_string forallb]; [done|..];
    by rewrite IH.
Qed.

(** [`${n}`] for a non-negative integer [n] is a string of digits that
    denotes [n]. *)
Lemma numberToString_digits (n : N) :
  allDigits (numberToString (Z.of_N n)) = true
  /\ digitsValue (numberToString (Z.of_N n)) = n.
Proof.
  assert (Hs : numberToString (Z.of_N n) = NilEmpty.string_of_uint (N.to_uint n)
               /\ N.to_uint n <> Decimal.Nil).
  { unfold numberToString. destruct n as [|p]; [done|]. cbn [Z.of_N Z.to_int N.to_uint].
    assert (Hp : Pos.to_uint p <> Decimal.Nil).
    { intros Hnil. pose proof (DecimalPos.Unsigned.of_to p) as Hof. rewrite Hnil in Hof.
      done. }
    split; [|done]. unfold NilZero.string_of_int, NilZero.string_of_uint.
    by destruct (Pos.to_uint p). }
  destruct Hs as [-> Hnil]. split.
  - unfold allDigits. rewrite digits_string_of_uint, andb_true_r.
    by destruct (N.to_uint n).
  - rewrite digitsValue_string_of_uint. apply DecimalN.Unsigned.of_to.
Qed.

(** *** parseFilter *)

(** X24: a file name without a colon, followed by a colon and a line
    number written in decimal, is read back as that file name and that
    line number, for line numbers up to 2^53. *)
Theorem parseFilter_round_trip (name_ : string) (n : N) :
  indexOf ":" name_ = None ->
  (n <= 2 ^ 53)%N ->
  parseFilter (name_ +:+ ":" +:+ numberToString (Z.of_N n))
  = inr {| filename := name_; lineNumber := Some n |}.
Proof.
  intros Hnone Hn. unfold parseFilter.
  destruct (indexOf_join ":" name_ (numberToString (Z.of_N n)) Hnone) as (Hi & Hto & Hfrom).
  change (name_ +:+ ":" +:+ numberToString (Z.of_N n))
    with (name_ +:+ String ":" (numberToString (Z.of_N n))).
  rewrite Hi. cbn zeta. rewrite Hto, Hfrom.
  destruct (numberToString_digits n) as [-> ->]. by rewrite numberValue_safe.
Qed.

(** X25: what [parseFilter] returns. A filter without a line number
    names the whole argument as the file. A filter with a line number
    comes from an argument made of the file name, which has no colon in
    it, a colon, and nothing but digits, which denote the line number. So
    a path that has a colon in it cannot be given a line number. *)
Theorem parseFilter_returns (f : string) (parsed : Filter) :
  parseFilter f = inr parsed ->
  match lineNumber parsed with
  | None => filename parsed = f
  | Some n =>
      exists digits,
        f = filename parsed +:+ ":" +:+ digits
        /\ allDigits digits = true
        /\ indexOf ":" (filename parsed) = None
        /\ n = numberValue (digitsValue digits)
  end.
Proof.
  unfold parseFilter. destruct (indexOf ":" f) as [i|] eqn:Hi; [|by intros [= <-]].
  cbn zeta. destruct (indexOf_split _ _ _ Hi) as [Hf Hnone].
  destruct (allDigits (substringFrom (i + 1) f)) eqn:Hdigits.
  - intros [= <-]. cbn [lineNumber filename]. by exists (substringFrom (i + 1) f).
  - destruct (includes "-" _); [done|]. by intros [= <-].
Qed.

(** X26: [parseFilter] throws exactly on an argument in which the first
    colon is followed by text that has a hyphen in it and is not all
    digits: a range of lines, but a path with a colon and a hyphen
    after it as well. *)
Theorem parseFilter_throws (f : string) (e : Thrown) :
  parseFilter f = inl e
  <-> e = newError "Range line numbers are not allowed"
      /\ exists pre post,
           f = pre +:+ ":" +:+ post
           /\ indexOf ":" pre = None
           /\ allDigits post = false
           /\ includes "-" post = true.
Proof.
  unfold parseFilter. split.
  - destruct (indexOf ":" f) as [i|] eqn:Hi; [|done].
    cbn zeta. destruct (indexOf_split _ _ _ Hi) as [Hf Hnone].
    destruct (allDigits (substringFrom (i + 1) f)) eqn:Hdigits; [done|].
    destruct (includes "-" _) eqn:Hrange; [|done].
    intros [= <-]. split; [done|].
    by exists (substringTo i f), (substringFrom (i + 1) f).
  - intros (-> & pre & post & -> & Hnone & Hdigits & Hrange).
    destruct (indexOf_join ":" pre post Hnone) as (Hi & Hto & Hfrom).
    change (pre +:+ ":" +:+ post) with (pre +:+ String ":" post).
    rewrite Hi. cbn zeta. by rewrite Hfrom, Hdigits, Hrange.
Qed.

End CliProperties.

(** ** processCollected *)

Section ListProperties.
Context {TestError Location : Type} `{!@CliHost TestError Location}.
Implicit Types (t : @Task TestError) (ts : list (@Task TestError)).
Implicit Types (file : @File TestError) (files : list (@File TestError)).
Implicit Types (s : bool * list (@PrintedError TestError)).

Lemma printSuiteErrors_log file t s :
  printSuiteErrors file t s
  = let errors_ := match result (base t) with Some r => errors r | None => [] end in
    (s.1 || negb (Nat.eqb (length errors_) 0),
     s.2 ++ map (fun e => mkPrinted e (projectName file)) errors_).
Proof.
  unfold printSuiteErrors. cbn zeta.
  generalize (match result (base t) with Some r => errors r | None => [] end). intros l.
  revert s. induction l as [|e l IH]; intros [flag log]; cbn [fold_left map length Nat.eqb negb].
  - by rewrite orb_false_r, app_nil_r.
  - rewrite IH. cbn [fst snd]. by rewrite <- app_assoc, orb_true_r.
Qed.

Lemma forEachSuiteTask_log file t : forall s,
  forEachSuiteTask (printSuiteErrors file) t s
  = (s.1 || negb (Nat.eqb (length (suiteErrors t)) 0),
     s.2 ++ map (fun e => mkPrinted e (projectName file)) (suiteErrors t)).
Proof.
  induction t as [ty b|b ts IH] using Task_ind; intros [flag log].
  - cbn. by rewrite orb_false_r, app_nil_r.
  - cbn [forEachSuiteTask suiteErrors]. rewrite printSuiteErrors_log. cbn zeta.
    cbn [fst snd base].
    generalize (match result b with Some r => errors r | None => [] end). intros l.
    revert flag log l. induction IH as [|c rest Hc _ IHrest]; intros flag log l.
    + cbn. by rewrite !app_nil_r.
    + cbn [fold_left map concat]. rewrite Hc. cbn [fst snd].
      rewrite <- orb_assoc, <- app_assoc, <- map_app.
      replace (negb (Nat.eqb (length l) 0) || negb (Nat.eqb (length (suiteErrors c)) 0))
        with (negb (Nat.eqb (length (l ++ suiteErrors c)) 0))
        by (rewrite length_app; by destruct l, (suiteErrors c)).
      rewrite (IHrest flag log (l ++ suiteErrors c)). by rewrite <- !app_assoc.
Qed.

Lemma processCollected_log files : forall s,
  fold_left (fun s file => forEachSuite (printSuiteErrors file) [fileSuite file] s) files s
  = (s.1 || negb (Nat.eqb (length (concat (map (fun file => suiteErrors (fileSuite file)) files))) 0),
     s.2 ++ concat (map (fun file => map (fun e => mkPrinted e (projectName file))
                                      (suiteErrors (fileSuite file))) files)).
Proof.
  induction files as [|file files IH]; intros [flag log]; cbn [fold_left map concat].
  - cbn. by rewrite orb_false_r, app_nil_r.
  - rewrite IH. unfold forEachSuite. cbn [fold_left]. rewrite forEachSuiteTask_log.
    cbn [fst snd]. rewrite <- orb_assoc, <- app_assoc. f_equal.
    rewrite length_app. by destruct (suiteErrors _), (concat _).
Qed.

Lemma elem_of_concat {A : Type} (x : A) (ls : list (list A)) :
  x ∈ concat ls <-> exists l, x ∈ l /\ l ∈ ls.
Proof.
  induction ls as [|l0 ls IH]; cbn [concat].
  - split; [by intros ?%elem_of_nil|]. by intros (l & _ & ?%elem_of_nil).
  - rewrite elem_of_app, IH. split.
    + intros [Hx|(l & Hx & Hl)]; [exists l0; split; [done|by left]|].
      exists l. split; [done|by right].
    + intros (l & Hx & Hl). apply elem_of_cons in Hl as [->|Hl]; [by left|].
      right. by exists l.
Qed.

(** The errors of the suites of a tree are the errors attached to the
    suites at its positions. *)
Lemma suiteErrors_spec t (e : TestError) :
  e ∈ suiteErrors t
  <-> exists p b ts r,
        taskAt p t = Some (SuiteTask b ts) /\ result b = Some r /\ e ∈ errors r.
Proof.
  induction t as [ty b|b ts IH] using Task_ind.
  - split; [by intros ?%elem_of_nil|]. intros ([|i p] & b0 & ts0 & r & Hat & _); [done|].
    by destruct i.
  - cbn [suiteErrors]. rewrite elem_of_app. split.
    + intros [Hhere|Hbelow].
      * destruct (result b) as [r|] eqn:Hr; [|by apply elem_of_nil in Hhere].
        by exists [], b, ts, r.
      * apply elem_of_concat in Hbelow as (l & He & Hl).
        apply list_elem_of_fmap in Hl as (c & -> & Hc).
        apply list_elem_of_lookup in Hc as [i Hi].
        rewrite Forall_lookup in IH. apply (IH i c Hi) in He as (p & b0 & ts0 & r & Hat & Hr & He).
        exists (i :: p), b0, ts0, r. cbn [taskAt tasks_of]. by rewrite Hi.
    + intros ([|i p] & b0 & ts0 & r & Hat & Hr & He).
      * injection Hat as <- <-. left. by rewrite Hr.
      * right. cbn [taskAt tasks_of] in Hat.
        destruct (ts !! i) as [c|] eqn:Hi; [|done].
        apply elem_of_concat. exists (suiteErrors c). split.
        -- rewrite Forall_lookup in IH. apply (IH i c Hi). by exists p, b0, ts0, r.
        -- apply list_elem_of_fmap. exists c. split; [done|]. by eapply list_elem_of_lookup_2.
Qed.

Lemma processCollected_printed files (options : CliOptions) :
  (forall e project,
      mkPrinted e project ∈ (processCollected files options).1
      <-> exists file p b ts r,
            file ∈ files /\ projectName file = project
            /\ taskAt p (fileSuite file) = Some (SuiteTask b ts)
            /\ result b = Some r /\ e ∈ errors r)
  /\ ((processCollected files options).2 = None
      <-> (processCollected files options).1 <> []).
Proof.
  unfold processCollected. rewrite processCollected_log. cbn [fst snd app orb].
  set (log := concat (map (fun file => map (fun e => mkPrinted e (projectName file))
                                         (suiteErrors (fileSuite file))) files)).
  assert (Hlen : Nat.eqb (length (concat (map (fun file => suiteErrors (fileSuite file)) files))) 0
                 = Nat.eqb (length log) 0).
  { subst log. induction files as [|file files IH]; [done|]. cbn [map concat].
    rewrite !length_app, length_map.
    destruct (suiteErrors (fileSuite file)); [exact IH|done]. }
  rewrite Hlen.
  assert (Hlog : forall e project,
            mkPrinted e project ∈ log
            <-> exists file p b ts r,
                  file ∈ files /\ projectName file = project
                  /\ taskAt p (fileSuite file) = Some (SuiteTask b ts)
                  /\ result b = Some r /\ e ∈ errors r).
  { intros e project. subst log. rewrite elem_of_concat. split.
    - intros (l & He & Hl). apply list_elem_of_fmap in Hl as (file & -> & Hfile).
      apply list_elem_of_fmap in He as (e' & [= -> ->] & He).
      apply suiteErrors_spec in He as (p & b & ts & r & Hat & Hr & He).
      by exists file, p, b, ts, r.
    - intros (file & p & b & ts & r & Hfile & <- & Hat & Hr & He).
      exists (map (fun e => mkPrinted e (projectName file)) (suiteErrors (fileSuite file))).
      split.
      + apply list_elem_of_fmap. exists e. split; [done|].
        apply suiteErrors_spec. by exists p, b, ts, r.
      + apply list_elem_of_fmap. by exists file. }
  destruct log as [|x log']; cbn [length Nat.eqb negb].
  - destruct (json options); cbn [fst snd]; (split; [exact Hlog|done]).
  - split; [exact Hlog|]. done.
Qed.

(** X27: [processCollected] prints the errors that are attached to the
    Files and to the suites in them, each with the project name of its
    File, and no error that is attached to a test. It lists the tests
    exactly when it has printed no error. *)
Theorem processCollected_errors files (options : CliOptions) :
  (forall e project,
      mkPrinted e project ∈ (processCollected files options).1
      <-> exists file p b ts r,
            file ∈ files /\ projectName file = project
            /\ taskAt p (fileSuite file) = Some (SuiteTask b ts)
            /\ result b = Some r /\ e ∈ errors r)
  /\ ((processCollected files options).2 = None
      <-> (processCollected files options).1 <> []).
Proof. apply processCollected_printed. Qed.

End ListProperties.

Section ListCollected.
Context {Thrown TestError : Type} `{!Host Thrown TestError}.
Context {World Hook : Type} `{!@Collaborators Thrown TestError World Hook}.
Context {Location : Type} `{!@CliHost TestError Location}.

(** X28: a File of which the collection threw stops the listing: with
    such a File among the collected ones, [processCollected] prints the
    error of the File and lists no test of any File. *)
Theorem failed_file_stops_listing
    (runner : @VitestRunner Thrown TestError World) (path_ : string) (w w' : World)
    (file : @File TestError) (files : list (@File TestError)) (options : CliOptions) :
  collectFile runner path_ w = (w', inr file) ->
  collectDuration file = None ->
  file ∈ files ->
  (processCollected files options).2 = None
  /\ exists e, mkPrinted (processError e) (projectName file)
               ∈ (processCollected files options).1.
Proof.
  intros Hfile Hfailed Hin.
  destruct (collectFile_outcome _ _ _ _ _ Hfile) as [[[[e He] _]|(_ & Hc & _)] _];
    [|rewrite Hfailed in Hc; by destruct Hc].
  destruct (processCollected_printed files options) as [Hlog Hnone].
  assert (Hprinted : mkPrinted (processError e) (projectName file)
                     ∈ (processCollected files options).1).
  { apply Hlog. exists file, [], (file_base file), (file_tasks file). eexists.
    split; [done|]. split; [done|]. split; [done|]. split; [exact He|]. by left. }
  split; [|by exists e]. apply Hnone. intros Hnil. rewrite Hnil in Hprinted.
  by apply elem_of_nil in Hprinted.
Qed.

End ListCollected.

(** ** The further properties on the worked examples *)

Section MoreWorked.
Import Examples MoreExamples.

Local Abbreviation TaskS := (@Task string).

(** A proposition about concrete sets, decided by evaluation. *)
Ltac by_evaluation := apply (bool_decide_unpack _); vm_compute; exact I.

Lemma run_was_run_or_only_witness :
  modeAt [0; 1] (scenario : TaskS) = Some run
  \/ (true = true /\ modeAt [0; 1] (scenario : TaskS) = Some only).
Proof.
  apply (run_was_run_or_only None true true false [] (scenario : TaskS) [0; 1]).
  reflexivity.
Defined.

Lemma only_filter_sound_witness :
  false = true
  \/ Exists (fun a : TaskS => mode (base a) = only) (ancestorsAlong [0; 1] scenario)
  \/ modeAt [0; 1] (scenario : TaskS) = Some only.
Proof.
  apply (only_filter_sound None true false [] (base (scenario : TaskS))
           (tasks_of (scenario : TaskS)) [0; 1] test (mkBase "" "t2" run None));
    [reflexivity|reflexivity|].
  repeat constructor. done.
Defined.

Lemma running_suite_has_running_task_witness :
  let S1 : TaskS := aSuite "S1" run [aTest "t1" skip; aTest "t2" run] in
  tasks_of S1 = [] \/ Exists (fun d => mode (base d) = run) (tasks_of S1).
Proof.
  apply (running_suite_has_running_task None true true false [] (base (scenario : TaskS))
           (tasks_of (scenario : TaskS)) [0]);
    [reflexivity|reflexivity|constructor].
Defined.

Lemma hashed_ids_unique_witness :
  [0; 1] = [0; 1].
Proof.
  apply (hashed_ids_unique (scenario : TaskS) [0; 1] [0; 1]
           (Leaf test (mkBase "_0_1" "t2" only None))
           (Leaf test (mkBase "_0_1" "t2" only None))); reflexivity.
Defined.

Lemma collected_ids_by_position_witness :
  exists file : @File string,
    collectFile exampleRunner "good.test.ts" tt = (tt, inr file)
    /\ forall p c, taskAt p (fileSuite file) = Some c ->
         task_id (base c) = pathId (task_id (file_base file)) p.
Proof.
  eexists. split; [vm_compute; reflexivity|].
  apply (collected_ids_by_position exampleRunner "good.test.ts" tt tt).
  vm_compute. reflexivity.
Defined.

Lemma collected_durations_witness :
  exists file : @File string,
    collectFile exampleRunner "bad.test.ts" tt = (tt, inr file)
    /\ setupDuration file = Some 0%Z.
Proof.
  eexists. split; [vm_compute; reflexivity|].
  apply (collected_durations exampleRunner "bad.test.ts" tt tt);
    [vm_compute; reflexivity|reflexivity].
Defined.

Lemma handleFileChanged_names_its_path_witness :
  exists v' files,
    handleFileChanged (enoughFuel idleVitest) idleVitest "a.ts" = Some (v', files)
    /\ (files = [] \/ files = ["a.ts"]).
Proof.
  do 2 eexists. split; [vm_compute; reflexivity|].
  eapply (handleFileChanged_names_its_path (enoughFuel idleVitest) idleVitest "a.ts").
  vm_compute. reflexivity.
Defined.

Lemma quiet_means_nothing_scheduled_witness :
  changedTests idleVitest = changedTests idleVitest.
Proof.
  apply (quiet_means_nothing_scheduled 1 idleVitest "notes.txt" idleVitest).
  vm_compute. reflexivity.
Defined.

Lemma handleFileChanged_writes_pending_only_witness :
  exists v' files,
    handleFileChanged (enoughFuel idleVitest) idleVitest "a.ts" = Some (v', files)
    /\ resolvedFrom idleVitest v'.
Proof.
  do 2 eexists. split; [vm_compute; reflexivity|].
  eapply (handleFileChanged_writes_pending_only (enoughFuel idleVitest) idleVitest "a.ts").
  vm_compute. reflexivity.
Defined.

Lemma known_test_is_scheduled_witness :
  exists v' files,
    handleFileChanged (enoughFuel knownVitest) knownVitest "a.test.ts" = Some (v', files)
    /\ "a.test.ts" ∈ changedTests v'.
Proof.
  do 2 eexists. split; [vm_compute; reflexivity|].
  eapply (known_test_is_scheduled (enoughFuel knownVitest) knownVitest "a.test.ts");
    [by_evaluation|by_evaluation|vm_compute; reflexivity].
Defined.

Lemma dependent_tests_are_scheduled_witness :
  exists v' files,
    handleFileChanged (enoughFuel knownVitest) knownVitest "a.ts" = Some (v', files)
    /\ "a.test.ts" ∈ changedTests v' /\ files = ["a.ts"].
Proof.
  assert (Hclean : invalidates knownVitest = ∅) by reflexivity.
  assert (Hnone : changedTests knownVitest = ∅) by reflexivity.
  assert (Hknown : "a.test.ts" ∈ filesMap knownVitest) by by_evaluation.
  assert (Ha : getModulesByFilepath cyclicProject "a.ts" = [mkModule [Some "b.ts"; None]])
    by (vm_compute; reflexivity).
  assert (Hb : getModulesByFilepath cyclicProject "b.ts"
               = [mkModule [Some "a.ts"; Some "a.test.ts"]])
    by (vm_compute; reflexivity).
  assert (Hchain : importedBy knownVitest "a.ts" "a.test.ts").
  { apply (rtc_l _ _ "b.ts"); [|apply rtc_once].
    - exists cyclicProject, (mkModule [Some "b.ts"; None]).
      split; [by left|]. split; [rewrite Ha; by left|]. split; [by_evaluation|].
      split; [reflexivity|]. split; [by left|done].
    - exists cyclicProject, (mkModule [Some "a.ts"; Some "a.test.ts"]).
      split; [by left|]. split; [rewrite Hb; by left|]. split; [by_evaluation|].
      split; [reflexivity|]. split; [by right; left|done]. }
  do 2 eexists. split; [vm_compute; reflexivity|].
  eapply (dependent_tests_are_scheduled (enoughFuel knownVitest) knownVitest "a.ts"
            "a.test.ts" _ _ Hclean Hnone Hchain Hknown).
  vm_compute. reflexivity.
Defined.

Lemma started_rerun_is_coalesced_witness :
  exists r,
    (rerunTimerFired (mkTimer 0 ["a.ts"]) pendingVitest).2 = Some r
    /\ NoDup (rerun_files r).
Proof.
  eexists. split; [vm_compute; reflexivity|].
  apply (started_rerun_is_coalesced (mkTimer 0 ["a.ts"]) pendingVitest).
  vm_compute. reflexivity.
Defined.

Lemma changed_test_is_rerun_witness :
  exists v1 count timer r,
    onChange (enoughFuel knownVitest) "a.test.ts" knownVitest
    = Some (v1, Some (count, ["a.test.ts"]))
    /\ rerunTimer (scheduleRerunResume count ["a.test.ts"] v1) = Some timer
    /\ (rerunTimerFired timer (scheduleRerunResume count ["a.test.ts"] v1)).2 = Some r
    /\ "a.test.ts" ∈ rerun_files r
    /\ triggerLabel r = "a.test.ts".
Proof.
  assert (Hknown : "a.test.ts" ∈ filesMap knownVitest) by by_evaluation.
  assert (Hvalid : "a.test.ts" ∉ invalidates knownVitest) by by_evaluation.
  assert (Hfresh : "a.test.ts" ∉ changedTests knownVitest) by by_evaluation.
  assert (Hwatched : size (watchedTests knownVitest) = 0 \/ "a.test.ts" ∈ watchedTests knownVitest)
    by (left; vm_compute; reflexivity).
  exact (changed_test_is_rerun knownVitest "a.test.ts" Hknown Hvalid Hfresh Hwatched I).
Defined.

Lemma unlinked_test_is_not_rerun_witness :
  "a.test.ts" ∉ ["b.test.ts"].
Proof.
  assert (Hknown : "a.test.ts" ∈ filesMap pendingVitest) by by_evaluation.
  assert (Hfired : (rerunTimerFired (mkTimer 0 ["a.test.ts"])
                      (onUnlink "a.test.ts" pendingVitest).1).2
                   = Some {| rerun_files := ["b.test.ts"]; triggerLabel := "a.test.ts" |})
    by (vm_compute; reflexivity).
  exact (unlinked_test_is_not_rerun "a.test.ts" pendingVitest (mkTimer 0 ["a.test.ts"])
           {| rerun_files := ["b.test.ts"]; triggerLabel := "a.test.ts" |} Hknown Hfired).
Defined.

Lemma parseFilter_round_trip_witness :
  parseFilter "src/a.test.ts:12" = inr {| filename := "src/a.test.ts"; lineNumber := Some 12%N |}.
Proof.
  apply (parseFilter_round_trip "src/a.test.ts" 12); [reflexivity|].
  vm_compute. discriminate.
Defined.

Lemma parseFilter_returns_witness :
  exists digits,
    "src/a.test.ts:0012" = "src/a.test.ts" +:+ ":" +:+ digits
    /\ allDigits digits = true
    /\ indexOf ":" "src/a.test.ts" = None
    /\ 12%N = numberValue (digitsValue digits).
Proof.
  apply (parseFilter_returns "src/a.test.ts:0012"
           {| filename := "src/a.test.ts"; lineNumber := Some 12%N |}).
  vm_compute. reflexivity.
Defined.

Lemma failed_file_stops_listing_witness :
  exists file : @File string,
    collectFile exampleRunner "bad.test.ts" tt = (tt, inr file)
    /\ (processCollected [file] (mkCliOptions None None)).2 = None.
Proof.
  eexists. split; [vm_compute; reflexivity|].
  eapply (failed_file_stops_listing exampleRunner "bad.test.ts" tt tt);
    [vm_compute; reflexivity|reflexivity|by left].
Defined.

Lemma skipAllTasks_reaches_run_chains_witness :
  skipAllTasks (tasks_of (skippedNest : TaskS)) !! 0 ≫= modeAt [0; 0] = Some run.
Proof.
  apply (skipAllTasks_reaches_run_chains (tasks_of (skippedNest : TaskS)) 0 [0; 0]
           (aSuite "A" skip [aSuite "B" skip [aTest "t" run]]) (aTest "t" run));
    reflexivity.
Defined.

(** The empty filename pattern filters nothing, although no file matches
    it; and the label names each trigger once, in the order in which the
    triggers first occur. *)
Lemma rerunTimerFired_empty_pattern :
  (rerunTimerFired (mkTimer 0 ["a.ts"; "b.ts"; "a.ts"]) emptyPatternVitest).2
  = Some {| rerun_files := ["a.test.ts"]; triggerLabel := "a.ts, b.ts" |}.
Proof. vm_compute. reflexivity. Qed.

End MoreWorked.
